(** * srvra-sync: state store, event bus, conflict resolver, sync orchestrator

    A shallow embedding of the four classes of the synchronisation core
    (SrvraStateManager, SrvraEventBus, SrvraConflictResolver, SrvraDataSync)
    and the properties stated about them.

    Conventions.
    - JavaScript numbers that the code uses as counters, lengths and
      timestamps are integers ([Z]).
    - [undefined] read from an absent option key is [None]; a constructor
      input is a record of optional fields.  Where a method compares
      against an option that the spread may have set to [undefined] (the
      state store's [historySize]), the input tells an absent key from an
      own key that holds [undefined].
    - [Date.now()] and [Math.random()] are inputs of the operation that
      reads them (a [clock]).
    - Host callbacks (subscriber and listener callbacks, filters) are pure
      observers: they do not call back into the object that invokes them. *)

From Stdlib Require Import ZArith Lia Ascii.
From stdpp Require Import base option list list_numbers sorting strings pretty.

#[local] Set Warnings "-register-all".
Local Open Scope string_scope.
Local Open Scope list_scope.
Local Open Scope Z_scope.

(** ** JavaScript values *)

Module JS.

Inductive prim : Type :=
| PUndef
| PNull
| PBool (b : bool)
| PNum (n : Z)
| PStr (s : string).

(** Structured data: primitives, arrays of primitives, objects.  (The
    array operations below are written for any element type with a
    decidable identity, see [set_elements].) *)
Inductive value : Type :=
| VPrim (p : prim)
| VArr (l : list prim)
| VObj (o : list (string * value)).

#[global] Instance prim_eq_dec : EqDecision prim.
Proof. solve_decision. Defined.

Definition undefined : value := VPrim PUndef.
Definition num (n : Z) : value := VPrim (PNum n).
Definition str (s : string) : value := VPrim (PStr s).

(** ToBoolean *)
Definition truthy_prim (p : prim) : bool :=
  match p with
  | PUndef | PNull => false
  | PBool b => b
  | PNum n => negb (n =? 0)
  | PStr s => match s with EmptyString => false | _ => true end
  end.

Definition truthy (v : value) : bool :=
  match v with
  | VPrim p => truthy_prim p
  | VArr _ | VObj _ => true
  end.

Definition truthy_Z (n : Z) : bool := negb (n =? 0).
Definition truthy_string (s : string) : bool :=
  match s with EmptyString => false | _ => true end.
Definition truthy_bool (b : bool) : bool := b.

(** [config.k || d] where [config.k] may be absent *)
Definition or_default {A : Type} (truthyA : A -> bool) (o : option A) (d : A) : A :=
  match o with
  | Some v => if truthyA v then v else d
  | None => d
  end.

(** The field [k] of [{ k: computed, ...config }]: the spread comes last,
    so an own key of [config] overrides the computed value. *)
Definition spread_over {A : Type} (o : option A) (computed : A) : A :=
  match o with
  | Some v => v
  | None => computed
  end.

(** [typeof] as used by determineDataType *)
Definition typeof_prim (p : prim) : string :=
  match p with
  | PUndef => "undefined"
  | PNull => "object"
  | PBool _ => "boolean"
  | PNum _ => "number"
  | PStr _ => "string"
  end.

(** Insertion-ordered [Map]. *)
Section OrderedMap.
Context {K V : Type} `{EqDecision K}.

Fixpoint map_get (k : K) (m : list (K * V)) : option V :=
  match m with
  | [] => None
  | (k', v) :: m' => if decide (k = k') then Some v else map_get k m'
  end.

Definition map_has (k : K) (m : list (K * V)) : bool :=
  match map_get k m with Some _ => true | None => false end.

(** [Map.prototype.set]: an existing key keeps its position. *)
Fixpoint map_set (k : K) (v : V) (m : list (K * V)) : list (K * V) :=
  match m with
  | [] => [(k, v)]
  | (k', v') :: m' =>
      if decide (k = k') then (k, v) :: m' else (k', v') :: map_set k v m'
  end.

Fixpoint map_delete (k : K) (m : list (K * V)) : list (K * V) :=
  match m with
  | [] => []
  | (k', v') :: m' =>
      if decide (k = k') then m' else (k', v') :: map_delete k m'
  end.
End OrderedMap.

(** [Array.prototype.sort] with the comparator [rank b - rank a]:
    descending rank, stable (elements of equal rank keep their order).
    The list is built from its right end, so an element goes in front of
    the first one whose rank is not above its own. *)
Section StableSort.
Context {A : Type} (rank : A -> Z).

Fixpoint insert_desc (x : A) (l : list A) : list A :=
  match l with
  | [] => [x]
  | y :: l' => if rank y <=? rank x then x :: y :: l' else y :: insert_desc x l'
  end.

Definition sort_desc (l : list A) : list A := foldr insert_desc [] l.

(** The order the sort produces: no element ranks above one before it. *)
Definition descending (x y : A) : Prop := rank y <= rank x.
End StableSort.

Record clock : Type := Clock { now : Z; nonce : string }.

(** An identifier built as [`${prefix}_${Date.now()}_${random}`]. *)
Record ident : Type := Ident { id_prefix : string; id_time : Z; id_nonce : string }.

#[global] Instance ident_eq_dec : EqDecision ident.
Proof. solve_decision. Defined.

Definition generateId (pre : string) (clk : clock) : ident :=
  Ident pre (now clk) (nonce clk).

(** Thrown exceptions. *)
Inductive error : Type :=
| TypeError (what : string)
| UnknownStrategy (name : string)
| ResolutionFailed (attempts : Z)
| RangeError (what : string)
| HostError (what : string).

Inductive outcome (A : Type) : Type :=
| Return (a : A)
| Throw (e : error).
Arguments Return {A} a.
Arguments Throw {A} e.

Definition bind {A B : Type} (m : outcome A) (k : A -> outcome B) : outcome B :=
  match m with
  | Return a => k a
  | Throw e => Throw e
  end.

(** [new Set(items)] read back as [[...set]]: every element is added in
    turn, adding an element already present changes nothing, iteration is
    in insertion order.  Elements are compared by SameValueZero, which is
    value equality on primitives and identity on objects: the decidable
    equality of [A]. *)
Section SetOfArray.
Context {A : Type} `{EqDecision A}.

Definition set_add (acc : list A) (x : A) : list A :=
  if decide (x ∈ acc) then acc else acc ++ [x].

Definition set_elements (items : list A) : list A := foldl set_add [] items.
End SetOfArray.

(** ToString of a primitive.  A number is an integer of magnitude below
    1e21: those print as their digits (larger ones print with an
    exponent). *)
Definition prim_to_string (p : prim) : string :=
  match p with
  | PUndef => "undefined"
  | PNull => "null"
  | PBool true => "true"
  | PBool false => "false"
  | PNum n => pretty n
  | PStr s => s
  end.

(** One item of [Array.prototype.join]: null and undefined print as the
    empty string. *)
Definition join_prim (p : prim) : string :=
  match p with
  | PUndef | PNull => EmptyString
  | _ => prim_to_string p
  end.

Definition join_item (v : value) : string :=
  match v with
  | VPrim p => join_prim p
  | VArr l => String.concat "," (map join_prim l)
  | VObj _ => "[object Object]"
  end.

Fixpoint chars (s : string) : list prim :=
  match s with
  | EmptyString => []
  | String a s' => PStr (String a EmptyString) :: chars s'
  end.

(** The iteration protocol used by array spread: arrays and strings are
    iterable, anything else is a TypeError. *)
Definition iterate (v : value) : outcome (list prim) :=
  match v with
  | VArr l => Return l
  | VPrim (PStr s) => Return (chars s)
  | _ => Throw (TypeError "not iterable")
  end.

(** [v[k]] for a property name [k] that is not an array index *)
Definition get_prop (k : string) (v : value) : outcome value :=
  match v with
  | VPrim PUndef | VPrim PNull => Throw (TypeError "cannot read properties")
  | VObj o => Return (match map_get k o with Some x => x | None => undefined end)
  | _ => Return undefined
  end.

(** [v.length].  Strings are taken to be ASCII, where the count of
    characters is the count of UTF-16 units that the engine reports. *)
Definition get_length (v : value) : outcome value :=
  match v with
  | VArr l => Return (num (Z.of_nat (List.length l)))
  | VPrim (PStr s) => Return (num (Z.of_nat (String.length s)))
  | _ => get_prop "length" v
  end.

(** The own enumerable properties copied by an object spread [{...v}].
    Object keys are taken not to be array-index strings, so that
    insertion order is enumeration order. *)
Definition spread_fields (v : value) : list (string * value) :=
  match v with
  | VObj o => o
  | VArr l => imap (fun i p => (pretty i, VPrim p)) l
  | VPrim (PStr s) => imap (fun i p => (pretty i, VPrim p)) (chars s)
  | VPrim _ => []
  end.

(** [Object.assign(target, src)], keys in insertion order (no
    array-index keys, as above). *)
Definition assign_fields (target src : list (string * value)) : list (string * value) :=
  foldl (fun acc kv => map_set (fst kv) (snd kv) acc) target src.

Inductive priority : Type := High | Normal | Low.

(** [priorityMap = { high: 3, normal: 2, low: 1 }] *)
Definition priorityMap (p : priority) : Z :=
  match p with High => 3 | Normal => 2 | Low => 1 end.

End JS.

(** ** SrvraStateManager *)

Module StateManager.
Import JS.

(** The constructor's argument.  [in_historySize]: the key is absent
    ([None]), or it is an own key that holds a number or holds
    [undefined] ([Some None]); the spread copies an own key whatever it
    holds. *)
Record config_in : Type := ConfigIn {
  in_historySize : option (option Z);
  in_mergeStrategy : option string;
  in_enableVersioning : option bool;
  in_autoSync : option bool
}.

(** [historySize]: a number, or [undefined] ([None]). *)
Record config : Type := Config {
  historySize : option Z;
  mergeStrategy : string;
  enableVersioning : bool;
  autoSync : bool
}.

(** ToBoolean of a number that may be [undefined] *)
Definition truthy_number (o : option Z) : bool :=
  match o with
  | Some n => truthy_Z n
  | None => false
  end.

(** [n > bound]; with [bound] undefined the comparison is false. *)
Definition exceeds (n : Z) (bound : option Z) : bool :=
  match bound with
  | Some b => n >? b
  | None => false
  end.

Definition no_config : config_in := ConfigIn None None None None.

(** The four computed defaults of the constructor, before the spread. *)
Definition computed_enableVersioning (c : config_in) : bool :=
  or_default truthy_bool (in_enableVersioning c) true.
Definition computed_autoSync (c : config_in) : bool :=
  or_default truthy_bool (in_autoSync c) true.

Definition make_config (c : config_in) : config :=
  {| historySize :=
       spread_over (in_historySize c)
         (or_default truthy_number (in_historySize c) (Some 50));
     mergeStrategy :=
       spread_over (in_mergeStrategy c)
         (or_default truthy_string (in_mergeStrategy c) "last-write-wins");
     enableVersioning :=
       spread_over (in_enableVersioning c) (computed_enableVersioning c);
     autoSync := spread_over (in_autoSync c) (computed_autoSync c) |}.

Record options : Type := Options {
  opt_metadata : option value;
  opt_source : option string
}.

Definition no_options : options := Options None None.

Record update : Type := Update {
  upd_id : ident;
  upd_key : string;
  upd_value : value;
  upd_version : Z;
  upd_timestamp : Z;
  upd_metadata : value;
  upd_source : string
}.

(** [{ ...update, previousValue }] *)
Record history_record : Type := HistoryRecord {
  hr_update : update;
  hr_previousValue : value
}.

Record subscriber : Type := Subscriber {
  sub_filter : option (value -> update -> bool);
  sub_priority : priority
}.

Record t : Type := Store {
  cfg : config;
  state : list (string * value);
  history : list history_record;
  subscribers : list (string * list (ident * subscriber));
  version : Z;
  (** observable effect of the callbacks: who was called, with what *)
  notified : list (ident * value * update)
}.

Definition new (c : config_in) : t :=
  {| cfg := make_config c; state := []; history := []; subscribers := [];
     version := 0; notified := [] |}.

(** [this.state.get(key)] *)
Definition state_get (key : string) (s : t) : value :=
  match map_get key (state s) with Some v => v | None => undefined end.

Definition trackHistory (u : update) (previousValue : value)
    (cf : config) (h : list history_record) : list history_record :=
  let h' := h ++ [HistoryRecord u previousValue] in
  if exceeds (Z.of_nat (List.length h')) (historySize cf) then drop 1 h' else h'.

Definition notifySubscribers (key : string) (v : value) (u : update)
    (subs : list (string * list (ident * subscriber))) : list (ident * value * update) :=
  match map_get key subs with
  | None => []
  | Some entries =>
      let sorted := sort_desc (fun e => priorityMap (sub_priority (snd e))) entries in
      omap (fun e : ident * subscriber =>
              match sub_filter (snd e) with
              | None => Some (fst e, v, u)
              | Some f => if f v u then Some (fst e, v, u) else None
              end) sorted
  end.

Definition setState (clk : clock) (key : string) (v : value) (o : options)
    (s : t) : ident * t :=
  let updateId := generateId "upd" clk in
  let previousValue := state_get key s in
  let version' := version s + 1 in
  let u := {| upd_id := updateId; upd_key := key; upd_value := v;
              upd_version := version'; upd_timestamp := now clk;
              upd_metadata := or_default truthy (opt_metadata o) (VObj []);
              upd_source := or_default truthy_string (opt_source o) "client" |} in
  (updateId,
   {| cfg := cfg s;
      state := map_set key v (state s);
      history := trackHistory u previousValue (cfg s) (history s);
      subscribers := subscribers s;
      version := version';
      notified := notified s ++ notifySubscribers key v u (subscribers s) |}).

(** [history.filter(update => update.key === key).pop()] *)
Definition getLastUpdate (key : string) (s : t) : option history_record :=
  last (filter (fun h => upd_key (hr_update h) = key) (history s)).

Definition subscribe (clk : clock) (key : string) (f : option (value -> update -> bool))
    (p : option priority) (s : t) : ident * t :=
  let subscriberId := generateId "sub" clk in
  let entries := match map_get key (subscribers s) with Some e => e | None => [] end in
  let sub := Subscriber f (match p with Some q => q | None => Normal end) in
  (subscriberId,
   {| cfg := cfg s; state := state s; history := history s;
      subscribers := map_set key (map_set subscriberId sub entries) (subscribers s);
      version := version s; notified := notified s |}).

Definition unsubscribe (key : string) (sid : ident) (s : t) : bool * t :=
  match map_get key (subscribers s) with
  | None => (false, s)
  | Some entries =>
      (map_has sid entries,
       {| cfg := cfg s; state := state s; history := history s;
          subscribers := map_set key (map_delete sid entries) (subscribers s);
          version := version s; notified := notified s |})
  end.

(** Calls made on one store. *)
Inductive label : Type :=
| SetState (clk : clock) (key : string) (v : value) (o : options)
| Subscribe (clk : clock) (key : string) (f : option (value -> update -> bool))
    (p : option priority)
| Unsubscribe (key : string) (sid : ident).

Definition step (s : t) (l : label) : t :=
  match l with
  | SetState clk key v o => snd (setState clk key v o s)
  | Subscribe clk key f p => snd (subscribe clk key f p s)
  | Unsubscribe key sid => snd (unsubscribe key sid s)
  end.

Definition run (ls : list label) (s : t) : t := foldl step s ls.

Definition is_setState (l : label) : bool :=
  match l with SetState _ _ _ _ => true | _ => false end.

Definition setState_calls (ls : list label) : nat := List.length (List.filter is_setState ls).

Definition history_versions (s : t) : list Z :=
  map (fun h => upd_version (hr_update h)) (history s).

(** The history holds the most recent updates: its versions are the
    consecutive integers that end at the current version. *)
Definition history_inv (s : t) : Prop :=
  (forall b, historySize (cfg s) = Some b -> Z.of_nat (List.length (history s)) <= b) /\
  history_versions s =
    seqZ (version s - Z.of_nat (List.length (history s)) + 1)
         (Z.of_nat (List.length (history s))).

(** *** Reading, batches, merges, teardown *)

(** What getState returns: the raw value, or the value with the store's
    version and the key's last update. *)
Inductive state_view : Type :=
| Plain (v : value)
| WithMetadata (v : value) (storeVersion : Z) (lastUpdate : option history_record).

Definition getState (key : string) (withMetadata : bool) (s : t) : state_view :=
  let v := state_get key s in
  if withMetadata then WithMetadata v (version s) (getLastUpdate key s) else Plain v.

(** One element of the argument of batch, with the clock readings of the
    setState call made for it. *)
Record batch_item : Type := BatchItem {
  bi_clock : clock;
  bi_key : string;
  bi_value : value;
  bi_options : options
}.

Definition batch_step (acc : list (string * ident) * t) (i : batch_item)
    : list (string * ident) * t :=
  let '(updateId, s') := setState (bi_clock i) (bi_key i) (bi_value i) (bi_options i) (snd acc) in
  (map_set (bi_key i) updateId (fst acc), s').

(** batch: [{ batchId, results }] and the store it leaves. *)
Definition batch (clk : clock) (updates : list batch_item) (s : t)
    : ident * list (string * ident) * t :=
  let batchId := generateId "bat" clk in
  let '(results, s') := foldl batch_step ([], s) updates in
  (batchId, results, s').

(** [v.version] for a value that is neither null nor undefined *)
Definition version_of (v : value) : value :=
  match v with
  | VObj o => match map_get "version" o with Some x => x | None => undefined end
  | _ => undefined
  end.

(** Whether a subscriber's filter lets a notification through; no filter
    lets everything through. *)
Definition accepted_by (v : value) (u : update) (e : ident * subscriber) : bool :=
  match sub_filter (snd e) with
  | None => true
  | Some f => f v u
  end.

(** How many of [n] records a history with that bound keeps. *)
Definition kept_of (n : Z) (bound : option Z) : Z :=
  match bound with
  | Some b => Z.min n b
  | None => n
  end.

(** The history is as long as the bound allows. *)
Definition history_full (s : t) : Prop :=
  Z.of_nat (List.length (history s)) = kept_of (version s) (historySize (cfg s)).

Section Merge.
(** Whether two arrays or objects are one and the same; values carry no
    address, so identity is supplied from outside. *)
Variable same_object : value -> value -> bool.

(** [a === b] *)
Definition strict_eq (a b : value) : bool :=
  match a, b with
  | VPrim p, VPrim q => bool_decide (p = q)
  | VPrim _, _ | _, VPrim _ => false
  | _, _ => same_object a b
  end.

(** hasConflict, as the condition of the [if] that calls it *)
Definition hasConflict (current incoming : value) : bool :=
  if negb (truthy current) || negb (truthy incoming) then false
  else truthy (version_of current) && truthy (version_of incoming) &&
       negb (strict_eq (version_of current) (version_of incoming)).

(** A conflict: [{ incoming, current }] *)
Record merge_conflict : Type := MergeConflict {
  mc_incoming : value;
  mc_current : value
}.

Definition applyMergeStrategy (c : merge_conflict) (strategy : string) : value :=
  if decide (strategy = "last-write-wins") then mc_incoming c
  else if decide (strategy = "server-wins") then mc_current c
  else if decide (strategy = "merge-fields")
       then VObj (assign_fields (assign_fields [] (spread_fields (mc_current c)))
                    (spread_fields (mc_incoming c)))
  else mc_incoming c.

(** The loop over [Object.entries(incomingState)]: the two Maps. *)
Definition classify_step (s : t)
    (acc : list (string * merge_conflict) * list (string * value)) (kv : string * value)
    : list (string * merge_conflict) * list (string * value) :=
  let currentValue := state_get (fst kv) s in
  if hasConflict currentValue (snd kv)
  then (map_set (fst kv) (MergeConflict (snd kv) currentValue) (fst acc), snd acc)
  else (fst acc, map_set (fst kv) (snd kv) (snd acc)).

Definition classify (s : t) (incomingState : list (string * value))
    : list (string * merge_conflict) * list (string * value) :=
  foldl (classify_step s) ([], []) incomingState.

(** The setState calls of a merge, in the order they are made: first the
    resolved conflicts, then the plain updates. *)
Definition merge_writes (strategy : string)
    (cu : list (string * merge_conflict) * list (string * value))
    : list (string * value * string) :=
  map (fun kc => (fst kc, applyMergeStrategy (snd kc) strategy, "conflict-resolution")) (fst cu)
  ++ map (fun kv => (fst kv, snd kv, "merge")) (snd cu).

Definition write (clk : nat -> clock) (acc : nat * t) (w : string * value * string)
    : nat * t :=
  (S (fst acc),
   snd (setState (clk (fst acc)) (fst (fst w)) (snd (fst w))
          (Options None (Some (snd w))) (snd acc))).

(** merge.  [clk n] is the clock of the [n]-th setState it makes; the
    answer is [{ conflicts, updates }] and the store. *)
Definition merge (clk : nat -> clock) (incomingState : list (string * value))
    (mergeStrategy : option string) (s : t) : Z * Z * t :=
  let cu := classify s incomingState in
  let strategy := match mergeStrategy with
                  | Some x => x
                  | None => StateManager.mergeStrategy (cfg s)
                  end in
  let s' := snd (foldl (write clk) (O, s) (merge_writes strategy cu)) in
  (Z.of_nat (List.length (fst cu)), Z.of_nat (List.length (snd cu)), s').

(** What the loop of merge has built after a list of entries with
    distinct keys: every entry went to exactly one of the two Maps, under
    its own key, and the Maps hold nothing else. *)
Definition sorted_out (s : t) (l : list (string * value))
    (cu : list (string * merge_conflict) * list (string * value)) : Prop :=
  map fst (fst cu) ++ map fst (snd cu) ≡ₚ map fst l /\
  forall k v, (k, v) ∈ l ->
    if hasConflict (state_get k s) v
    then (k, MergeConflict v (state_get k s)) ∈ fst cu
    else (k, v) ∈ snd cu.

End Merge.

(** destroy: the registries are emptied; the version counter is left. *)
Definition destroy (s : t) : t :=
  {| cfg := cfg s; state := []; history := []; subscribers := [];
     version := version s; notified := notified s |}.

Record statistics : Type := Statistics {
  stateSize : Z;
  historyLength : Z;
  subscriberCount : Z;
  stat_version : Z
}.

Definition getStatistics (s : t) : statistics :=
  {| stateSize := Z.of_nat (List.length (state s));
     historyLength := Z.of_nat (List.length (history s));
     subscriberCount :=
       foldl (fun total subs => total + Z.of_nat (List.length (snd subs))) 0 (subscribers s);
     stat_version := version s |}.

(** A store whose configuration holds other values for the two options
    [enableVersioning] and [autoSync], everything else being the same. *)
Definition with_flags (versioning sync : bool) (s : t) : t :=
  {| cfg := {| historySize := historySize (cfg s);
               mergeStrategy := mergeStrategy (cfg s);
               enableVersioning := versioning;
               autoSync := sync |};
     state := state s; history := history s; subscribers := subscribers s;
     version := version s; notified := notified s |}.

End StateManager.

(** ** SrvraConflictResolver *)

Module ConflictResolver.
Import JS.

(** Constructor input.  Besides the four keys the constructor names, the
    spread copies every other key of the input; the ones that exist in
    the shipped configuration or are read by a method are listed. *)
Record config_in : Type := ConfigIn {
  in_defaultStrategy : option string;
  in_maxRetries : option Z;
  in_enableMergeRules : option bool;
  in_trackHistory : option bool;
  in_maxHistoryLength : option Z;
  in_stringMergeDelimiter : option string;
  in_historySize : option Z
}.

Record config : Type := Config {
  defaultStrategy : string;
  maxRetries : Z;
  enableMergeRules : bool;
  trackHistory : bool;
  (** read by trackResolution; [undefined] unless the caller passed it *)
  maxHistoryLength : option Z;
  stringMergeDelimiter : option string;
  (** a key of DEFAULT_CONFLICT_CONFIG; no method reads it *)
  historySize : option Z
}.

Definition no_config : config_in := ConfigIn None None None None None None None.

(** config.js: DEFAULT_CONFLICT_CONFIG (the keys above) *)
Definition DEFAULT_CONFLICT_CONFIG : config_in :=
  {| in_defaultStrategy := Some "server-wins";
     in_maxRetries := Some 3;
     in_enableMergeRules := Some true;
     in_trackHistory := Some true;
     in_maxHistoryLength := None;
     in_stringMergeDelimiter := None;
     in_historySize := Some 100 |}.

Definition computed_enableMergeRules (c : config_in) : bool :=
  or_default truthy_bool (in_enableMergeRules c) true.
Definition computed_trackHistory (c : config_in) : bool :=
  or_default truthy_bool (in_trackHistory c) true.

Definition make_config (c : config_in) : config :=
  {| defaultStrategy :=
       spread_over (in_defaultStrategy c)
         (or_default truthy_string (in_defaultStrategy c) "server-wins");
     maxRetries := spread_over (in_maxRetries c) (or_default truthy_Z (in_maxRetries c) 3);
     enableMergeRules := spread_over (in_enableMergeRules c) (computed_enableMergeRules c);
     trackHistory := spread_over (in_trackHistory c) (computed_trackHistory c);
     maxHistoryLength := in_maxHistoryLength c;
     stringMergeDelimiter := in_stringMergeDelimiter c;
     historySize := in_historySize c |}.

Record conflict : Type := Conflict {
  serverValue : value;
  clientValue : value;
  serverTimestamp : option Z;
  clientTimestamp : option Z;
  dataType : option string;
  forcedStrategy : option string;
  serverMetadata : value;
  clientMetadata : value;
  metadata : value
}.

(** What a strategy returns: [{ value, source, metadata }] *)
Record result : Type := Result {
  res_value : value;
  res_source : string;
  res_metadata : value
}.

(** The functions held by the two registries: the bound built-in methods,
    or a function registered by the host. *)
Inductive strategy : Type :=
| ServerWins
| ClientWins
| LastWriteWins
| AutoMerge
| CustomStrategy (f : conflict -> outcome result).

Inductive merge_rule : Type :=
| MergeArrays
| MergeObjects
| MergeStrings
| CustomRule (f : value -> value -> conflict -> outcome result).

Record history_entry : Type := HistoryEntry {
  he_timestamp : Z;
  he_strategy : string;
  he_result : result;
  he_conflict : conflict
}.

Record t : Type := Resolver {
  cfg : config;
  conflictHistory : list history_entry;
  mergeRules : list (string * merge_rule);
  customStrategies : list (string * strategy)
}.

Definition registerDefaultStrategies (r : t) : t :=
  {| cfg := cfg r; conflictHistory := conflictHistory r; mergeRules := mergeRules r;
     customStrategies :=
       map_set "auto-merge" AutoMerge
         (map_set "last-write-wins" LastWriteWins
            (map_set "client-wins" ClientWins
               (map_set "server-wins" ServerWins (customStrategies r)))) |}.

Definition registerDefaultMergeRules (r : t) : t :=
  {| cfg := cfg r; conflictHistory := conflictHistory r;
     mergeRules :=
       map_set "string" MergeStrings
         (map_set "object" MergeObjects
            (map_set "array" MergeArrays (mergeRules r)));
     customStrategies := customStrategies r |}.

Definition setupMergeRules (r : t) : t :=
  if enableMergeRules (cfg r) then registerDefaultMergeRules r else r.

Definition init (r : t) : t := setupMergeRules (registerDefaultStrategies r).

Definition new (c : config_in) : t :=
  init {| cfg := make_config c; conflictHistory := []; mergeRules := [];
          customStrategies := [] |}.

Definition registerCustomStrategy (name : string) (f : conflict -> outcome result)
    (r : t) : t :=
  {| cfg := cfg r; conflictHistory := conflictHistory r; mergeRules := mergeRules r;
     customStrategies := map_set name (CustomStrategy f) (customStrategies r) |}.

Definition registerMergeRule (dt : string) (f : value -> value -> conflict -> outcome result)
    (r : t) : t :=
  {| cfg := cfg r; conflictHistory := conflictHistory r;
     mergeRules := map_set dt (CustomRule f) (mergeRules r);
     customStrategies := customStrategies r |}.

Definition determineStrategy (c : conflict) (r : t) : string :=
  let byDataType :=
    match dataType c with
    | Some dt => if truthy_string dt && map_has dt (mergeRules r)
                 then "auto-merge" else defaultStrategy (cfg r)
    | None => defaultStrategy (cfg r)
    end in
  match forcedStrategy c with
  | Some f => if truthy_string f then f else byDataType
  | None => byDataType
  end.

Definition serverWinsStrategy (c : conflict) : result :=
  {| res_value := serverValue c; res_source := "server"; res_metadata := serverMetadata c |}.

Definition clientWinsStrategy (c : conflict) : result :=
  {| res_value := clientValue c; res_source := "client"; res_metadata := clientMetadata c |}.

Definition lastWriteWinsStrategy (c : conflict) : result :=
  let serverTime := or_default truthy_Z (serverTimestamp c) 0 in
  let clientTime := or_default truthy_Z (clientTimestamp c) 0 in
  if serverTime >=? clientTime then serverWinsStrategy c else clientWinsStrategy c.

(** The merged array itself, for any element type. *)
Definition merged_array {A : Type} `{EqDecision A} (serverArray clientArray : list A)
    : list A :=
  set_elements (serverArray ++ clientArray).

Definition mergeArrays (serverArray clientArray : value) (c : conflict) : outcome result :=
  bind (iterate serverArray) (fun s =>
  bind (iterate clientArray) (fun k =>
  let merged := merged_array s k in
  bind (get_length serverArray) (fun ls =>
  bind (get_length clientArray) (fun lk =>
  Return {| res_value := VArr merged;
            res_source := "merged";
            res_metadata :=
              VObj [("originalLength", VObj [("server", ls); ("client", lk)]);
                    ("mergedLength", num (Z.of_nat (List.length merged)))] |})))).

Definition mergeObjects (now : Z) (serverObj clientObj : value) (c : conflict)
    : outcome result :=
  let merged :=
    map_set "_metadata"
      (VObj [("mergedAt", num now); ("sources", VArr [PStr "server"; PStr "client"])])
      (assign_fields (assign_fields [] (spread_fields serverObj)) (spread_fields clientObj)) in
  Return {| res_value := VObj merged;
            res_source := "merged";
            res_metadata := VObj [("fields", VArr (map (fun kv => PStr (fst kv)) merged))] |}.

Definition newline : string := String "010"%char EmptyString.

Definition mergeStrings (cf : config) (serverString clientString : value) (c : conflict)
    : outcome result :=
  let delimiter := or_default truthy_string (stringMergeDelimiter cf) newline in
  let joined := String.concat delimiter [join_item serverString; join_item clientString] in
  bind (get_length serverString) (fun ls =>
  bind (get_length clientString) (fun lk =>
  Return {| res_value := str joined;
            res_source := "merged";
            res_metadata := VObj [("lengths", VObj [("server", ls); ("client", lk)])] |})).

Definition run_merge_rule (now : Z) (r : t) (rule : merge_rule)
    (sv cv : value) (c : conflict) : outcome result :=
  match rule with
  | MergeArrays => mergeArrays sv cv c
  | MergeObjects => mergeObjects now sv cv c
  | MergeStrings => mergeStrings (cfg r) sv cv c
  | CustomRule f => f sv cv c
  end.

(** [this.mergeRules.get(conflict.dataType)]; calling the [undefined] it
    returns for an unregistered data type is a TypeError. *)
Definition autoMergeStrategy (now : Z) (r : t) (c : conflict) : outcome result :=
  match dataType c with
  | None => Throw (TypeError "mergeRule is not a function")
  | Some dt =>
      match map_get dt (mergeRules r) with
      | None => Throw (TypeError "mergeRule is not a function")
      | Some rule => run_merge_rule now r rule (serverValue c) (clientValue c) c
      end
  end.

Definition run_strategy (now : Z) (r : t) (s : strategy) (c : conflict) : outcome result :=
  match s with
  | ServerWins => Return (serverWinsStrategy c)
  | ClientWins => Return (clientWinsStrategy c)
  | LastWriteWins => Return (lastWriteWinsStrategy c)
  | AutoMerge => autoMergeStrategy now r c
  | CustomStrategy f => f c
  end.

(** The [resolution] object of resolveConflict. *)
Record resolution : Type := Resolution {
  originalConflict : conflict;
  timestamp : Z;
  strategy_name : string;
  attempts : Z
}.

Definition applyStrategy (now : Z) (rs : resolution) (r : t) : outcome result :=
  match map_get (strategy_name rs) (customStrategies r) with
  | None => Throw (UnknownStrategy (strategy_name rs))
  | Some s => run_strategy now r s (originalConflict rs)
  end.

Definition trackResolution (rs : resolution) (res : result) (r : t) : t :=
  if negb (trackHistory (cfg r)) then r else
  let h := conflictHistory r ++
           [ {| he_timestamp := timestamp rs; he_strategy := strategy_name rs;
                he_result := res; he_conflict := originalConflict rs |} ] in
  let exceeded :=
    match maxHistoryLength (cfg r) with
    | Some bound => Z.of_nat (List.length h) >? bound
    | None => false          (* [n > undefined] *)
    end in
  {| cfg := cfg r;
     conflictHistory := if exceeded then drop 1 h else h;
     mergeRules := mergeRules r;
     customStrategies := customStrategies r |}.

(** The two [Date.now()] readings of one attempt: the resolution's
    timestamp, and the stamp of mergeObjects. *)
Record attempt_clock : Type := AttemptClock { at_resolve : Z; at_merge : Z }.

(** How a call ended within the recursion budget of the model. *)
Inductive run (A : Type) : Type :=
| Done (o : outcome A)
| OutOfFuel.
Arguments Done {A} o.
Arguments OutOfFuel {A}.

(** handleResolutionError, with the recursive call to resolveConflict
    passed in. *)
Definition handleResolutionError {R : Type}
    (resolveAgain : conflict -> R) (raise : error -> R)
    (rs : resolution) (e : error) (r : t) : R :=
  let attempts' := attempts rs + 1 in
  if attempts' <? maxRetries (cfg r)
  then resolveAgain (originalConflict rs)
  else raise (ResolutionFailed attempts').

(** resolveConflict.  [clk n] gives the clock readings of the [n]-th
    entry into the function; the third component of the answer counts the
    entries made (the attempts run).  The recursion through
    handleResolutionError is not bounded by the source, hence [fuel]. *)
Fixpoint resolveConflict (fuel : nat) (clk : nat -> attempt_clock) (n : nat)
    (c : conflict) (r : t) : run result * t * nat :=
  match fuel with
  | O => (OutOfFuel, r, n)
  | S fuel' =>
      let rs := {| originalConflict := c;
                   timestamp := at_resolve (clk n);
                   strategy_name := determineStrategy c r;
                   attempts := 0 |} in
      match applyStrategy (at_merge (clk n)) rs r with
      | Return res => (Done (Return res), trackResolution rs res r, S n)
      | Throw e =>
          handleResolutionError
            (fun c' => resolveConflict fuel' clk (S n) c' r)
            (fun e' => (Done (Throw e'), r, S n))
            rs e r
      end
  end.

(** The resolver after a sequence of resolveConflict calls (each call
    with the same clock and recursion budget). *)
Definition resolve_all (fuel : nat) (clk : nat -> attempt_clock) (cs : list conflict)
    (r : t) : t :=
  foldl (fun r c => snd (fst (resolveConflict fuel clk 0 c r))) r cs.

(** A conflict that carries nothing but its two values. *)
Definition plain_conflict (sv cv : value) : conflict :=
  {| serverValue := sv; clientValue := cv; serverTimestamp := None;
     clientTimestamp := None; dataType := None; forcedStrategy := None;
     serverMetadata := undefined; clientMetadata := undefined; metadata := undefined |}.

Definition with_forcedStrategy (name : string) (c : conflict) : conflict :=
  {| serverValue := serverValue c; clientValue := clientValue c;
     serverTimestamp := serverTimestamp c; clientTimestamp := clientTimestamp c;
     dataType := dataType c; forcedStrategy := Some name;
     serverMetadata := serverMetadata c; clientMetadata := clientMetadata c;
     metadata := metadata c |}.

(** A resolver of the shipped configuration, whatever its log holds. *)
Definition shipped (h : list history_entry) : t :=
  {| cfg := make_config DEFAULT_CONFLICT_CONFIG;
     conflictHistory := h;
     mergeRules := [("array", MergeArrays); ("object", MergeObjects); ("string", MergeStrings)];
     customStrategies :=
       [("server-wins", ServerWins); ("client-wins", ClientWins);
        ("last-write-wins", LastWriteWins); ("auto-merge", AutoMerge)] |}.

(** *** Reading the log, statistics, teardown *)

(** The argument of getResolutionHistory: [{ strategy, since }] *)
Record history_filter : Type := HistoryFilter {
  hf_strategy : option string;
  hf_since : option Z
}.

Definition no_filter : history_filter := HistoryFilter None None.

Definition passes (f : history_filter) (h : history_entry) : bool :=
  let wrongStrategy :=
    match hf_strategy f with
    | Some name => truthy_string name && negb (bool_decide (he_strategy h = name))
    | None => false
    end in
  let tooOld :=
    match hf_since f with
    | Some since => truthy_Z since && (he_timestamp h <? since)
    | None => false
    end in
  if wrongStrategy then false else if tooOld then false else true.

Definition getResolutionHistory (f : history_filter) (r : t) : list history_entry :=
  List.filter (passes f) (conflictHistory r).

(** What an entry of the counts object holds: a number, or the text that
    [+ 1] builds from something that is not a number. *)
Inductive count : Type :=
| Times (n : Z)
| Text (s : string).

Definition truthy_count (c : count) : bool :=
  match c with
  | Times n => truthy_Z n
  | Text s => truthy_string s
  end.

(** [c + 1] *)
Definition plus_one (c : count) : count :=
  match c with
  | Times n => Times (n + 1)
  | Text s => Text (String.append s "1")
  end.

(** The methods that an object written [{}] inherits from
    Object.prototype.  (Its one other member is the accessor
    [__proto__].) *)
Definition Object_prototype_methods : list string :=
  ["constructor"; "hasOwnProperty"; "isPrototypeOf"; "propertyIsEnumerable";
   "toLocaleString"; "toString"; "valueOf";
   "__defineGetter__"; "__defineSetter__"; "__lookupGetter__"; "__lookupSetter__"].

Section StrategyCounts.
(** The text an engine prints for the built-in function of a name; the
    language leaves it to the engine. *)
Variable function_text : string -> string.

(** [counts[strategy] = (counts[strategy] || 0) + 1] on an accumulator
    that starts as [{}].  A read of a name that is no own key goes to
    Object.prototype: for [__proto__] the getter answers the prototype
    object, which is truthy, and the setter then ignores the text that
    [+ 1] made of it, so nothing is stored; for a method name the read
    answers the function, and its text with 1 appended is stored as an
    own key; for any other name it answers [undefined]. *)
Definition count_strategy (counts : list (string * count)) (h : history_entry)
    : list (string * count) :=
  let name := he_strategy h in
  if decide (name = "__proto__") then counts else
  let next :=
    match map_get name counts with
    | Some c => plus_one (if truthy_count c then c else Times 0)
    | None =>
        if decide (name ∈ Object_prototype_methods)
        then Text (String.append (function_text name) "1")
        else plus_one (Times 0)
    end in
  map_set name next counts.

Definition getStrategyCounts (r : t) : list (string * count) :=
  foldl count_strategy [] (conflictHistory r).

Record statistics : Type := Statistics {
  totalResolutions : Z;
  strategyCounts : list (string * count);
  stat_customStrategies : Z;
  stat_mergeRules : Z
}.

Definition getStatistics (r : t) : statistics :=
  {| totalResolutions := Z.of_nat (List.length (conflictHistory r));
     strategyCounts := getStrategyCounts r;
     stat_customStrategies := Z.of_nat (List.length (customStrategies r));
     stat_mergeRules := Z.of_nat (List.length (mergeRules r)) |}.

(** What the counts object holds for a name that is a method of
    Object.prototype: nothing, or a text that is not empty. *)
Definition no_number (entry : option count) : Prop :=
  match entry with
  | Some (Times _) => False
  | Some (Text s) => truthy_string s = true
  | None => True
  end.

End StrategyCounts.

Definition destroy (r : t) : t :=
  {| cfg := cfg r; conflictHistory := []; mergeRules := []; customStrategies := [] |}.

End ConflictResolver.

(** ** SrvraEventBus

    The bus runs on one thread; an [async] method runs until its first
    [await] and is resumed later by the event loop.  A suspended
    activation is a [task]; the labels of [step] are the calls made by the
    host and the resumptions chosen by the event loop. *)

Module EventBus.
Import JS.

(** Constructor input ([priorityLevels] is stored and never read). *)
Record config_in : Type := ConfigIn {
  in_maxListeners : option Z;
  in_bufferSize : option Z;
  in_deliveryTimeout : option Z;
  in_persistence : option bool;
  in_backpressureThreshold : option Z
}.

Record config : Type := Config {
  maxListeners : Z;
  bufferSize : Z;
  deliveryTimeout : Z;
  persistence : bool;
  backpressureThreshold : Z
}.

Definition no_config : config_in := ConfigIn None None None None None.

Definition make_config (c : config_in) : config :=
  {| maxListeners :=
       spread_over (in_maxListeners c) (or_default truthy_Z (in_maxListeners c) 100);
     bufferSize := spread_over (in_bufferSize c) (or_default truthy_Z (in_bufferSize c) 1000);
     deliveryTimeout :=
       spread_over (in_deliveryTimeout c) (or_default truthy_Z (in_deliveryTimeout c) 5000);
     persistence :=
       spread_over (in_persistence c) (or_default truthy_bool (in_persistence c) false);
     backpressureThreshold :=
       spread_over (in_backpressureThreshold c)
         (or_default truthy_Z (in_backpressureThreshold c) 100) |}.

(** A listener object.  The callback is host code, known by its identity. *)
Record listener : Type := Listener {
  l_id : ident;
  l_callback : nat;
  l_priority : priority;
  l_filter : option (value -> bool);
  l_backpressure : bool;
  l_pending : Z
}.

Definition with_pending (p : Z) (l : listener) : listener :=
  {| l_id := l_id l; l_callback := l_callback l; l_priority := l_priority l;
     l_filter := l_filter l; l_backpressure := l_backpressure l; l_pending := p |}.

Record sub_options : Type := SubOptions {
  so_priority : option priority;
  so_filter : option (value -> bool);
  so_backpressure : option bool
}.

Record pub_options : Type := PubOptions {
  po_priority : option priority;
  po_metadata : value;
  po_batchId : value
}.

Definition no_pub_options : pub_options := PubOptions None undefined undefined.

Record event : Type := Event {
  e_id : ident;
  e_name : string;
  e_data : value;
  e_timestamp : Z;
  e_priority : priority;
  e_metadata : value
}.

(** A suspended activation: publish awaiting the event store, a
    notifyListener waiting for capacity, a notifyListener awaiting the
    callback it invoked.  [Finished] marks a slot whose activation ended. *)
Inductive task : Type :=
| Saving (e : event)
| Waiting (a : nat) (e : event)
| Running (a : nat) (e : event)
| Finished.

(** Listener objects live in [objects] and are known by their address;
    [listeners] maps an event name to its Set of listeners in insertion
    order.  [invocations] and [skipped] record what happened to each
    delivery: the listener as it was when its callback was invoked, or
    the listener whose filter rejected the payload. *)
Record t : Type := Bus {
  cfg : config;
  objects : list listener;
  listeners : list (string * list nat);
  eventBuffer : list (string * list event);
  storage : list (ident * event);
  published : Z;
  tasks : list task;
  invocations : list (nat * listener * event);
  skipped : list (nat * event)
}.

Definition new (c : config_in) : t :=
  {| cfg := make_config c; objects := []; listeners := []; eventBuffer := [];
     storage := []; published := 0; tasks := []; invocations := []; skipped := [] |}.

Definition set_objects (o : list listener) (b : t) : t :=
  {| cfg := cfg b; objects := o; listeners := listeners b; eventBuffer := eventBuffer b;
     storage := storage b; published := published b; tasks := tasks b;
     invocations := invocations b; skipped := skipped b |}.

Definition set_listeners (ls : list (string * list nat)) (b : t) : t :=
  {| cfg := cfg b; objects := objects b; listeners := ls; eventBuffer := eventBuffer b;
     storage := storage b; published := published b; tasks := tasks b;
     invocations := invocations b; skipped := skipped b |}.

Definition set_tasks (ts : list task) (b : t) : t :=
  {| cfg := cfg b; objects := objects b; listeners := listeners b;
     eventBuffer := eventBuffer b; storage := storage b; published := published b;
     tasks := ts; invocations := invocations b; skipped := skipped b |}.

Definition add_invocation (i : nat * listener * event) (b : t) : t :=
  {| cfg := cfg b; objects := objects b; listeners := listeners b;
     eventBuffer := eventBuffer b; storage := storage b; published := published b;
     tasks := tasks b; invocations := invocations b ++ [i]; skipped := skipped b |}.

Definition add_skipped (i : nat * event) (b : t) : t :=
  {| cfg := cfg b; objects := objects b; listeners := listeners b;
     eventBuffer := eventBuffer b; storage := storage b; published := published b;
     tasks := tasks b; invocations := invocations b; skipped := skipped b ++ [i] |}.

Definition resolveEventPattern (pattern : string) (b : t) : list string :=
  if decide (pattern = "*") then map fst (listeners b) else [pattern].

Definition subscribe_one (lid : ident) (callback : nat) (o : sub_options)
    (b : t) (eventName : string) : t :=
  let current := match map_get eventName (listeners b) with Some s => s | None => [] end in
  let l := {| l_id := lid; l_callback := callback;
              l_priority := match so_priority o with Some p => p | None => Normal end;
              l_filter := so_filter o;
              l_backpressure := or_default truthy_bool (so_backpressure o) false;
              l_pending := 0 |} in
  let a := List.length (objects b) in
  set_listeners (map_set eventName (current ++ [a]) (listeners b))
    (set_objects (objects b ++ [l]) b).

Definition subscribe (clk : clock) (pattern : string) (callback : nat) (o : sub_options)
    (b : t) : ident * t :=
  let eventNames := resolveEventPattern pattern b in
  let listenerId := generateId "lst" clk in
  (listenerId, foldl (subscribe_one listenerId callback o) b eventNames).

Definition has_id (b : t) (lid : ident) (a : nat) : bool :=
  match objects b !! a with
  | Some l => bool_decide (l_id l = lid)
  | None => false
  end.

Definition unsubscribe (eventName : string) (lid : ident) (b : t) : bool * t :=
  match map_get eventName (listeners b) with
  | None => (false, b)
  | Some set =>
      match List.find (has_id b lid) set with
      | Some a =>
          let set' := List.filter (fun x => negb (Nat.eqb x a)) set in
          (true,
           set_listeners
             (match set' with
              | [] => map_delete eventName (listeners b)
              | _ => map_set eventName set' (listeners b)
              end) b)
      | None => (false, b)
      end
  end.

Definition bufferEvent (e : event) (b : t) : t :=
  let buffer := match map_get (e_name e) (eventBuffer b) with Some l => l | None => [] end in
  let buffer' := buffer ++ [e] in
  let buffer'' :=
    if Z.of_nat (List.length buffer') >? bufferSize (cfg b) then drop 1 buffer' else buffer' in
  {| cfg := cfg b; objects := objects b; listeners := listeners b;
     eventBuffer := map_set (e_name e) buffer'' (eventBuffer b);
     storage := storage b; published := published b + 1; tasks := tasks b;
     invocations := invocations b; skipped := skipped b |}.

(** The part of notifyListener after the capacity check: the filter, then
    the call of the callback, whose completion is awaited. *)
Definition proceed (a : nat) (e : event) (b : t) : t :=
  match objects b !! a with
  | None => b
  | Some l =>
      let rejected :=
        match l_filter l with
        | Some f => negb (f (e_data e))
        | None => false
        end in
      if rejected then add_skipped (a, e) b
      else set_tasks (tasks b ++ [Running a e]) (add_invocation (a, l, e) b)
  end.

(** notifyListener, up to its first suspension. *)
Definition notifyListener (e : event) (b : t) (a : nat) : t :=
  match objects b !! a with
  | None => b
  | Some l =>
      if l_backpressure l then
        let l' := with_pending (l_pending l + 1) l in
        let b' := set_objects (<[a := l']> (objects b)) b in
        if l_pending l' >? backpressureThreshold (cfg b)
        then set_tasks (tasks b' ++ [Waiting a e]) b'
        else proceed a e b'
      else proceed a e b
  end.

Definition priority_of (b : t) (a : nat) : Z :=
  match objects b !! a with
  | Some l => priorityMap (l_priority l)
  | None => 0
  end.

(** deliverEvent: the listeners of the event's name, sorted by priority,
    are notified in that order.  (The race of the deliveries against the
    delivery timeout only feeds the delivered and failed counters.) *)
Definition deliverEvent (e : event) (b : t) : t :=
  let set := match map_get (e_name e) (listeners b) with Some s => s | None => [] end in
  foldl (notifyListener e) b (sort_desc (priority_of b) set).

Definition make_event (clk : clock) (eventName : string) (data : value)
    (o : pub_options) : event :=
  {| e_id := generateId "evt" clk;
     e_name := eventName;
     e_data := data;
     e_timestamp := now clk;
     e_priority := match po_priority o with Some p => p | None => Normal end;
     e_metadata := VObj (map_set "batchId" (po_batchId o) (spread_fields (po_metadata o))) |}.

Definition publish (clk : clock) (eventName : string) (data : value) (o : pub_options)
    (b : t) : t :=
  let e := make_event clk eventName data o in
  if persistence (cfg b) then
    set_tasks (tasks b ++ [Saving e])
      {| cfg := cfg b; objects := objects b; listeners := listeners b;
         eventBuffer := eventBuffer b; storage := map_set (e_id e) e (storage b);
         published := published b; tasks := tasks b;
         invocations := invocations b; skipped := skipped b |}
  else deliverEvent e (bufferEvent e b).

(** The event loop resumes the activation in slot [i]:
    - publish continues after the event was saved;
    - the timer of waitForCapacity fires: the wait ends if the listener
      has capacity, otherwise the timer is set again;
    - the callback's promise settles (either way): the [finally] block
      runs. *)
Definition resume (i : nat) (b : t) : t :=
  match tasks b !! i with
  | Some (Saving e) =>
      deliverEvent e (bufferEvent e (set_tasks (<[i := Finished]> (tasks b)) b))
  | Some (Waiting a e) =>
      match objects b !! a with
      | Some l =>
          if l_pending l <=? backpressureThreshold (cfg b)
          then proceed a e (set_tasks (<[i := Finished]> (tasks b)) b)
          else b
      | None => b
      end
  | Some (Running a e) =>
      let b' := set_tasks (<[i := Finished]> (tasks b)) b in
      match objects b !! a with
      | Some l =>
          if l_backpressure l
          then set_objects (<[a := with_pending (l_pending l - 1) l]> (objects b')) b'
          else b'
      | None => b'
      end
  | Some Finished | None => b
  end.

Inductive label : Type :=
| Subscribe (clk : clock) (pattern : string) (callback : nat) (o : sub_options)
| Unsubscribe (eventName : string) (lid : ident)
| Publish (clk : clock) (eventName : string) (data : value) (o : pub_options)
| Resume (i : nat).

Definition step (b : t) (l : label) : t :=
  match l with
  | Subscribe clk pattern callback o => snd (subscribe clk pattern callback o b)
  | Unsubscribe eventName lid => snd (unsubscribe eventName lid b)
  | Publish clk eventName data o => publish clk eventName data o b
  | Resume i => resume i b
  end.

Definition run (ls : list label) (b : t) : t := foldl step b ls.

(** Activations of listener [a] that hold one unit of its pending count. *)
Definition holds (a : nat) (tk : task) : bool :=
  match tk with
  | Waiting a' _ | Running a' _ => Nat.eqb a' a
  | _ => false
  end.

Definition in_flight (a : nat) (b : t) : nat :=
  List.length (List.filter (holds a) (tasks b)).

Definition rejected (a : nat) (b : t) : nat :=
  List.length (List.filter (fun x => Nat.eqb (fst x) a) (skipped b)).



(** A backpressure listener whose filter rejects everything, and one
    publish. *)
Definition picky_listener_run : list label :=
  [Subscribe (Clock 1 "n") "tick" 7%nat
     (SubOptions None (Some (fun _ : value => false)) (Some true));
   Publish (Clock 2 "p") "tick" (num 1) no_pub_options].



Definition total (a : nat) (b : t) : nat := (in_flight a b + rejected a b)%nat.

(** The pending count of a backpressure listener is the number of its
    deliveries that wait or run, plus the number of its deliveries that
    its filter rejected. *)
Definition accounted (b : t) (a : nat) : Prop :=
  match objects b !! a with
  | Some l => l_backpressure l = true -> l_pending l = Z.of_nat (total a b)
  | None => total a b = 0%nat
  end.

(** Later states keep the listener objects, their flags and filters, and
    every recorded rejection. *)
Definition extends (a : nat) (b b' : t) : Prop :=
  (rejected a b <= rejected a b')%nat /\
  forall l, objects b !! a = Some l ->
    exists l', objects b' !! a = Some l' /\
               l_backpressure l' = l_backpressure l /\ l_filter l' = l_filter l.

(** *** Event history, replay, teardown *)

Definition getEventHistory (eventName : string) (b : t) : list event :=
  match map_get eventName (eventBuffer b) with
  | Some buffer => buffer
  | None => []
  end.

(** One element of the argument of batchPublish: [{ name, data, options }] *)
Record publish_request : Type := PublishRequest {
  pr_name : string;
  pr_data : value;
  pr_options : pub_options
}.

Definition batch_publish_step (clks : nat -> clock) (batchId : value)
    (acc : nat * t) (q : publish_request) : nat * t :=
  (S (fst acc),
   publish (clks (fst acc)) (pr_name q) (pr_data q)
     {| po_priority := po_priority (pr_options q);
        po_metadata := po_metadata (pr_options q);
        po_batchId := batchId |}
     (snd acc)).

(** batchPublish: the publish calls, made in order under one batch id
    [`batch_${Date.now()}`]; [clks n] is the clock of the [n]-th call.
    (What follows their completion only feeds the batched counter and the
    returned summary.) *)
Definition batchPublish (clk : clock) (clks : nat -> clock)
    (events : list publish_request) (b : t) : t :=
  let batchId := str ("batch_" +:+ pretty (now clk)) in
  snd (foldl (batch_publish_step clks batchId) (O, b) events).

(** The request replayEvents builds from a buffered event. *)
Definition replay_request (e : event) : publish_request :=
  {| pr_name := e_name e;
     pr_data := e_data e;
     pr_options :=
       {| po_priority := Some (e_priority e);
          po_metadata :=
            VObj (map_set "replayed" (VPrim (PBool true)) (spread_fields (e_metadata e)));
          po_batchId := undefined |} |}.

Definition replayEvents (clk : clock) (clks : nat -> clock)
    (eventName : string) (fromTimestamp : Z) (b : t) : t :=
  let events :=
    map replay_request
      (List.filter (fun e => e_timestamp e >=? fromTimestamp) (getEventHistory eventName b)) in
  batchPublish clk clks events b.

(** destroy empties the listener registry, the buffers and the event
    store.  Suspended activations are not reached by it. *)
Definition destroy (b : t) : t :=
  {| cfg := cfg b; objects := objects b; listeners := []; eventBuffer := [];
     storage := []; published := published b; tasks := tasks b;
     invocations := invocations b; skipped := skipped b |}.

(** The buffers hold, under each name, events of that name, and no more
    of them than [bufferSize]. *)
Definition buffers_ok (b : t) : Prop :=
  forall name buffer, map_get name (eventBuffer b) = Some buffer ->
    Forall (fun e => e_name e = name) buffer /\
    Z.of_nat (List.length buffer) <= bufferSize (cfg b).

(** A replayed copy of a buffered event. *)
Definition replay_of (e e' : event) : Prop :=
  e_name e' = e_name e /\ e_data e' = e_data e /\ e_priority e' = e_priority e /\
  get_prop "replayed" (e_metadata e') = Return (VPrim (PBool true)).

Definition listener_rank (i : nat * listener * event) : Z :=
  priorityMap (l_priority (snd (fst i))).

End EventBus.

(** ** SrvraDataSync *)

Module DataSync.
Import JS.

Record config_in : Type := ConfigIn {
  in_syncInterval : option Z;
  in_retryAttempts : option Z;
  in_batchSize : option Z;
  in_enableDeltaUpdates : option bool
}.

Record config : Type := Config {
  syncInterval : Z;
  retryAttempts : Z;
  batchSize : Z;
  enableDeltaUpdates : bool
}.

Definition no_config : config_in := ConfigIn None None None None.

Definition computed_enableDeltaUpdates (c : config_in) : bool :=
  or_default truthy_bool (in_enableDeltaUpdates c) true.

Definition make_config (c : config_in) : config :=
  {| syncInterval :=
       spread_over (in_syncInterval c) (or_default truthy_Z (in_syncInterval c) 30000);
     retryAttempts :=
       spread_over (in_retryAttempts c) (or_default truthy_Z (in_retryAttempts c) 3);
     batchSize := spread_over (in_batchSize c) (or_default truthy_Z (in_batchSize c) 100);
     enableDeltaUpdates :=
       spread_over (in_enableDeltaUpdates c) (computed_enableDeltaUpdates c) |}.

(** An entry of collectChanges, also the shape of a sync-queue item. *)
Record change : Type := Change {
  ch_key : string;
  ch_value : value;
  ch_version : Z;
  ch_timestamp : Z
}.

(** A conflict as the transport reports it. *)
Record remote_conflict : Type := RemoteConflict {
  rc_key : string;
  rc_serverValue : value;
  rc_clientValue : value;
  rc_serverTimestamp : option Z;
  rc_clientTimestamp : option Z;
  rc_version : value
}.

Record resolved : Type := Resolved {
  original : remote_conflict;
  resolution : ConflictResolver.result
}.

(** What processBatchResponse hands back for one batch. *)
Record batch_result : Type := BatchResult {
  br_success : list value;
  br_conflicts : list remote_conflict;
  br_errors : list value
}.

Inductive error_item : Type :=
| Reported (v : value)
| Caught (e : error).

Record results : Type := Results {
  success : list value;
  conflicts : list resolved;
  errors : list error_item
}.

(** The [changes] field of a sync-complete payload: sync() sends the
    number of changes, handleSyncComplete reads it as an array. *)
Inductive changes_field : Type :=
| ChangesCount (n : Z)
| ChangesList (l : list change).

Record stats : Type := Stats {
  lastSuccessfulSync : Z;
  changesProcessed : changes_field;
  conflictsResolved : Z
}.

Inductive payload : Type :=
| SyncComplete (timestamp : Z) (changes : changes_field) (conflicts : list resolved)
| SyncError (e : error) (timestamp : Z)
| ConflictResolved (key : string) (r : ConflictResolver.result) (timestamp : Z)
| SyncSuccess (timestamp duration : Z) (st : stats) (nextSyncScheduled : Z).

(** Members that the class calls and does not define; an instance has
    them only if the host installs them. *)
Record host : Type := Host {
  transport_defined : bool;       (* sendToServer and processBatchResponse *)
  handleSyncResults : option (results -> outcome unit);
  onSyncComplete : option (stats -> outcome unit)
}.

Definition as_shipped : host := Host false None None.

(** A sync() activation suspended at [await this.processBatches(...)]:
    the batch whose sendBatch is awaited, the batches still to send, the
    results so far. *)
Record cycle : Type := Cycle {
  cy_changes : list change;
  cy_inflight : option (ident * list change);
  cy_remaining : list (list change);
  cy_results : results
}.

Record t : Type := Sync {
  cfg : config;
  members : host;
  stateManager : StateManager.t;
  conflictResolver : ConflictResolver.t;
  (** events published on the orchestrator's bus, oldest first *)
  published : list (string * payload);
  syncQueue : list change;
  pendingSync : list (ident * list change);
  lastSyncTimestamp : option Z;
  syncStats : option stats;
  isSyncing : bool;
  syncAttempts : option Z;
  cycles : list cycle
}.

Definition new (c : config_in) (h : host) : t :=
  let cf := make_config c in
  {| cfg := cf; members := h;
     stateManager := StateManager.new StateManager.no_config;
     conflictResolver :=
       ConflictResolver.new
         {| ConflictResolver.in_defaultStrategy := None;
            ConflictResolver.in_maxRetries := Some (retryAttempts cf);
            ConflictResolver.in_enableMergeRules := None;
            ConflictResolver.in_trackHistory := Some true;
            ConflictResolver.in_maxHistoryLength := None;
            ConflictResolver.in_stringMergeDelimiter := None;
            ConflictResolver.in_historySize := None |};
     published := []; syncQueue := []; pendingSync := [];
     lastSyncTimestamp := None; syncStats := None;
     isSyncing := false; syncAttempts := None; cycles := [] |}.

Definition set_stateManager (x : StateManager.t) (s : t) : t :=
  {| cfg := cfg s; members := members s; stateManager := x;
     conflictResolver := conflictResolver s; published := published s;
     syncQueue := syncQueue s; pendingSync := pendingSync s;
     lastSyncTimestamp := lastSyncTimestamp s; syncStats := syncStats s;
     isSyncing := isSyncing s; syncAttempts := syncAttempts s; cycles := cycles s |}.

Definition set_conflictResolver (x : ConflictResolver.t) (s : t) : t :=
  {| cfg := cfg s; members := members s; stateManager := stateManager s;
     conflictResolver := x; published := published s;
     syncQueue := syncQueue s; pendingSync := pendingSync s;
     lastSyncTimestamp := lastSyncTimestamp s; syncStats := syncStats s;
     isSyncing := isSyncing s; syncAttempts := syncAttempts s; cycles := cycles s |}.

Definition set_published (x : list (string * payload)) (s : t) : t :=
  {| cfg := cfg s; members := members s; stateManager := stateManager s;
     conflictResolver := conflictResolver s; published := x;
     syncQueue := syncQueue s; pendingSync := pendingSync s;
     lastSyncTimestamp := lastSyncTimestamp s; syncStats := syncStats s;
     isSyncing := isSyncing s; syncAttempts := syncAttempts s; cycles := cycles s |}.

Definition set_syncQueue (x : list change) (s : t) : t :=
  {| cfg := cfg s; members := members s; stateManager := stateManager s;
     conflictResolver := conflictResolver s; published := published s;
     syncQueue := x; pendingSync := pendingSync s;
     lastSyncTimestamp := lastSyncTimestamp s; syncStats := syncStats s;
     isSyncing := isSyncing s; syncAttempts := syncAttempts s; cycles := cycles s |}.

Definition set_pendingSync (x : list (ident * list change)) (s : t) : t :=
  {| cfg := cfg s; members := members s; stateManager := stateManager s;
     conflictResolver := conflictResolver s; published := published s;
     syncQueue := syncQueue s; pendingSync := x;
     lastSyncTimestamp := lastSyncTimestamp s; syncStats := syncStats s;
     isSyncing := isSyncing s; syncAttempts := syncAttempts s; cycles := cycles s |}.

Definition set_lastSyncTimestamp (x : option Z) (s : t) : t :=
  {| cfg := cfg s; members := members s; stateManager := stateManager s;
     conflictResolver := conflictResolver s; published := published s;
     syncQueue := syncQueue s; pendingSync := pendingSync s;
     lastSyncTimestamp := x; syncStats := syncStats s;
     isSyncing := isSyncing s; syncAttempts := syncAttempts s; cycles := cycles s |}.

Definition set_syncStats (x : option stats) (s : t) : t :=
  {| cfg := cfg s; members := members s; stateManager := stateManager s;
     conflictResolver := conflictResolver s; published := published s;
     syncQueue := syncQueue s; pendingSync := pendingSync s;
     lastSyncTimestamp := lastSyncTimestamp s; syncStats := x;
     isSyncing := isSyncing s; syncAttempts := syncAttempts s; cycles := cycles s |}.

Definition set_isSyncing (x : bool) (s : t) : t :=
  {| cfg := cfg s; members := members s; stateManager := stateManager s;
     conflictResolver := conflictResolver s; published := published s;
     syncQueue := syncQueue s; pendingSync := pendingSync s;
     lastSyncTimestamp := lastSyncTimestamp s; syncStats := syncStats s;
     isSyncing := x; syncAttempts := syncAttempts s; cycles := cycles s |}.

Definition set_syncAttempts (x : option Z) (s : t) : t :=
  {| cfg := cfg s; members := members s; stateManager := stateManager s;
     conflictResolver := conflictResolver s; published := published s;
     syncQueue := syncQueue s; pendingSync := pendingSync s;
     lastSyncTimestamp := lastSyncTimestamp s; syncStats := syncStats s;
     isSyncing := isSyncing s; syncAttempts := x; cycles := cycles s |}.

Definition set_cycles (x : list cycle) (s : t) : t :=
  {| cfg := cfg s; members := members s; stateManager := stateManager s;
     conflictResolver := conflictResolver s; published := published s;
     syncQueue := syncQueue s; pendingSync := pendingSync s;
     lastSyncTimestamp := lastSyncTimestamp s; syncStats := syncStats s;
     isSyncing := isSyncing s; syncAttempts := syncAttempts s; cycles := x |}.

(** *** Methods as state transformers that may throw

    A method body is a function from the object's state to an outcome and
    the state it leaves behind; after a throw that is the state at the
    point of the throw. *)

Definition M (A : Type) : Type := t -> outcome A * t.

Definition ret {A : Type} (a : A) : M A := fun s => (Return a, s).
Definition throw {A : Type} (e : error) : M A := fun s => (Throw e, s).
Definition lift {A : Type} (o : outcome A) : M A := fun s => (o, s).
Definition modify (f : t -> t) : M unit := fun s => (Return tt, f s).
Definition gets {A : Type} (f : t -> A) : M A := fun s => (Return (f s), s).

Definition mbind {A B : Type} (m : M A) (k : A -> M B) : M B :=
  fun s =>
    match m s with
    | (Return a, s') => k a s'
    | (Throw e, s') => (Throw e, s')
    end.

Definition try_catch {A : Type} (m : M A) (handler : error -> M A) : M A :=
  fun s =>
    match m s with
    | (Return a, s') => (Return a, s')
    | (Throw e, s') => handler e s'
    end.

Definition finally {A : Type} (m : M A) (f : t -> t) : M A :=
  fun s => let '(o, s') := m s in (o, f s').

Notation "'do' x <- m ; k" := (mbind m (fun x => k))
  (at level 10, x name, m at level 100, k at level 200).
Notation "m ;; k" := (mbind m (fun _ => k))
  (at level 100, k at level 200, right associativity).

Fixpoint mapM {A B : Type} (f : A -> M B) (l : list A) : M (list B) :=
  match l with
  | [] => ret []
  | x :: l' => do y <- f x; do ys <- mapM f l'; ret (y :: ys)
  end.

(** *** The orchestrator's bus

    The bus is built without configuration, so nothing is persisted, and
    the three listeners of setupEventListeners have neither filter nor
    backpressure: publish runs each callback before it returns, and
    notifyListener catches what the callback throws.  sync-complete is
    the one event that sync() publishes and that has a listener. *)

Definition emit (name : string) (p : payload) : M unit :=
  modify (fun s => set_published (published s ++ [(name, p)]) s).

(** SrvraStateManager defines no setMetadata. *)
Definition stateManager_setMetadata : M unit :=
  throw (TypeError "this.stateManager.setMetadata is not a function").

Definition some_key (l : list change) (k : string) : bool :=
  existsb (fun c => bool_decide (ch_key c = k)) l.

(** [this.syncQueue.filter(item => !data.changes.some(...))]: the
    callback runs once per queued item. *)
Definition filter_queue (changes : changes_field) (queue : list change)
    : outcome (list change) :=
  match changes with
  | ChangesList l => Return (List.filter (fun item => negb (some_key l (ch_key item))) queue)
  | ChangesCount _ =>
      match queue with
      | [] => Return []
      | _ :: _ => Throw (TypeError "data.changes.some is not a function")
      end
  end.

Definition handleSyncComplete (clk : clock) (timestamp : Z) (changes : changes_field)
    (cs : list resolved) : M unit :=
  modify (set_lastSyncTimestamp (Some timestamp)) ;;
  let st := {| lastSuccessfulSync := timestamp;
               changesProcessed := changes;
               conflictsResolved := Z.of_nat (List.length cs) |} in
  modify (set_syncStats (Some st)) ;;
  do queue <- gets syncQueue;
  do queue' <- lift (filter_queue changes queue);
  modify (set_syncQueue queue') ;;
  stateManager_setMetadata ;;
  do h <- gets members;
  match onSyncComplete h with
  | Some f => lift (f st)
  | None => ret tt
  end ;;
  do cf <- gets cfg;
  emit "sync-success" (SyncSuccess timestamp (now clk - timestamp) st (now clk + syncInterval cf)) ;;
  modify (set_isSyncing false) ;;
  modify (set_syncAttempts (Some 0)).

(** [this.eventBus.publish('sync-complete', data)] *)
Definition publish_sync_complete (clk : clock) (timestamp : Z) (changes : changes_field)
    (cs : list resolved) : M unit :=
  emit "sync-complete" (SyncComplete timestamp changes cs) ;;
  try_catch (handleSyncComplete clk timestamp changes cs) (fun _ => ret tt).

Definition handleSyncError (clk : clock) (e : error) : M unit :=
  emit "sync-error" (SyncError e (now clk)).

(** *** Collecting and batching *)

Definition strict_eq_num (n : Z) (v : value) : bool :=
  match v with
  | VPrim (PNum m) => n =? m
  | _ => false
  end.

Definition hasChanged (key : string) (v : value) (sm : StateManager.t) : outcome bool :=
  match StateManager.getLastUpdate key sm with
  | None => Return true
  | Some lastSync =>
      bind (get_prop "version" v) (fun x =>
      Return (negb (strict_eq_num
                      (StateManager.upd_version (StateManager.hr_update lastSync)) x)))
  end.

Fixpoint collect (clk : clock) (sm : StateManager.t) (entries : list (string * value))
    : outcome (list change) :=
  match entries with
  | [] => Return []
  | (key, v) :: rest =>
      bind (hasChanged key v sm) (fun changed =>
      bind (collect clk sm rest) (fun tl =>
      Return (if changed
              then {| ch_key := key; ch_value := v;
                      ch_version := StateManager.version sm;
                      ch_timestamp := now clk |} :: tl
              else tl)))
  end.

Definition collectChanges (clk : clock) : M (list change) :=
  do sm <- gets stateManager;
  lift (collect clk sm (StateManager.state sm)).

Fixpoint slices {A : Type} (fuel size : nat) (l : list A) : list (list A) :=
  match fuel, l with
  | S fuel', _ :: _ => take size l :: slices fuel' size (drop size l)
  | _, _ => []
  end.

(** createBatches.  With a batch size below one and something to send,
    the loop index never passes the length: the loop does not end
    ([None]). *)
Definition createBatches (cf : config) (changes : list change)
    : option (list (list change)) :=
  match changes with
  | [] => Some []
  | _ :: _ =>
      if 0 <? batchSize cf
      then Some (slices (List.length changes) (Z.to_nat (batchSize cf)) changes)
      else None
  end.

(** *** Conflicts of a batch *)

Definition determineDataType (v : value) : string :=
  match v with
  | VArr _ => "array"
  | VObj _ => "object"
  | VPrim p => typeof_prim p
  end.

(** The clock readings of one resumption of the orchestrator, and the
    depth of call stack left for the resolver's recursion. *)
Record env : Type := Env {
  clk : clock;
  resolver_clk : nat -> ConflictResolver.attempt_clock;
  stack : nat
}.

(** [this.conflictResolver.resolveConflict(c)].  The recursion of the
    resolver is unbounded in the source; an engine ends it, when the call
    stack is used up, with a RangeError that no frame of the resolver
    catches. *)
Definition resolveConflict (ev : env) (c : ConflictResolver.conflict)
    : M ConflictResolver.result :=
  fun s =>
    match ConflictResolver.resolveConflict (stack ev) (resolver_clk ev) 0 c
            (conflictResolver s) with
    | (ConflictResolver.Done o, r', _) => (o, set_conflictResolver r' s)
    | (ConflictResolver.OutOfFuel, r', _) =>
        (Throw (RangeError "Maximum call stack size exceeded"), set_conflictResolver r' s)
    end.

Definition stateManager_setState (ev : env) (key : string) (v : value) : M unit :=
  modify (fun s =>
    set_stateManager
      (snd (StateManager.setState (clk ev) key v StateManager.no_options (stateManager s))) s).

Definition applyResolution (ev : env) (key : string) (r : ConflictResolver.result) : M unit :=
  stateManager_setState ev key (ConflictResolver.res_value r) ;;
  if truthy (ConflictResolver.res_metadata r) then stateManager_setMetadata else ret tt.

Definition handleConflict (ev : env) (c : remote_conflict) : M ConflictResolver.result :=
  do r <- resolveConflict ev
            {| ConflictResolver.serverValue := rc_serverValue c;
               ConflictResolver.clientValue := rc_clientValue c;
               ConflictResolver.serverTimestamp := rc_serverTimestamp c;
               ConflictResolver.clientTimestamp := rc_clientTimestamp c;
               ConflictResolver.dataType := Some (determineDataType (rc_serverValue c));
               ConflictResolver.forcedStrategy := None;
               ConflictResolver.serverMetadata := undefined;
               ConflictResolver.clientMetadata := undefined;
               ConflictResolver.metadata :=
                 VObj [("key", str (rc_key c)); ("version", rc_version c)] |};
  applyResolution ev (rc_key c) r ;;
  emit "conflict-resolved" (ConflictResolved (rc_key c) r (now (clk ev))) ;;
  ret r.

Definition handleBatchConflicts (ev : env) (cs : list remote_conflict) : M (list resolved) :=
  mapM (fun c => do r <- handleConflict ev c; ret {| original := c; resolution := r |}) cs.

(** *** The sync cycle *)

(** What the awaited sendBatch settles with: the processed response, or
    the rejection. *)
Inductive reply : Type :=
| Replied (r : batch_result)
| Rejected (e : error).

(** sendBatch up to its [await]: the batch is registered under a fresh id.
    Without a transport the call of [this.sendToServer] throws at once and
    the [finally] block has already removed the batch when the caller is
    suspended. *)
Definition sendBatch_begin (c : clock) (batch : list change) (s : t) : ident * t :=
  let batchId := generateId "batch" c in
  let s' := set_pendingSync (map_set batchId batch (pendingSync s)) s in
  if transport_defined (members s)
  then (batchId, s')
  else (batchId, set_pendingSync (map_delete batchId (pendingSync s')) s').

(** The rest of sendBatch once the transport has answered. *)
Definition sendBatch_end (batchId : ident) (rp : reply) (s : t) : reply * t :=
  if transport_defined (members s)
  then (rp, set_pendingSync (map_delete batchId (pendingSync s)) s)
  else (Rejected (TypeError "this.sendToServer is not a function"), s).

(** One turn of the loop of processBatches after its [await]. *)
Definition absorb (ev : env) (rp : reply) (res : results) (s : t) : results * t :=
  match rp with
  | Rejected e =>
      ({| success := success res; conflicts := conflicts res;
          errors := errors res ++ [Caught e] |}, s)
  | Replied br =>
      match handleBatchConflicts ev (br_conflicts br) s with
      | (Return resolvedConflicts, s') =>
          ({| success := success res ++ br_success br;
              conflicts := conflicts res ++ resolvedConflicts;
              errors := errors res ++ map Reported (br_errors br) |}, s')
      | (Throw e, s') =>
          ({| success := success res; conflicts := conflicts res;
              errors := errors res ++ [Caught e] |}, s')
      end
  end.

Definition call_handleSyncResults (res : results) : M unit :=
  do h <- gets members;
  match handleSyncResults h with
  | Some f => lift (f res)
  | None => throw (TypeError "this.handleSyncResults is not a function")
  end.

(** sync() from the point where processBatches has returned [res]: the
    rest of the [try] block, the [catch] and the [finally]. *)
Definition sync_end (c : clock) (changes : list change) (res : results) : M unit :=
  finally
    (try_catch
       (call_handleSyncResults res ;;
        modify (set_lastSyncTimestamp (Some (now c))) ;;
        publish_sync_complete c (now c)
          (ChangesCount (Z.of_nat (List.length changes))) (conflicts res))
       (handleSyncError c))
    (set_isSyncing false).

Definition empty_results : results := {| success := []; conflicts := []; errors := [] |}.

(** processBatches starts on the next batch, or has none left and returns:
    either way the caller is suspended until a later turn of the event
    loop. *)
Definition next_batch (c : clock) (changes : list change) (batches : list (list change))
    (res : results) (s : t) : cycle * t :=
  match batches with
  | [] =>
      ({| cy_changes := changes; cy_inflight := None; cy_remaining := [];
          cy_results := res |}, s)
  | batch :: rest =>
      let '(batchId, s') := sendBatch_begin c batch s in
      ({| cy_changes := changes; cy_inflight := Some (batchId, batch);
          cy_remaining := rest; cy_results := res |}, s')
  end.

(** A call of sync().  [None]: the call does not return. *)
Definition sync (c : clock) (s : t) : option t :=
  if isSyncing s then Some s else
  let s1 := set_isSyncing true s in
  match collectChanges c s1 with
  | (Throw e, s2) => Some (set_isSyncing false (snd (handleSyncError c e s2)))
  | (Return [], s2) => Some (set_isSyncing false s2)
  | (Return changes, s2) =>
      match createBatches (cfg s2) changes with
      | None => None
      | Some batches =>
          let '(cy, s3) := next_batch c changes batches empty_results s2 in
          Some (set_cycles (cycles s3 ++ [cy]) s3)
      end
  end.

(** The event loop resumes the suspended cycle in slot [i].  If a
    sendBatch is awaited it has settled with [rp]: the batch is absorbed
    and processBatches goes on.  Otherwise processBatches has returned and
    sync() runs to its end. *)
Definition settle (i : nat) (ev : env) (rp : reply) (s : t) : t :=
  match cycles s !! i with
  | None => s
  | Some cy =>
      let s0 := set_cycles (delete i (cycles s)) s in
      match cy_inflight cy with
      | None => snd (sync_end (clk ev) (cy_changes cy) (cy_results cy) s0)
      | Some (batchId, _) =>
          let '(rp', s1) := sendBatch_end batchId rp s0 in
          let '(res, s2) := absorb ev rp' (cy_results cy) s1 in
          let '(cy', s3) := next_batch (clk ev) (cy_changes cy) (cy_remaining cy) res s2 in
          set_cycles (cycles s3 ++ [cy']) s3
      end
  end.

(** What can happen to an orchestrator: a call of sync() (by the host or
    by the interval timer), the resumption of a suspended cycle, a write
    to the state store by the host. *)
Inductive label : Type :=
| CallSync (c : clock)
| Settle (i : nat) (ev : env) (rp : reply)
| HostSetState (c : clock) (key : string) (v : value).

Definition step (l : label) (s : t) : option t :=
  match l with
  | CallSync c => sync c s
  | Settle i ev rp => Some (settle i ev rp s)
  | HostSetState c key v =>
      Some (set_stateManager
              (snd (StateManager.setState c key v StateManager.no_options (stateManager s))) s)
  end.

Fixpoint run (ls : list label) (s : t) : option t :=
  match ls with
  | [] => Some s
  | l :: ls' =>
      match step l s with
      | Some s' => run ls' s'
      | None => None
      end
  end.

Definition events_named (name : string) (s : t) : list payload :=
  map snd (List.filter (fun e => bool_decide (fst e = name)) (published s)).

(** The busy flag and the suspended cycles. *)
Definition guard (s : t) : bool * list cycle := (isSyncing s, cycles s).

(** The flag is set exactly while one cycle is suspended. *)
Definition guard_inv (s : t) : Prop :=
  (isSyncing s = false /\ cycles s = []) \/
  (isSyncing s = true /\ exists cy, cycles s = [cy]).

(** A host that installs a transport and a handleSyncResults that
    returns; a store with one key written; a sync queue that holds the
    change to that key.  The run: the key is written, sync() is called,
    the transport accepts the one batch, the cycle runs to its end. *)
Definition installed : host := Host true (Some (fun _ => Return tt)) None.

Definition queued_x : change :=
  {| ch_key := "x"; ch_value := num 1; ch_version := 1; ch_timestamp := 10 |}.

Definition quiet_env (time : Z) : env :=
  {| clk := Clock time "r";
     resolver_clk := fun _ => ConflictResolver.AttemptClock time time;
     stack := 1000 |}.

Definition one_change_start (h : host) : t := set_syncQueue [queued_x] (new no_config h).

Definition one_change_run : list label :=
  [HostSetState (Clock 10 "a") "x" (num 1);
   CallSync (Clock 20 "b");
   Settle 0 (quiet_env 30) (Replied (BatchResult [str "x"] [] []));
   Settle 0 (quiet_env 40) (Replied (BatchResult [] [] []))].

(** A second call of sync() while the first cycle is suspended. *)
Definition busy_run : list label :=
  [HostSetState (Clock 10 "a") "x" (num 1);
   CallSync (Clock 20 "b");
   CallSync (Clock 21 "c")].

(** The same, and the cycle then runs to its end. *)
Definition overlapping_run : list label :=
  [HostSetState (Clock 10 "a") "x" (num 1);
   CallSync (Clock 20 "b");
   CallSync (Clock 21 "c");
   Settle 0 (quiet_env 30) (Replied (BatchResult [str "x"] [] []));
   Settle 0 (quiet_env 40) (Replied (BatchResult [] [] []))].

Definition keeps_guard {A : Type} (m : M A) : Prop :=
  forall s, guard (snd (m s)) = guard s.

(** *** Values without a version number; what no method assigns *)

(** A stored value from which hasChanged reads no version number: it is
    neither null nor undefined (reading [value.version] would throw), and
    it is not an object with a numeric [version] field. *)
Definition unversioned (v : value) : bool :=
  match v with
  | VPrim PUndef | VPrim PNull => false
  | VObj o =>
      match map_get "version" o with
      | Some (VPrim (PNum _)) => false
      | _ => true
      end
  | _ => true
  end.

(** The change collectChanges pushes for an entry of the store. *)
Definition change_of (c : clock) (sm : StateManager.t) (kv : string * value) : change :=
  {| ch_key := fst kv; ch_value := snd kv;
     ch_version := StateManager.version sm; ch_timestamp := now c |}.

(** The conflict handleConflict hands to the resolver. *)
Definition resolver_conflict (c : remote_conflict) : ConflictResolver.conflict :=
  {| ConflictResolver.serverValue := rc_serverValue c;
     ConflictResolver.clientValue := rc_clientValue c;
     ConflictResolver.serverTimestamp := rc_serverTimestamp c;
     ConflictResolver.clientTimestamp := rc_clientTimestamp c;
     ConflictResolver.dataType := Some (determineDataType (rc_serverValue c));
     ConflictResolver.forcedStrategy := None;
     ConflictResolver.serverMetadata := undefined;
     ConflictResolver.clientMetadata := undefined;
     ConflictResolver.metadata :=
       VObj [("key", str (rc_key c)); ("version", rc_version c)] |}.

(** The configuration, the host's members, and the configuration and the
    two registries of the resolver. *)
Definition fixed_part (s : t)
    : config * host * ConflictResolver.config *
      list (string * ConflictResolver.merge_rule) *
      list (string * ConflictResolver.strategy) :=
  (cfg s, members s, ConflictResolver.cfg (conflictResolver s),
   ConflictResolver.mergeRules (conflictResolver s),
   ConflictResolver.customStrategies (conflictResolver s)).

Definition keeps_fixed {A : Type} (m : M A) : Prop :=
  forall s, fixed_part (snd (m s)) = fixed_part s.

(** Every batch but the last holds [size] changes. *)
Definition full_but_last (size : Z) (batches : list (list change)) : Prop :=
  forall i b, batches !! i = Some b -> (S i < List.length batches)%nat ->
              Z.of_nat (List.length b) = size.

(** *** Queued changes *)

(** handleDataChange, with processDeltaUpdate passed in: the change is
    pushed to the sync queue, and the delta is processed only when the
    configuration holds a truthy [enableDeltaUpdates]. *)
Definition handleDataChange (processDeltaUpdate : change -> M unit) (ch : change) : M unit :=
  modify (fun s => set_syncQueue (syncQueue s ++ [ch]) s) ;;
  do cf <- gets cfg;
  if enableDeltaUpdates cf then processDeltaUpdate ch else ret tt.

End DataSync.

(** * Properties *)

(** ** State store: version counter and bounded history *)

Section StoreProperties.
Import JS StateManager.

Lemma setState_version clk key v o s :
  version (snd (setState clk key v o s)) = version s + 1.
Proof. reflexivity. Qed.

Lemma step_cfg s l : cfg (step s l) = cfg s.
Proof.
  destruct l as [clk key v o | clk key f p | key sid]; simpl; try reflexivity.
  unfold unsubscribe. destruct (map_get key (subscribers s)); reflexivity.
Qed.

Lemma step_version s l :
  version (step s l) = version s + (if is_setState l then 1 else 0).
Proof.
  destruct l as [clk key v o | clk key f p | key sid]; simpl.
  - reflexivity.
  - lia.
  - unfold unsubscribe. destruct (map_get key (subscribers s)); simpl; lia.
Qed.

Lemma step_history_other s l :
  is_setState l = false -> history (step s l) = history s.
Proof.
  destruct l as [clk key v o | clk key f p | key sid]; simpl; intros E; try discriminate.
  - reflexivity.
  - unfold unsubscribe. destruct (map_get key (subscribers s)); reflexivity.
Qed.

Lemma run_snoc ls l s : run (ls ++ [l]) s = step (run ls s) l.
Proof. unfold run. rewrite foldl_app. reflexivity. Qed.

Lemma run_cfg ls s : cfg (run ls s) = cfg s.
Proof.
  induction ls as [|l ls IH] using rev_ind; [reflexivity|].
  rewrite run_snoc, step_cfg. exact IH.
Qed.

Lemma setState_calls_snoc ls l :
  setState_calls (ls ++ [l]) = (setState_calls ls + (if is_setState l then 1 else 0))%nat.
Proof.
  unfold setState_calls. rewrite List.filter_app, List.length_app. simpl.
  destruct (is_setState l); reflexivity.
Qed.

Lemma run_version ls s :
  version (run ls s) = version s + Z.of_nat (setState_calls ls).
Proof.
  induction ls as [|l ls IH] using rev_ind.
  - simpl. unfold setState_calls. simpl. lia.
  - rewrite run_snoc, step_version, IH, setState_calls_snoc.
    destruct (is_setState l); lia.
Qed.

Lemma map_drop_1 {A B : Type} (f : A -> B) (l : list A) :
  map f (drop 1 l) = drop 1 (map f l).
Proof. destruct l; reflexivity. Qed.

Lemma setState_history_inv clk key v o s :
  (forall b, historySize (cfg s) = Some b -> 0 <= b) ->
  history_inv s -> history_inv (snd (setState clk key v o s)).
Proof.
  intros Hpos [Hlen Hver]. unfold history_inv, history_versions in *. simpl.
  unfold trackHistory. rewrite List.length_app. simpl.
  remember (List.length (history s)) as n eqn:Hn.
  remember (HistoryRecord
              {| upd_id := generateId "upd" clk; upd_key := key; upd_value := v;
                 upd_version := version s + 1; upd_timestamp := now clk;
                 upd_metadata := or_default truthy (opt_metadata o) (VObj []);
                 upd_source := or_default truthy_string (opt_source o) "client" |}
              (state_get key s)) as r eqn:Hr.
  assert (Hsnoc :
    map (fun h => upd_version (hr_update h)) (history s ++ [r]) =
    seqZ (version s - Z.of_nat n + 1) (Z.of_nat (S n))).
  { rewrite List.map_app, Hver, seqZ_S, Hr. simpl. f_equal. f_equal. lia. }
  destruct (historySize (cfg s)) as [bound|] eqn:Hbound; simpl.
  - specialize (Hpos bound eq_refl). specialize (Hlen bound eq_refl).
    destruct (Z.gtb_spec (Z.of_nat (n + 1)) bound) as [E|E].
    + rewrite length_drop, List.length_app, <- Hn. simpl.
      rewrite Nat.add_sub. split; [intros b [= <-]; exact Hlen|].
      rewrite map_drop_1, Hsnoc.
      rewrite (seqZ_cons _ (Z.of_nat (S n))) by lia. simpl. rewrite drop_0.
      f_equal; lia.
    + rewrite List.length_app, <- Hn. simpl. split; [intros b [= <-]; lia|].
      rewrite Hsnoc. f_equal; lia.
  - rewrite List.length_app, <- Hn. simpl. split; [discriminate|].
    rewrite Hsnoc. f_equal; lia.
Qed.

Lemma step_history_inv s l :
  (forall b, historySize (cfg s) = Some b -> 0 <= b) ->
  history_inv s -> history_inv (step s l).
Proof.
  intros Hpos Hinv. destruct (is_setState l) eqn:E.
  - destruct l; try discriminate. apply setState_history_inv; assumption.
  - pose proof (step_version s l) as Hv. rewrite E in Hv.
    pose proof (step_history_other s l E) as Hh.
    destruct Hinv as [Hlen Hver]. unfold history_inv, history_versions in *.
    rewrite Hh, step_cfg, Hv, Z.add_0_r. split; assumption.
Qed.

Lemma new_history_inv c :
  (forall b, historySize (make_config c) = Some b -> 0 <= b) -> history_inv (new c).
Proof. intros H. split; simpl; [exact H | reflexivity]. Qed.

Lemma run_history_inv ls c :
  (forall b, historySize (make_config c) = Some b -> 0 <= b) ->
  history_inv (run ls (new c)).
Proof.
  intros H. induction ls as [|l ls IH] using rev_ind.
  - apply new_history_inv, H.
  - rewrite run_snoc. apply step_history_inv; [|exact IH].
    rewrite run_cfg. exact H.
Qed.

(** The versions in the history are pairwise distinct whatever the bound
    is: a history that is cut keeps a segment of the consecutive versions,
    one that is always emptied keeps none. *)
Lemma trackHistory_versions u pv cf h :
  map (fun r => upd_version (hr_update r)) (trackHistory u pv cf h) =
  (if exceeds (Z.of_nat (List.length (h ++ [HistoryRecord u pv]))) (historySize cf)
   then drop 1 else id)
    (map (fun r => upd_version (hr_update r)) h ++ [upd_version u]).
Proof.
  unfold trackHistory. destruct (exceeds _ _).
  - rewrite map_drop_1, List.map_app. reflexivity.
  - rewrite List.map_app. reflexivity.
Qed.

Lemma history_versions_below ls c :
  Forall (fun x => x <= version (run ls (new c))) (history_versions (run ls (new c))) /\
  NoDup (history_versions (run ls (new c))).
Proof.
  induction ls as [|l ls [IHle IHnd]] using rev_ind; [split; constructor|].
  rewrite run_snoc. destruct (is_setState l) eqn:E.
  - destruct l as [clk key v o| |]; try discriminate. simpl.
    unfold history_versions in *. simpl history. rewrite trackHistory_versions. simpl.
    set (vs := map (fun h => upd_version (hr_update h)) (history (run ls (new c)))) in *.
    assert (Hall : Forall (fun x => x <= version (run ls (new c)) + 1)
                     (vs ++ [version (run ls (new c)) + 1])).
    { apply Forall_app. split; [|repeat constructor; lia].
      eapply Forall_impl; [exact IHle|]. simpl. intros x Hx. lia. }
    assert (Hnd : NoDup (vs ++ [version (run ls (new c)) + 1])).
    { apply NoDup_app. split; [exact IHnd|]. split; [|apply NoDup_singleton].
      intros x Hx Hx'. apply list_elem_of_singleton in Hx'. subst x.
      rewrite Forall_forall in IHle. specialize (IHle _ Hx). lia. }
    destruct (exceeds _ _); simpl.
    + split; [apply Forall_drop, Hall|].
      eapply sublist_NoDup; [exact Hnd | apply sublist_drop].
    + split; [exact Hall | exact Hnd].
  - unfold history_versions in *.
    rewrite (step_history_other _ _ E), step_version, E, Z.add_0_r. split; assumption.
Qed.

(** C1, as stated, fails: a negative historySize is kept by the
    constructor (it is truthy), and trackHistory then removes the record
    it has just added, so the history is empty after every call and its
    length, 0, is above the bound. *)
Lemma C1_negative_historySize_breaks_bound :
  let c := ConfigIn (Some (Some (-1))) None None None in
  let s' := snd (setState (Clock 10 "a") "x" (num 1) no_options (new c)) in
  historySize (cfg s') = Some (-1) /\
  history s' = [] /\
  ~ (Z.of_nat (List.length (history s')) <= -1).
Proof. intros c s'. repeat split. simpl. lia. Qed.

(** With [historySize: undefined] passed as an own key the spread puts
    [undefined] over the default, the comparison in trackHistory is always
    false, and the history keeps every update. *)
Lemma history_untrimmed_when_undefined ls :
  let c := ConfigIn (Some None) None None None in
  historySize (cfg (run ls (new c))) = None /\
  List.length (history (run ls (new c))) = setState_calls ls.
Proof.
  intros c. split; [rewrite run_cfg; reflexivity|].
  induction ls as [|l ls IH] using rev_ind; [reflexivity|].
  rewrite run_snoc, setState_calls_snoc. destruct (is_setState l) eqn:E.
  - destruct l as [clk key v o| |]; try discriminate. simpl.
    unfold trackHistory. rewrite run_cfg. simpl.
    rewrite List.length_app, IH. simpl. lia.
  - rewrite (step_history_other _ _ E), IH. lia.
Qed.

(** C1, amended.  On one store, whatever its configuration and whatever
    calls came before, a setState call (any key, any value) raises the
    store's single version counter by exactly one, so the counter equals
    the number of setState calls made, and no version occurs twice in the
    history; and when [historySize] is a number that is not negative, the
    history holds at most [historySize] records after the call. *)
Theorem C1_setState_version_and_history
    (c : config_in) (before : list label)
    (clk : clock) (key : string) (v : value) (o : options) :
  let s := run before (new c) in
  let s' := snd (setState clk key v o s) in
  version s' = version s + 1 /\
  version s' = Z.of_nat (setState_calls (before ++ [SetState clk key v o])) /\
  NoDup (history_versions s') /\
  (forall bound, historySize (cfg s') = Some bound -> 0 <= bound ->
     Z.of_nat (List.length (history s')) <= bound).
Proof.
  intros s s'.
  assert (Hs' : s' = run (before ++ [SetState clk key v o]) (new c))
    by (rewrite run_snoc; reflexivity).
  split; [reflexivity|]. split; [rewrite Hs', run_version; simpl; lia|].
  split; [rewrite Hs'; apply history_versions_below|].
  intros bound Hbound Hpos.
  assert (Hcfg : historySize (make_config c) = Some bound).
  { rewrite Hs', run_cfg in Hbound. exact Hbound. }
  assert (Hinv : history_inv s').
  { rewrite Hs'. apply run_history_inv. intros b Hb. congruence. }
  destruct Hinv as [Hlen _]. apply Hlen, Hbound.
Qed.

End StoreProperties.

(** The scenario of the description: two writes to one key of a fresh
    store. *)
Example store_two_writes :
  let s := StateManager.run
             [StateManager.SetState (JS.Clock 10 "a") "x" (JS.num 1) StateManager.no_options;
              StateManager.SetState (JS.Clock 11 "b") "x" (JS.num 2) StateManager.no_options]
             (StateManager.new StateManager.no_config) in
  StateManager.version s = 2 /\
  List.length (StateManager.history s) = 2%nat /\
  StateManager.state_get "x" s = JS.num 2.
Proof. repeat split. Qed.

(** Subscribers are called by descending priority, equal priorities in
    the order of registration. *)
Example notify_order :
  JS.sort_desc (fun e : nat * JS.priority => JS.priorityMap (snd e))
    [(1%nat, JS.Low); (2%nat, JS.High); (3%nat, JS.Low); (4%nat, JS.High);
     (5%nat, JS.Normal)] =
  [(2%nat, JS.High); (4%nat, JS.High); (5%nat, JS.Normal); (1%nat, JS.Low);
   (3%nat, JS.Low)].
Proof. reflexivity. Qed.

Lemma C1_setState_version_and_history_witness :
  let s := StateManager.run
             [StateManager.SetState (JS.Clock 10 "a") "x" (JS.num 1) StateManager.no_options]
             (StateManager.new StateManager.no_config) in
  let s' := snd (StateManager.setState (JS.Clock 11 "b") "y" (JS.num 2)
                   StateManager.no_options s) in
  StateManager.historySize (StateManager.cfg s') = Some 50 /\
  StateManager.version s' = StateManager.version s + 1 /\
  StateManager.version s' = 2 /\
  NoDup (StateManager.history_versions s') /\
  Z.of_nat (List.length (StateManager.history s')) <= 50.
Proof.
  intros s s'.
  destruct (C1_setState_version_and_history StateManager.no_config
              [StateManager.SetState (JS.Clock 10 "a") "x" (JS.num 1) StateManager.no_options]
              (JS.Clock 11 "b") "y" (JS.num 2) StateManager.no_options)
    as (H1 & H2 & H3 & H4).
  split; [reflexivity|]. split; [exact H1|]. split; [exact H2|]. split; [exact H3|].
  apply H4; [reflexivity | lia].
Defined.

(** ** Array merge: the elements of a Set in insertion order *)

Section SetOfArrayProperties.
Import JS.
Context {A : Type} `{EqDecision A}.
Implicit Types (x : A) (acc items l : list A).

Lemma set_add_elem acc x y : y ∈ set_add acc x <-> y ∈ acc \/ y = x.
Proof.
  unfold set_add. destruct (decide (x ∈ acc)) as [Hin|Hnin].
  - split; [auto|]. intros [?| ->]; assumption.
  - rewrite elem_of_app, list_elem_of_singleton. reflexivity.
Qed.

Lemma set_add_NoDup acc x : NoDup acc -> NoDup (set_add acc x).
Proof.
  intros Hnd. unfold set_add. destruct (decide (x ∈ acc)) as [Hin|Hnin]; [exact Hnd|].
  apply NoDup_app. split; [exact Hnd|]. split.
  - intros y Hy Hy'. apply list_elem_of_singleton in Hy'. subst. contradiction.
  - apply NoDup_singleton.
Qed.

Lemma fold_set_add_snoc acc items x :
  foldl set_add acc (items ++ [x]) = set_add (foldl set_add acc items) x.
Proof. rewrite foldl_app. reflexivity. Qed.

Lemma fold_set_add_elem acc items y :
  y ∈ foldl set_add acc items <-> y ∈ acc \/ y ∈ items.
Proof.
  induction items as [|x items IH] using rev_ind; simpl.
  - rewrite elem_of_nil. tauto.
  - rewrite fold_set_add_snoc, set_add_elem, IH, elem_of_app, list_elem_of_singleton. tauto.
Qed.

Lemma fold_set_add_NoDup acc items : NoDup acc -> NoDup (foldl set_add acc items).
Proof.
  intros Hnd. induction items as [|x items IH] using rev_ind; simpl; [exact Hnd|].
  rewrite fold_set_add_snoc. apply set_add_NoDup, IH.
Qed.

(** Elements already present are skipped. *)
Lemma fold_set_add_present acc items :
  (forall x, x ∈ items -> x ∈ acc) -> foldl set_add acc items = acc.
Proof.
  induction items as [|x items IH] using rev_ind; intros Hall; simpl; [reflexivity|].
  rewrite fold_set_add_snoc, IH.
  - unfold set_add. rewrite decide_True; [reflexivity|].
    apply Hall, elem_of_app. right. apply list_elem_of_singleton. reflexivity.
  - intros y Hy. apply Hall, elem_of_app. left. exact Hy.
Qed.

Lemma set_add_app_fresh acc l x :
  x ∉ acc -> set_add (acc ++ l) x = acc ++ set_add l x.
Proof.
  intros Hx. unfold set_add. destruct (decide (x ∈ l)) as [Hin|Hnin].
  - rewrite decide_True; [reflexivity|]. apply elem_of_app. right. exact Hin.
  - rewrite decide_False.
    + rewrite <- app_assoc. reflexivity.
    + rewrite elem_of_app. tauto.
Qed.

(** New elements are appended in the order they are met. *)
Lemma fold_set_add_fresh acc items :
  (forall x, x ∈ items -> x ∉ acc) ->
  foldl set_add acc items = acc ++ set_elements items.
Proof.
  unfold set_elements.
  induction items as [|x items IH] using rev_ind; intros Hall; simpl.
  - rewrite app_nil_r. reflexivity.
  - rewrite !fold_set_add_snoc, IH.
    + apply set_add_app_fresh.
      apply Hall, elem_of_app. right. apply list_elem_of_singleton. reflexivity.
    + intros y Hy. apply Hall, elem_of_app. left. exact Hy.
Qed.

Lemma fold_set_add_filter acc items :
  foldl set_add acc items = foldl set_add acc (filter (fun x => x ∉ acc) items).
Proof.
  induction items as [|x items IH] using rev_ind; simpl; [reflexivity|].
  rewrite filter_app, fold_set_add_snoc, IH.
  destruct (decide (x ∈ acc)) as [Hin|Hnin].
  - rewrite filter_cons_False by (intros Hc; apply Hc; exact Hin).
    rewrite filter_nil, app_nil_r.
    unfold set_add. rewrite decide_True; [reflexivity|].
    apply fold_set_add_elem. left. exact Hin.
  - rewrite filter_cons_True by exact Hnin.
    rewrite filter_nil, fold_set_add_snoc. reflexivity.
Qed.

Lemma set_elements_NoDup_id items : NoDup items -> set_elements items = items.
Proof.
  unfold set_elements.
  induction items as [|x items IH] using rev_ind; intros Hnd; simpl; [reflexivity|].
  apply NoDup_app in Hnd as (Hnd & Hdisj & _).
  rewrite fold_set_add_snoc, IH by exact Hnd.
  unfold set_add. rewrite decide_False; [reflexivity|].
  intros Hin. apply (Hdisj x Hin). apply list_elem_of_singleton. reflexivity.
Qed.

Lemma set_elements_app l items :
  set_elements (l ++ items) =
  set_elements l ++ set_elements (filter (fun x => x ∉ l) items).
Proof.
  unfold set_elements at 1. rewrite foldl_app. fold (set_elements l).
  rewrite fold_set_add_filter.
  rewrite (list_filter_iff (fun x => x ∉ set_elements l) (fun x => x ∉ l)).
  2:{ intros x. unfold set_elements. rewrite fold_set_add_elem, elem_of_nil. tauto. }
  apply fold_set_add_fresh.
  intros x Hx. apply list_elem_of_filter in Hx as [Hx _].
  unfold set_elements. rewrite fold_set_add_elem, elem_of_nil. tauto.
Qed.

End SetOfArrayProperties.

Lemma merged_array_elem {A : Type} `{EqDecision A} (s k : list A) x :
  x ∈ ConflictResolver.merged_array s k <-> x ∈ s \/ x ∈ k.
Proof.
  unfold ConflictResolver.merged_array, JS.set_elements.
  rewrite fold_set_add_elem, elem_of_nil, elem_of_app. tauto.
Qed.

Lemma merged_array_NoDup {A : Type} `{EqDecision A} (s k : list A) :
  NoDup (ConflictResolver.merged_array s k).
Proof. apply fold_set_add_NoDup, NoDup_nil_2. Qed.

Lemma merged_array_again {A : Type} `{EqDecision A} (s k : list A) :
  ConflictResolver.merged_array (ConflictResolver.merged_array s k) k =
  ConflictResolver.merged_array s k.
Proof.
  unfold ConflictResolver.merged_array at 1.
  unfold JS.set_elements at 1. rewrite foldl_app.
  fold (JS.set_elements (ConflictResolver.merged_array s k)).
  rewrite (set_elements_NoDup_id _ (merged_array_NoDup s k)).
  apply fold_set_add_present. intros x Hx. apply merged_array_elem. right. exact Hx.
Qed.

(** The merged array, for elements of any type compared by identity: the
    distinct elements of the server array in their order, then the
    distinct elements of the client array that the server array does not
    hold. *)
Lemma merged_array_first_seen {A : Type} `{EqDecision A} (s k : list A) :
  ConflictResolver.merged_array s k =
  JS.set_elements s ++ JS.set_elements (filter (fun x => x ∉ s) k).
Proof. apply set_elements_app. Qed.

(** The rule as the resolver calls it, on two arrays. *)
Lemma mergeArrays_on_arrays (s k : list JS.prim) (c : ConflictResolver.conflict) :
  ConflictResolver.mergeArrays (JS.VArr s) (JS.VArr k) c =
  JS.Return
    {| ConflictResolver.res_value := JS.VArr (ConflictResolver.merged_array s k);
       ConflictResolver.res_source := "merged";
       ConflictResolver.res_metadata :=
         JS.VObj
           [("originalLength",
             JS.VObj [("server", JS.num (Z.of_nat (List.length s)));
                      ("client", JS.num (Z.of_nat (List.length k)))]);
            ("mergedLength",
             JS.num (Z.of_nat (List.length (ConflictResolver.merged_array s k))))] |}.
Proof. reflexivity. Qed.

(** C7.  For all arrays A and B, the auto-merge array rule, mergeArrays,
    returns a resolution whose value is an array R that is the union of A
    and B in first-seen order: the distinct elements of the server array
    in their order, then the distinct elements of the client array that
    the server array does not hold; R has no duplicates and holds exactly
    the elements of A and of B.  Calling the rule again on the returned
    value and B returns a resolution with the same value. *)
Theorem C7_mergeArrays_union_idempotent
    (serverArray clientArray : list JS.prim) (c c' : ConflictResolver.conflict) :
  exists R r r',
    ConflictResolver.mergeArrays (JS.VArr serverArray) (JS.VArr clientArray) c =
      JS.Return r /\
    ConflictResolver.res_value r = JS.VArr R /\
    R = JS.set_elements serverArray ++
        JS.set_elements (filter (fun x => x ∉ serverArray) clientArray) /\
    NoDup R /\
    (forall x, x ∈ R <-> x ∈ serverArray \/ x ∈ clientArray) /\
    ConflictResolver.mergeArrays (ConflictResolver.res_value r) (JS.VArr clientArray) c' =
      JS.Return r' /\
    ConflictResolver.res_value r' = ConflictResolver.res_value r.
Proof.
  exists (ConflictResolver.merged_array serverArray clientArray).
  eexists. eexists.
  split; [apply mergeArrays_on_arrays|]. simpl ConflictResolver.res_value.
  split; [reflexivity|].
  split; [apply merged_array_first_seen|].
  split; [apply merged_array_NoDup|].
  split; [apply merged_array_elem|].
  split; [apply mergeArrays_on_arrays|]. simpl ConflictResolver.res_value.
  f_equal. apply merged_array_again.
Qed.

(** The scenario of the description. *)
Example mergeArrays_scenario (c : ConflictResolver.conflict) :
  ConflictResolver.res_value
    <$> (match ConflictResolver.mergeArrays
                 (JS.VArr [JS.PNum 1; JS.PNum 2]) (JS.VArr [JS.PNum 2; JS.PNum 3]) c with
         | JS.Return r => Some r
         | JS.Throw _ => None
         end) =
  Some (JS.VArr [JS.PNum 1; JS.PNum 2; JS.PNum 3]).
Proof. reflexivity. Qed.

(** ** Conflict resolver *)

Section ResolverProperties.
Import JS ConflictResolver.

Lemma new_cfg c : cfg (new c) = make_config c.
Proof.
  unfold new, init, setupMergeRules. simpl.
  destruct (spread_over (in_enableMergeRules c) (computed_enableMergeRules c)); reflexivity.
Qed.

Lemma new_customStrategies c :
  customStrategies (new c) =
  [("server-wins", ServerWins); ("client-wins", ClientWins);
   ("last-write-wins", LastWriteWins); ("auto-merge", AutoMerge)].
Proof.
  unfold new, init, setupMergeRules. simpl.
  destruct (spread_over (in_enableMergeRules c) (computed_enableMergeRules c)); reflexivity.
Qed.

Lemma new_conflictHistory c : conflictHistory (new c) = [].
Proof.
  unfold new, init, setupMergeRules. simpl.
  destruct (spread_over (in_enableMergeRules c) (computed_enableMergeRules c)); reflexivity.
Qed.

Lemma new_mergeRules c :
  mergeRules (new c) =
  if enableMergeRules (make_config c)
  then [("array", MergeArrays); ("object", MergeObjects); ("string", MergeStrings)]
  else [].
Proof.
  unfold new, init, setupMergeRules. simpl.
  destruct (spread_over (in_enableMergeRules c) (computed_enableMergeRules c)); reflexivity.
Qed.

Lemma or_default_Z_same (a b : option Z) (d : Z) :
  a = b -> (or_default truthy_Z a d >=? or_default truthy_Z b d) = true.
Proof. intros ->. apply Z.geb_le. lia. Qed.

(** C8.  When the server and client timestamps of a conflict are equal,
    last-write-wins resolves to the server: it returns what server-wins
    returns, the server value with source 'server'; so does a resolver
    asked to resolve the conflict with that strategy. *)
Theorem C8_lastWriteWins_tie_favors_server (c : conflict) :
  serverTimestamp c = clientTimestamp c ->
  lastWriteWinsStrategy c = serverWinsStrategy c /\
  res_value (lastWriteWinsStrategy c) = serverValue c /\
  res_source (lastWriteWinsStrategy c) = "server" /\
  forall (cin : config_in) (fuel : nat) (clk : nat -> attempt_clock),
    fst (fst (resolveConflict (S fuel) clk 0
                (with_forcedStrategy "last-write-wins" c) (new cin))) =
    Done (Return {| res_value := serverValue c; res_source := "server";
                    res_metadata := serverMetadata c |}).
Proof.
  intros Heq.
  assert (H : lastWriteWinsStrategy c = serverWinsStrategy c).
  { unfold lastWriteWinsStrategy. rewrite (or_default_Z_same _ _ 0 Heq). reflexivity. }
  split; [exact H|]. rewrite H. split; [reflexivity|]. split; [reflexivity|].
  intros cin fuel clk. simpl. unfold applyStrategy. simpl.
  rewrite new_customStrategies. simpl.
  unfold lastWriteWinsStrategy. simpl.
  rewrite (or_default_Z_same _ _ 0 Heq). reflexivity.
Qed.

Lemma C8_lastWriteWins_tie_favors_server_witness :
  let c := {| serverValue := num 1; clientValue := num 2;
              serverTimestamp := Some 1700; clientTimestamp := Some 1700;
              dataType := Some "number"; forcedStrategy := None;
              serverMetadata := undefined; clientMetadata := undefined;
              metadata := undefined |} in
  serverTimestamp c = clientTimestamp c /\
  res_value (lastWriteWinsStrategy c) = num 1 /\
  res_source (lastWriteWinsStrategy c) = "server".
Proof.
  intros c. split; [reflexivity|].
  destruct (C8_lastWriteWins_tie_favors_server c eq_refl) as (_ & Hv & Hs & _).
  split; [exact Hv | exact Hs].
Defined.

(** *** Retries *)

(** A failed attempt whose retry budget allows another one starts over
    with a new resolution object, whose attempt counter is zero again. *)
Lemma resolveConflict_retry_forever (r : t) (c : conflict) :
  1 < maxRetries (cfg r) ->
  (forall now ts, exists e,
      applyStrategy now
        {| originalConflict := c; timestamp := ts;
           strategy_name := determineStrategy c r; attempts := 0 |} r = Throw e) ->
  forall fuel clk n, resolveConflict fuel clk n c r = (OutOfFuel, r, (n + fuel)%nat).
Proof.
  intros Hmax Hthrow fuel. induction fuel as [|fuel IH]; intros clk n; simpl.
  - rewrite Nat.add_0_r. reflexivity.
  - destruct (Hthrow (at_merge (clk n)) (at_resolve (clk n))) as [e He]. rewrite He.
    unfold handleResolutionError. simpl. change (0 + 1) with 1.
    destruct (Z.ltb_spec 1 (maxRetries (cfg r))) as [_|Hc]; [|lia].
    rewrite IH. f_equal. lia.
Qed.

(** With a budget of at most one attempt the first failure is final. *)
Lemma resolveConflict_single_attempt (r : t) (c : conflict) fuel clk n e :
  maxRetries (cfg r) <= 1 ->
  applyStrategy (at_merge (clk n))
    {| originalConflict := c; timestamp := at_resolve (clk n);
       strategy_name := determineStrategy c r; attempts := 0 |} r = Throw e ->
  resolveConflict (S fuel) clk n c r = (Done (Throw (ResolutionFailed 1)), r, S n).
Proof.
  intros Hmax He. simpl. rewrite He. unfold handleResolutionError. simpl.
  change (0 + 1) with 1.
  destruct (Z.ltb_spec 1 (maxRetries (cfg r))) as [Hc|_]; [lia|reflexivity].
Qed.

(** C2, on the code.  A resolver built with the default configuration
    (maxRetries 3) is asked to resolve a conflict whose forced strategy,
    'manual-resolve', is not registered.  Whatever recursion budget is
    given, the call uses all of it: after [fuel] attempts it has neither
    returned nor raised the resolution failure.  The retry counter lives
    in the resolution object, and every retry builds a new one. *)
Theorem C2_unknown_strategy_retries_without_end
    (fuel : nat) (clk : nat -> attempt_clock) :
  let r := new no_config in
  let c := with_forcedStrategy "manual-resolve" (plain_conflict (num 1) (num 2)) in
  maxRetries (cfg r) = 3 /\
  map_get "manual-resolve" (customStrategies r) = None /\
  resolveConflict fuel clk 0 c r = (OutOfFuel, r, fuel).
Proof.
  intros r c. split; [reflexivity|]. split; [reflexivity|].
  apply (resolveConflict_retry_forever r c).
  - simpl. lia.
  - intros now ts. eexists. reflexivity.
Qed.

(** *** History *)

Lemma trackResolution_cfg rs res r : cfg (trackResolution rs res r) = cfg r.
Proof. unfold trackResolution. destruct (negb (trackHistory (cfg r))); reflexivity. Qed.

Lemma resolveConflict_state fuel clk n c r :
  let r' := snd (fst (resolveConflict fuel clk n c r)) in
  r' = r \/ exists rs res, r' = trackResolution rs res r.
Proof.
  revert n. induction fuel as [|fuel IH]; intros n; simpl; [left; reflexivity|].
  destruct (applyStrategy _ _ r) as [res|e]; simpl.
  - right. eauto.
  - unfold handleResolutionError. simpl.
    destruct (0 + 1 <? maxRetries (cfg r)); [apply IH | left; reflexivity].
Qed.

Lemma resolveConflict_cfg fuel clk n c r :
  cfg (snd (fst (resolveConflict fuel clk n c r))) = cfg r.
Proof.
  destruct (resolveConflict_state fuel clk n c r) as [-> | (rs & res & ->)];
    [reflexivity | apply trackResolution_cfg].
Qed.

Lemma trackResolution_bounded rs res r (bound : Z) :
  maxHistoryLength (cfg r) = Some bound -> 0 <= bound ->
  Z.of_nat (List.length (conflictHistory r)) <= bound ->
  Z.of_nat (List.length (conflictHistory (trackResolution rs res r))) <= bound.
Proof.
  intros Hb Hpos Hlen. unfold trackResolution.
  destruct (negb (trackHistory (cfg r))); [exact Hlen|]. simpl. rewrite Hb.
  rewrite List.length_app. simpl.
  destruct (Z.gtb_spec (Z.of_nat (List.length (conflictHistory r) + 1)) bound) as [E|E].
  - rewrite length_drop, List.length_app. simpl. lia.
  - rewrite List.length_app. simpl. lia.
Qed.

(** When the caller passes [maxHistoryLength], the log stays within it. *)
Lemma history_bounded_when_configured (cin : config_in) (bound : Z) fuel clk cs :
  in_maxHistoryLength cin = Some bound -> 0 <= bound ->
  Z.of_nat (List.length (conflictHistory (resolve_all fuel clk cs (new cin)))) <= bound.
Proof.
  intros Hb Hpos.
  assert (Hgen : forall r,
    maxHistoryLength (cfg r) = Some bound ->
    Z.of_nat (List.length (conflictHistory r)) <= bound ->
    Z.of_nat (List.length (conflictHistory (resolve_all fuel clk cs r))) <= bound).
  { induction cs as [|c cs IH]; intros r Hr Hlen; simpl; [exact Hlen|].
    apply IH.
    - rewrite resolveConflict_cfg. exact Hr.
    - destruct (resolveConflict_state fuel clk 0 c r) as [-> | (rs & res & ->)];
        [exact Hlen | apply trackResolution_bounded; assumption]. }
  apply Hgen.
  - rewrite new_cfg. exact Hb.
  - rewrite new_conflictHistory. simpl. exact Hpos.
Qed.

Lemma resolve_all_snoc fuel clk cs c r :
  resolve_all fuel clk (cs ++ [c]) r =
  snd (fst (resolveConflict fuel clk 0 c (resolve_all fuel clk cs r))).
Proof. unfold resolve_all. rewrite foldl_app. reflexivity. Qed.

Lemma shipped_resolves_plain fuel clk h sv cv :
  exists e, snd (fst (resolveConflict (S fuel) clk 0 (plain_conflict sv cv) (shipped h)))
            = shipped (h ++ [e]).
Proof. eexists. reflexivity. Qed.

Lemma shipped_resolve_all fuel clk n sv cv :
  exists h, List.length h = n /\
            resolve_all (S fuel) clk (replicate n (plain_conflict sv cv))
              (new DEFAULT_CONFLICT_CONFIG) = shipped h.
Proof.
  induction n as [|n (h & Hlen & IH)].
  - exists []. split; reflexivity.
  - replace (replicate (S n) (plain_conflict sv cv))
      with (replicate n (plain_conflict sv cv) ++ [plain_conflict sv cv]).
    2:{ change [plain_conflict sv cv] with (replicate 1 (plain_conflict sv cv)).
        rewrite <- replicate_add. f_equal. lia. }
    rewrite resolve_all_snoc, IH.
    destruct (shipped_resolves_plain fuel clk h sv cv) as [e He]. rewrite He.
    exists (h ++ [e]). split; [|reflexivity].
    rewrite List.length_app. simpl. lia.
Qed.

(** C6, on the code.  A resolver built from the shipped
    DEFAULT_CONFLICT_CONFIG (trackHistory on, historySize 100) logs every
    resolution and evicts none: after [n] resolved conflicts the log holds
    [n] records, for every [n].  trackResolution compares the length with
    [maxHistoryLength], a key that no configuration and no default
    defines. *)
Theorem C6_resolution_history_grows_without_bound
    (n fuel : nat) (clk : nat -> attempt_clock) :
  let r := resolve_all (S fuel) clk (replicate n (plain_conflict (num 1) (num 2)))
             (new DEFAULT_CONFLICT_CONFIG) in
  trackHistory (cfg r) = true /\
  historySize (cfg r) = Some 100 /\
  maxHistoryLength (cfg r) = None /\
  List.length (conflictHistory r) = n.
Proof.
  intros r. unfold r.
  destruct (shipped_resolve_all fuel clk n (num 1) (num 2)) as (h & Hlen & ->).
  repeat split. exact Hlen.
Qed.

End ResolverProperties.

(** ** Event bus: backpressure *)

Section BusProperties.
Import JS EventBus.

(** No operation changes the configuration. *)

Lemma proceed_cfg a e b : cfg (proceed a e b) = cfg b.
Proof.
  unfold proceed. destruct (objects b !! a) as [l|]; [|reflexivity].
  destruct (match l_filter l with Some f => negb (f (e_data e)) | None => false end);
    reflexivity.
Qed.

Lemma notifyListener_cfg e b a : cfg (notifyListener e b a) = cfg b.
Proof.
  unfold notifyListener. destruct (objects b !! a) as [l|]; [|reflexivity].
  destruct (l_backpressure l); [|apply proceed_cfg].
  destruct (_ >? _); [reflexivity | rewrite proceed_cfg; reflexivity].
Qed.

Lemma foldl_notifyListener_cfg e addrs b :
  cfg (foldl (notifyListener e) b addrs) = cfg b.
Proof.
  revert b. induction addrs as [|a addrs IH]; intros b; simpl; [reflexivity|].
  rewrite IH. apply notifyListener_cfg.
Qed.

Lemma deliverEvent_cfg e b : cfg (deliverEvent e b) = cfg b.
Proof. unfold deliverEvent. apply foldl_notifyListener_cfg. Qed.

Lemma publish_cfg clk name data o b : cfg (publish clk name data o b) = cfg b.
Proof.
  unfold publish. destruct (persistence (cfg b)); [reflexivity|].
  rewrite deliverEvent_cfg. reflexivity.
Qed.

Lemma resume_cfg i b : cfg (resume i b) = cfg b.
Proof.
  unfold resume. destruct (tasks b !! i) as [[e|a e|a e|]|]; try reflexivity.
  - rewrite deliverEvent_cfg. reflexivity.
  - destruct (objects b !! a) as [l|]; [|reflexivity].
    destruct (_ <=? _); [|reflexivity]. rewrite proceed_cfg. reflexivity.
  - destruct (objects b !! a) as [l|]; [|reflexivity].
    destruct (l_backpressure l); reflexivity.
Qed.

Lemma subscribe_cfg clk pattern callback o b :
  cfg (snd (subscribe clk pattern callback o b)) = cfg b.
Proof.
  unfold subscribe. simpl. generalize (resolveEventPattern pattern b). intros names.
  revert b. induction names as [|n names IH]; intros b; simpl; [reflexivity|].
  rewrite IH. reflexivity.
Qed.

Lemma unsubscribe_cfg name lid b : cfg (snd (unsubscribe name lid b)) = cfg b.
Proof.
  unfold unsubscribe. destruct (map_get name (listeners b)) as [set|]; [|reflexivity].
  destruct (List.find _ set); reflexivity.
Qed.

Lemma step_cfg_bus b l : cfg (EventBus.step b l) = cfg b.
Proof.
  destruct l; simpl.
  - apply subscribe_cfg.
  - apply unsubscribe_cfg.
  - apply publish_cfg.
  - apply resume_cfg.
Qed.

Lemma run_snoc_bus ls l b : EventBus.run (ls ++ [l]) b = EventBus.step (EventBus.run ls b) l.
Proof. unfold EventBus.run. rewrite foldl_app. reflexivity. Qed.

Lemma run_cfg_bus ls b : cfg (EventBus.run ls b) = cfg b.
Proof.
  induction ls as [|l ls IH] using rev_ind; [reflexivity|].
  rewrite run_snoc_bus, step_cfg_bus. exact IH.
Qed.

(** *** Callbacks are invoked within capacity *)






(** *** Every unit of a pending count is accounted for *)

Lemma count_snoc {X : Type} (P : X -> bool) (l : list X) (x : X) :
  List.length (List.filter P (l ++ [x])) =
  (List.length (List.filter P l) + (if P x then 1 else 0))%nat.
Proof.
  rewrite List.filter_app, List.length_app. simpl. destruct (P x); reflexivity.
Qed.

Lemma count_insert {X : Type} (P : X -> bool) (l : list X) (i : nat) (x y : X) :
  l !! i = Some y ->
  (List.length (List.filter P (<[i := x]> l)) + (if P y then 1 else 0))%nat =
  (List.length (List.filter P l) + (if P x then 1 else 0))%nat.
Proof.
  revert i. induction l as [|z l IH]; intros i Hi; [discriminate|].
  destruct i as [|i]; simpl in *.
  - injection Hi as ->. destruct (P x), (P y); simpl; lia.
  - specialize (IH i Hi). destruct (P z); simpl; lia.
Qed.

Lemma accounted_same b b' a :
  objects b' = objects b -> total a b' = total a b -> accounted b a -> accounted b' a.
Proof. unfold accounted. intros -> ->. tauto. Qed.

Lemma total_proceed a a0 e b :
  total a (proceed a0 e b) =
  (total a b +
   (if Nat.eqb a0 a then match objects b !! a0 with Some _ => 1 | None => 0 end else 0))%nat.
Proof.
  unfold proceed. destruct (objects b !! a0) as [l|].
  2:{ destruct (Nat.eqb a0 a); lia. }
  destruct (match l_filter l with Some f => negb (f (e_data e)) | None => false end).
  - unfold total, in_flight, rejected. simpl. rewrite count_snoc. simpl.
    destruct (Nat.eqb a0 a); lia.
  - unfold total, in_flight, rejected. simpl. rewrite count_snoc. simpl.
    destruct (Nat.eqb a0 a); lia.
Qed.

Lemma proceed_objects a e b : objects (proceed a e b) = objects b.
Proof.
  unfold proceed. destruct (objects b !! a) as [l|]; [|reflexivity].
  destruct (match l_filter l with Some f => negb (f (e_data e)) | None => false end);
    reflexivity.
Qed.

Lemma notifyListener_accounted e b a0 :
  (forall a, accounted b a) -> forall a, accounted (notifyListener e b a0) a.
Proof.
  intros Hacc a. specialize (Hacc a). unfold accounted in *. unfold notifyListener.
  destruct (objects b !! a0) as [l0|] eqn:Hl0; [|exact Hacc].
  assert (Hlt : (a0 < List.length (objects b))%nat) by (eapply lookup_lt_Some; exact Hl0).
  destruct (l_backpressure l0) eqn:Hbp0.
  - set (b' := set_objects (<[a0 := with_pending (l_pending l0 + 1) l0]> (objects b)) b).
    assert (Htot : total a
              (if l_pending (with_pending (l_pending l0 + 1) l0) >?
                  backpressureThreshold (cfg b)
               then set_tasks (tasks b' ++ [Waiting a0 e]) b' else proceed a0 e b') =
              (total a b + (if Nat.eqb a0 a then 1 else 0))%nat).
    { destruct (_ >? _).
      - unfold total, in_flight, rejected. simpl. rewrite count_snoc. simpl. lia.
      - rewrite total_proceed. unfold b' at 2. simpl.
        rewrite list_lookup_insert_eq by exact Hlt. reflexivity. }
    assert (Hobj : objects
              (if l_pending (with_pending (l_pending l0 + 1) l0) >?
                  backpressureThreshold (cfg b)
               then set_tasks (tasks b' ++ [Waiting a0 e]) b' else proceed a0 e b') =
              <[a0 := with_pending (l_pending l0 + 1) l0]> (objects b)).
    { destruct (_ >? _); [reflexivity | apply proceed_objects]. }
    rewrite Hobj, Htot. destruct (Nat.eqb_spec a0 a) as [->|Hne].
    + rewrite list_lookup_insert_eq by exact Hlt. rewrite Hl0 in Hacc. simpl.
      intros _. rewrite (Hacc Hbp0). lia.
    + rewrite list_lookup_insert_ne by exact Hne. rewrite Nat.add_0_r. exact Hacc.
  - rewrite proceed_objects, total_proceed, Hl0.
    destruct (Nat.eqb_spec a0 a) as [->|Hne].
    + rewrite Hl0. intros Hbp. congruence.
    + rewrite Nat.add_0_r. exact Hacc.
Qed.

Lemma deliverEvent_accounted e b :
  (forall a, accounted b a) -> forall a, accounted (deliverEvent e b) a.
Proof.
  unfold deliverEvent. generalize (sort_desc (priority_of b)
    match map_get (e_name e) (listeners b) with Some s => s | None => [] end).
  intros addrs. revert b. induction addrs as [|a0 addrs IH]; intros b Hacc; simpl;
    [exact Hacc|].
  apply IH, notifyListener_accounted, Hacc.
Qed.

Lemma subscribe_one_accounted lid callback o b name :
  (forall a, accounted b a) -> forall a, accounted (subscribe_one lid callback o b name) a.
Proof.
  intros Hacc a. specialize (Hacc a). unfold accounted in *.
  unfold subscribe_one. simpl.
  change (total a (set_listeners _ (set_objects _ b))) with (total a b).
  destruct (objects b !! a) as [l|] eqn:Hl.
  - rewrite lookup_app_l by (eapply lookup_lt_Some; exact Hl). rewrite Hl. exact Hacc.
  - apply lookup_ge_None in Hl.
    destruct (decide (a = List.length (objects b))) as [->|Hne].
    + rewrite list_lookup_middle by reflexivity. simpl. intros _. rewrite Hacc. reflexivity.
    + rewrite lookup_ge_None_2; [exact Hacc|]. rewrite List.length_app. simpl. lia.
Qed.

Lemma finished_in_flight a i tk b :
  tasks b !! i = Some tk ->
  (in_flight a (set_tasks (<[i := Finished]> (tasks b)) b) + (if holds a tk then 1 else 0))%nat
  = in_flight a b.
Proof.
  intros Hi. unfold in_flight. simpl.
  rewrite (count_insert (holds a) (tasks b) i Finished tk Hi). simpl. lia.
Qed.

Lemma resume_accounted i b :
  (forall a, accounted b a) -> forall a, accounted (resume i b) a.
Proof.
  intros Hacc. unfold resume.
  destruct (tasks b !! i) as [[e|a0 e|a0 e|]|] eqn:Hi; try exact Hacc.
  - apply deliverEvent_accounted. intros a.
    apply (accounted_same b); [reflexivity| |apply Hacc].
    pose proof (finished_in_flight a i _ b Hi) as Hf. simpl in Hf.
    unfold total, rejected in *. simpl.
    change (in_flight a (bufferEvent e ?x)) with (in_flight a x). lia.
  - destruct (objects b !! a0) as [l0|] eqn:Hl0; [|exact Hacc].
    destruct (_ <=? _); [|exact Hacc].
    intros a. specialize (Hacc a). unfold accounted in *.
    rewrite proceed_objects, total_proceed. simpl. rewrite Hl0.
    pose proof (finished_in_flight a i _ b Hi) as Hf. simpl in Hf.
    replace (total a (set_tasks (<[i := Finished]> (tasks b)) b) +
             (if Nat.eqb a0 a then 1 else 0))%nat with (total a b).
    2:{ unfold total, rejected in *. simpl. lia. }
    exact Hacc.
  - intros a. pose proof (Hacc a) as Ha. pose proof (Hacc a0) as Ha0.
    unfold accounted in *.
    pose proof (finished_in_flight a i _ b Hi) as Hf. simpl in Hf.
    assert (Htot : (total a (set_tasks (<[i := Finished]> (tasks b)) b) +
                    (if Nat.eqb a0 a then 1 else 0))%nat = total a b).
    { unfold total, rejected in *. simpl. lia. }
    destruct (objects b !! a0) as [l0|] eqn:Hl0.
    + assert (Hlt : (a0 < List.length (objects b))%nat) by (eapply lookup_lt_Some; exact Hl0).
      destruct (l_backpressure l0) eqn:Hbp0.
      * simpl. change (total a (set_objects _ ?x)) with (total a x).
        destruct (Nat.eqb_spec a0 a) as [->|Hne].
        -- rewrite list_lookup_insert_eq by exact Hlt. simpl. intros _.
           rewrite (Ha0 eq_refl). lia.
        -- rewrite list_lookup_insert_ne by exact Hne. rewrite Nat.add_0_r in Htot.
           rewrite Htot. exact Ha.
      * simpl. destruct (Nat.eqb_spec a0 a) as [->|Hne].
        -- rewrite Hl0. intros Hbp. congruence.
        -- rewrite Nat.add_0_r in Htot. rewrite Htot. exact Ha.
    + simpl. destruct (Nat.eqb_spec a0 a) as [->|Hne].
      * rewrite Hl0 in *. lia.
      * rewrite Nat.add_0_r in Htot. rewrite Htot. exact Ha.
Qed.

Lemma step_accounted b l :
  (forall a, accounted b a) -> forall a, accounted (EventBus.step b l) a.
Proof.
  intros Hacc. destruct l as [clk pattern callback o | name lid | clk name data o | i]; simpl.
  - unfold subscribe. simpl. generalize (resolveEventPattern pattern b). intros names.
    revert b Hacc. induction names as [|n names IH]; intros b Hacc; simpl; [exact Hacc|].
    apply IH, subscribe_one_accounted, Hacc.
  - unfold unsubscribe. destruct (map_get name (listeners b)) as [set|]; [|exact Hacc].
    destruct (List.find _ set); exact Hacc.
  - unfold publish. destruct (persistence (cfg b)).
    + intros a. specialize (Hacc a). unfold accounted, total, in_flight, rejected in *.
      simpl. rewrite count_snoc. simpl. rewrite Nat.add_0_r. exact Hacc.
    + apply deliverEvent_accounted. exact Hacc.
  - apply resume_accounted. exact Hacc.
Qed.

Lemma run_accounted ls c a : accounted (EventBus.run ls (new c)) a.
Proof.
  revert a. induction ls as [|l ls IH] using rev_ind; intros a.
  - unfold accounted. simpl. reflexivity.
  - rewrite run_snoc_bus. apply step_accounted, IH.
Qed.

(** *** What a run never undoes *)

Lemma extends_refl a b : extends a b b.
Proof. split; [lia|]. intros l Hl. exists l. auto. Qed.

Lemma extends_trans a b1 b2 b3 : extends a b1 b2 -> extends a b2 b3 -> extends a b1 b3.
Proof.
  intros [Hr1 Ho1] [Hr2 Ho2]. split; [lia|]. intros l Hl.
  destruct (Ho1 l Hl) as (l' & Hl' & Hbp & Hf).
  destruct (Ho2 l' Hl') as (l'' & Hl'' & Hbp' & Hf').
  exists l''. split; [exact Hl''|]. split; congruence.
Qed.

Lemma extends_same a b b' :
  objects b' = objects b -> skipped b' = skipped b -> extends a b b'.
Proof.
  intros Ho Hs. split.
  - unfold rejected. rewrite Hs. lia.
  - intros l Hl. exists l. rewrite Ho. auto.
Qed.

Lemma proceed_extends a a0 e b : extends a b (proceed a0 e b).
Proof.
  unfold proceed. destruct (objects b !! a0) as [l0|]; [|apply extends_refl].
  destruct (match l_filter l0 with Some f => negb (f (e_data e)) | None => false end).
  - split.
    + unfold rejected. simpl. rewrite count_snoc. lia.
    + intros l Hl. exists l. auto.
  - apply extends_same; reflexivity.
Qed.

Lemma with_pending_extends a a0 p l0 b :
  objects b !! a0 = Some l0 ->
  extends a b (set_objects (<[a0 := with_pending p l0]> (objects b)) b).
Proof.
  intros Hl0. split; [unfold rejected; simpl; lia|]. intros l Hl. simpl.
  destruct (decide (a0 = a)) as [->|Hne].
  - rewrite list_lookup_insert_eq by (eapply lookup_lt_Some; exact Hl0).
    rewrite Hl0 in Hl. injection Hl as <-. eexists. split; [reflexivity|]. auto.
  - rewrite list_lookup_insert_ne by exact Hne. exists l. auto.
Qed.

Lemma notifyListener_extends a e b a0 : extends a b (notifyListener e b a0).
Proof.
  unfold notifyListener. destruct (objects b !! a0) as [l0|] eqn:Hl0; [|apply extends_refl].
  destruct (l_backpressure l0); [|apply proceed_extends].
  eapply extends_trans; [apply (with_pending_extends a a0 (l_pending l0 + 1) l0 b Hl0)|].
  destruct (_ >? _); [apply extends_same; reflexivity | apply proceed_extends].
Qed.

Lemma deliverEvent_extends a e b : extends a b (deliverEvent e b).
Proof.
  unfold deliverEvent. generalize (sort_desc (priority_of b)
    match map_get (e_name e) (listeners b) with Some s => s | None => [] end).
  intros addrs. revert b. induction addrs as [|a0 addrs IH]; intros b; simpl;
    [apply extends_refl|].
  eapply extends_trans; [apply notifyListener_extends | apply IH].
Qed.

Lemma step_extends a b l : extends a b (EventBus.step b l).
Proof.
  destruct l as [clk pattern callback o | name lid | clk name data o | i]; simpl.
  - unfold subscribe. simpl. generalize (resolveEventPattern pattern b). intros names.
    revert b. induction names as [|n names IH]; intros b; simpl; [apply extends_refl|].
    eapply extends_trans; [|apply IH].
    split; [unfold rejected; simpl; lia|]. intros l Hl. exists l. simpl.
    rewrite lookup_app_l by (eapply lookup_lt_Some; exact Hl). auto.
  - unfold unsubscribe. destruct (map_get name (listeners b)) as [set|]; [|apply extends_refl].
    destruct (List.find _ set); [apply extends_same; reflexivity | apply extends_refl].
  - unfold publish. destruct (persistence (cfg b)); [apply extends_same; reflexivity|].
    eapply extends_trans; [|apply deliverEvent_extends]. apply extends_same; reflexivity.
  - unfold resume. destruct (tasks b !! i) as [[e|a0 e|a0 e|]|]; try apply extends_refl.
    + eapply extends_trans; [|apply deliverEvent_extends]. apply extends_same; reflexivity.
    + destruct (objects b !! a0) as [l0|]; [|apply extends_refl].
      destruct (_ <=? _); [|apply extends_refl].
      eapply extends_trans; [|apply proceed_extends]. apply extends_same; reflexivity.
    + destruct (objects b !! a0) as [l0|] eqn:Hl0; [|apply extends_same; reflexivity].
      destruct (l_backpressure l0); [|apply extends_same; reflexivity].
      eapply extends_trans;
        [|apply (with_pending_extends a a0 (l_pending l0 - 1) l0 _ Hl0)].
      apply extends_same; reflexivity.
Qed.

Lemma run_extends a ls b : extends a b (EventBus.run ls b).
Proof.
  induction ls as [|l ls IH] using rev_ind; [apply extends_refl|].
  rewrite run_snoc_bus. eapply extends_trans; [exact IH | apply step_extends].
Qed.

Lemma run_app_bus ls ls' b : EventBus.run (ls ++ ls') b = EventBus.run ls' (EventBus.run ls b).
Proof. unfold EventBus.run. apply foldl_app. Qed.



(** C9.  For a backpressure-enabled listener, in every run, the pending
    count equals the number of its deliveries that wait or run plus the
    number of its deliveries that its filter rejected.  A delivery that
    the filter rejects invokes nothing and raises the count by one; below
    the threshold it ends at once, leaving no activation that could lower
    the count again.  Whatever happens later, the count stays at least the
    number of rejected deliveries. *)
Theorem C9_filter_rejected_delivery_keeps_pending
    (c : config_in) (ls : list label) (a : nat) (l : listener) :
  let b := EventBus.run ls (new c) in
  objects b !! a = Some l -> l_backpressure l = true ->
  l_pending l = Z.of_nat (in_flight a b) + Z.of_nat (rejected a b) /\
  (forall e f, l_filter l = Some f -> f (e_data e) = false ->
     let b' := notifyListener e b a in
     invocations b' = invocations b /\
     (exists l', objects b' !! a = Some l' /\ l_pending l' = l_pending l + 1) /\
     (l_pending l + 1 <= backpressureThreshold (cfg b) ->
      rejected a b' = S (rejected a b) /\ tasks b' = tasks b)) /\
  (forall later l', objects (EventBus.run (ls ++ later) (new c)) !! a = Some l' ->
     Z.of_nat (rejected a b) <= l_pending l').
Proof.
  intros b Hl Hbp. split; [|split].
  - pose proof (run_accounted ls c a) as Hacc. fold b in Hacc.
    unfold accounted in Hacc. rewrite Hl in Hacc. rewrite (Hacc Hbp). unfold total. lia.
  - intros e f Hf Hrej b'.
    assert (Hlt : (a < List.length (objects b))%nat) by (eapply lookup_lt_Some; exact Hl).
    unfold b', notifyListener. rewrite Hl, Hbp. simpl l_pending.
    set (b1 := set_objects (<[a := with_pending (l_pending l + 1) l]> (objects b)) b).
    assert (Hb1 : objects b1 !! a = Some (with_pending (l_pending l + 1) l)).
    { unfold b1. simpl. apply list_lookup_insert_eq. exact Hlt. }
    assert (Hp : proceed a e b1 = add_skipped (a, e) b1).
    { unfold proceed. rewrite Hb1. simpl. rewrite Hf, Hrej. reflexivity. }
    rewrite Hp. split; [|split].
    + destruct (_ >? _); reflexivity.
    + exists (with_pending (l_pending l + 1) l). destruct (_ >? _); simpl;
        rewrite list_lookup_insert_eq by exact Hlt; split; reflexivity.
    + intros Hle.
      destruct (Z.gtb_spec (l_pending l + 1) (backpressureThreshold (cfg b))) as [Hgt|_];
        [lia|].
      split; [|reflexivity]. unfold rejected. simpl. rewrite count_snoc. simpl.
      rewrite Nat.eqb_refl. lia.
  - intros later l' Hl'. rewrite run_app_bus in Hl'. fold b in Hl'.
    destruct (run_extends a later b) as [Hmono Hobj].
    destruct (Hobj l Hl) as (l'' & Hl'' & Hbp'' & _).
    rewrite Hl' in Hl''. injection Hl'' as <-.
    pose proof (run_accounted (ls ++ later) c a) as Hacc.
    rewrite run_app_bus in Hacc. fold b in Hacc.
    unfold accounted in Hacc. rewrite Hl' in Hacc.
    rewrite Hacc by congruence. unfold total. lia.
Qed.

Lemma C9_filter_rejected_delivery_keeps_pending_witness :
  let b := EventBus.run picky_listener_run (new no_config) in
  let l := {| l_id := Ident "lst" 1 "n"; l_callback := 7; l_priority := Normal;
              l_filter := Some (fun _ : value => false);
              l_backpressure := true; l_pending := 1 |} in
  objects b !! 0%nat = Some l /\ l_backpressure l = true /\
  rejected 0 b = 1%nat /\ in_flight 0 b = 0%nat /\
  l_pending l = Z.of_nat (in_flight 0 b) + Z.of_nat (rejected 0 b).
Proof.
  intros b l.
  split; [reflexivity|]. split; [reflexivity|]. split; [reflexivity|].
  split; [reflexivity|].
  exact (proj1 (C9_filter_rejected_delivery_keeps_pending no_config picky_listener_run
                  0%nat l eq_refl eq_refl)).
Defined.

End BusProperties.

(** ** Sync orchestrator *)

Section SyncProperties.
Import JS DataSync.

(** *** Methods that leave the busy flag and the suspended cycles alone *)

Lemma ret_keeps {A : Type} (a : A) : keeps_guard (ret a).
Proof. intros s. reflexivity. Qed.

Lemma throw_keeps {A : Type} (e : error) : keeps_guard (@throw A e).
Proof. intros s. reflexivity. Qed.

Lemma lift_keeps {A : Type} (o : outcome A) : keeps_guard (lift o).
Proof. intros s. reflexivity. Qed.

Lemma gets_keeps {A : Type} (f : t -> A) : keeps_guard (gets f).
Proof. intros s. reflexivity. Qed.

Lemma modify_keeps (f : t -> t) : (forall s, guard (f s) = guard s) -> keeps_guard (modify f).
Proof. intros Hf s. apply Hf. Qed.

Lemma mbind_keeps {A B : Type} (m : M A) (k : A -> M B) :
  keeps_guard m -> (forall a, keeps_guard (k a)) -> keeps_guard (mbind m k).
Proof.
  intros Hm Hk s. unfold mbind. specialize (Hm s).
  destruct (m s) as [[a|e] s']; simpl in *.
  - rewrite Hk. exact Hm.
  - exact Hm.
Qed.

Lemma try_catch_keeps {A : Type} (m : M A) (h : error -> M A) :
  keeps_guard m -> (forall e, keeps_guard (h e)) -> keeps_guard (try_catch m h).
Proof.
  intros Hm Hh s. unfold try_catch. specialize (Hm s).
  destruct (m s) as [[a|e] s']; simpl in *.
  - exact Hm.
  - rewrite Hh. exact Hm.
Qed.

Lemma mapM_keeps {A B : Type} (f : A -> M B) (l : list A) :
  (forall a, keeps_guard (f a)) -> keeps_guard (mapM f l).
Proof.
  intros Hf. induction l as [|x l IH]; simpl; [apply ret_keeps|].
  apply mbind_keeps; [apply Hf|]. intros y.
  apply mbind_keeps; [exact IH|]. intros ys. apply ret_keeps.
Qed.

Lemma emit_keeps name p : keeps_guard (emit name p).
Proof. intros s. reflexivity. Qed.

(** handleSyncComplete never gets past the call of setMetadata, and not
    that far when the queue holds something. *)
Lemma handleSyncComplete_throws c timestamp n cs s :
  let st := {| lastSuccessfulSync := timestamp; changesProcessed := ChangesCount n;
               conflictsResolved := Z.of_nat (List.length cs) |} in
  let s' := set_syncStats (Some st) (set_lastSyncTimestamp (Some timestamp) s) in
  handleSyncComplete c timestamp (ChangesCount n) cs s =
  match syncQueue s with
  | [] => (Throw (TypeError "this.stateManager.setMetadata is not a function"),
           set_syncQueue [] s')
  | _ :: _ => (Throw (TypeError "data.changes.some is not a function"), s')
  end.
Proof.
  intros st s'. unfold handleSyncComplete, mbind, modify, gets, lift. simpl.
  destruct (syncQueue s); reflexivity.
Qed.

Lemma publish_sync_complete_count c timestamp n cs s :
  let st := {| lastSuccessfulSync := timestamp; changesProcessed := ChangesCount n;
               conflictsResolved := Z.of_nat (List.length cs) |} in
  let s' := set_syncStats (Some st)
              (set_lastSyncTimestamp (Some timestamp)
                 (set_published
                    (published s ++
                     [("sync-complete", SyncComplete timestamp (ChangesCount n) cs)]) s)) in
  publish_sync_complete c timestamp (ChangesCount n) cs s =
  (Return tt, match syncQueue s with [] => set_syncQueue [] s' | _ :: _ => s' end).
Proof.
  intros st s'. unfold publish_sync_complete, try_catch, mbind at 1, emit, modify.
  rewrite handleSyncComplete_throws. simpl. destruct (syncQueue s); reflexivity.
Qed.

Lemma publish_sync_complete_keeps c timestamp n cs :
  keeps_guard (publish_sync_complete c timestamp (ChangesCount n) cs).
Proof.
  intros s. rewrite publish_sync_complete_count. simpl. destruct (syncQueue s); reflexivity.
Qed.

Lemma resolveConflict_keeps ev c : keeps_guard (DataSync.resolveConflict ev c).
Proof.
  intros s. unfold DataSync.resolveConflict.
  destruct (ConflictResolver.resolveConflict _ _ _ _ _) as [[[o|] r'] n]; reflexivity.
Qed.

Lemma handleConflict_keeps ev c : keeps_guard (handleConflict ev c).
Proof.
  unfold handleConflict. apply mbind_keeps; [apply resolveConflict_keeps|]. intros r.
  apply mbind_keeps.
  - unfold applyResolution. apply mbind_keeps.
    + apply modify_keeps. reflexivity.
    + intros _. destruct (truthy _); [apply throw_keeps | apply ret_keeps].
  - intros _. apply mbind_keeps; [apply emit_keeps|]. intros _. apply ret_keeps.
Qed.

Lemma handleBatchConflicts_keeps ev cs : keeps_guard (handleBatchConflicts ev cs).
Proof.
  unfold handleBatchConflicts. apply mapM_keeps. intros c.
  apply mbind_keeps; [apply handleConflict_keeps|]. intros r. apply ret_keeps.
Qed.

Lemma absorb_guard ev rp res s : guard (snd (absorb ev rp res s)) = guard s.
Proof.
  unfold absorb. destruct rp as [br|e]; [|reflexivity].
  pose proof (handleBatchConflicts_keeps ev (br_conflicts br) s) as H.
  destruct (handleBatchConflicts ev (br_conflicts br) s) as [[rs|e] s']; exact H.
Qed.

Lemma sendBatch_begin_guard c batch s : guard (snd (sendBatch_begin c batch s)) = guard s.
Proof. unfold sendBatch_begin. destruct (transport_defined (members s)); reflexivity. Qed.

Lemma sendBatch_end_guard batchId rp s : guard (snd (sendBatch_end batchId rp s)) = guard s.
Proof. unfold sendBatch_end. destruct (transport_defined (members s)); reflexivity. Qed.

Lemma next_batch_guard c changes batches res s :
  guard (snd (next_batch c changes batches res s)) = guard s.
Proof.
  unfold next_batch. destruct batches as [|b rest]; [reflexivity|].
  pose proof (sendBatch_begin_guard c b s) as H.
  destruct (sendBatch_begin c b s) as [batchId s']. exact H.
Qed.

Lemma collectChanges_state c s : snd (collectChanges c s) = s.
Proof.
  unfold collectChanges, mbind, gets, lift. reflexivity.
Qed.

(** The end of sync() clears the flag, however the [try] block ended. *)
Lemma sync_end_guard c changes res s :
  guard (snd (sync_end c changes res s)) = (false, cycles s).
Proof.
  unfold sync_end, finally.
  set (body := try_catch _ _).
  assert (Hk : keeps_guard body).
  { unfold body. apply try_catch_keeps.
    - apply mbind_keeps.
      + unfold call_handleSyncResults. apply mbind_keeps; [apply gets_keeps|].
        intros h. destruct (handleSyncResults h); [apply lift_keeps | apply throw_keeps].
      + intros _. apply mbind_keeps; [apply modify_keeps; reflexivity|].
        intros _. apply publish_sync_complete_keeps.
    - intros e. apply emit_keeps. }
  specialize (Hk s). destruct (body s) as [o s']. simpl in *.
  unfold guard in *. simpl. injection Hk as _ Hc. rewrite Hc. reflexivity.
Qed.

(** The end of sync() publishes exactly one event, sync-complete or
    sync-error. *)
Lemma sync_end_published c changes res s :
  exists name p,
    published (snd (sync_end c changes res s)) = published s ++ [(name, p)] /\
    (name = "sync-complete" \/ name = "sync-error").
Proof.
  unfold sync_end, finally, try_catch, call_handleSyncResults.
  unfold mbind at 1. unfold mbind at 1. unfold gets. simpl.
  destruct (handleSyncResults (members s)) as [f|]; simpl.
  - unfold lift. destruct (f res) as [[]|e]; simpl.
    + unfold mbind, modify. simpl. rewrite publish_sync_complete_count. simpl.
      eexists _, _. split; [|left; reflexivity].
      destruct (syncQueue _); reflexivity.
    + eexists _, _. split; [reflexivity | right; reflexivity].
  - eexists _, _. split; [reflexivity | right; reflexivity].
Qed.

Lemma sync_guard c s s' :
  sync c s = Some s' ->
  (isSyncing s = true /\ s' = s) \/
  (isSyncing s = false /\
   (guard s' = (false, cycles s) \/ exists cy, guard s' = (true, cycles s ++ [cy]))).
Proof.
  unfold sync. destruct (isSyncing s) eqn:Hbusy.
  - intros [= <-]. left. split; reflexivity.
  - intros Hs. right. split; [reflexivity|].
    pose proof (collectChanges_state c (set_isSyncing true s)) as Hst.
    destruct (collectChanges c (set_isSyncing true s)) as [[changes|e] s2]; simpl in Hst;
      subst s2.
    + destruct changes as [|ch changes].
      * injection Hs as <-. left. reflexivity.
      * destruct (createBatches _ _) as [batches|]; [|discriminate].
        pose proof (next_batch_guard c (ch :: changes) batches empty_results
                      (set_isSyncing true s)) as Hg.
        destruct (next_batch _ _ _ _ _) as [cy s3]. simpl in Hg.
        injection Hs as <-. right. exists cy. unfold guard in *. simpl.
        injection Hg as Hi Hc. rewrite Hc, Hi. reflexivity.
    + injection Hs as <-. left. reflexivity.
Qed.

Lemma settle_guard i ev rp s :
  guard_inv s -> guard_inv (settle i ev rp s).
Proof.
  intros Hinv. unfold settle. destruct (cycles s !! i) as [cy|] eqn:Hi; [|exact Hinv].
  destruct Hinv as [[_ Hc] | [Hb (cy0 & Hc)]]; [rewrite Hc in Hi; discriminate|].
  rewrite Hc in Hi. destruct i as [|i]; [|discriminate]. rewrite Hc. simpl.
  set (s0 := set_cycles [] s).
  destruct (cy_inflight cy) as [[batchId batch]|].
  - pose proof (sendBatch_end_guard batchId rp s0) as H1.
    destruct (sendBatch_end batchId rp s0) as [rp' s1]. simpl in H1.
    pose proof (absorb_guard ev rp' (cy_results cy) s1) as H2.
    destruct (absorb ev rp' (cy_results cy) s1) as [res s2]. simpl in H2.
    pose proof (next_batch_guard (clk ev) (cy_changes cy) (cy_remaining cy) res s2) as H3.
    destruct (next_batch _ _ _ _ s2) as [cy' s3]. simpl in H3.
    rewrite H2, H1 in H3. unfold guard in H3. simpl in H3. injection H3 as Hi3 Hc3.
    right. simpl. split; [congruence|]. exists cy'. rewrite Hc3. reflexivity.
  - pose proof (sync_end_guard (clk ev) (cy_changes cy) (cy_results cy) s0) as Hg.
    unfold guard in Hg. simpl in Hg. injection Hg as Hi' Hc'.
    left. split; assumption.
Qed.

Lemma step_guard_inv l s s' : guard_inv s -> step l s = Some s' -> guard_inv s'.
Proof.
  intros Hinv. destruct l as [c | i ev rp | c key v]; simpl.
  - intros Hs. destruct (sync_guard c s s' Hs) as [[_ ->] | [Hb [Hg | [cy Hg]]]];
      [exact Hinv | |].
    + destruct Hinv as [[_ Hc] | [Hb' _]]; [|congruence].
      unfold guard in Hg. injection Hg as Hi' Hc'. left. split; congruence.
    + destruct Hinv as [[_ Hc] | [Hb' _]]; [|congruence].
      unfold guard in Hg. injection Hg as Hi' Hc'. right. split; [exact Hi'|].
      exists cy. rewrite Hc', Hc. reflexivity.
  - intros [= <-]. apply settle_guard, Hinv.
  - intros [= <-]. exact Hinv.
Qed.

Lemma run_guard_inv ls s s' : guard_inv s -> run ls s = Some s' -> guard_inv s'.
Proof.
  revert s. induction ls as [|l ls IH]; intros s Hinv; simpl.
  - intros [= <-]. exact Hinv.
  - destruct (step l s) as [s1|] eqn:Hs; [|discriminate].
    apply IH. eapply step_guard_inv; eassumption.
Qed.

(** C4.  From an idle orchestrator, in every state a run can reach: at
    most one sync cycle is suspended; the busy flag is set exactly while
    one is, so once a cycle has ended, however it ended, the flag is
    clear; a call of sync() while the flag is set returns at once and
    changes nothing, it publishes no event; and the resumption that ends a
    cycle clears the flag and publishes exactly one event, sync-complete
    or sync-error. *)
Theorem C4_single_cycle_and_guard_release (s0 : t) (ls : list label) (s : t) :
  isSyncing s0 = false -> cycles s0 = [] ->
  run ls s0 = Some s ->
  (List.length (cycles s) <= 1)%nat /\
  (isSyncing s = true <-> cycles s <> []) /\
  (forall c, isSyncing s = true -> sync c s = Some s) /\
  (forall i ev rp cy, cycles s !! i = Some cy -> cy_inflight cy = None ->
     let s' := settle i ev rp s in
     isSyncing s' = false /\ cycles s' = [] /\
     exists name p, published s' = published s ++ [(name, p)] /\
                    (name = "sync-complete" \/ name = "sync-error")).
Proof.
  intros Hflag Hnone Hrun.
  assert (Hinv : guard_inv s).
  { eapply run_guard_inv; [|exact Hrun]. left. split; assumption. }
  split; [|split; [|split]].
  - destruct Hinv as [[_ ->] | [_ (cy & ->)]]; simpl; lia.
  - destruct Hinv as [[Hb ->] | [Hb (cy & ->)]]; rewrite Hb; split; congruence.
  - intros c Hb. unfold sync. rewrite Hb. reflexivity.
  - intros i ev rp cy Hi Hlast s'.
    destruct Hinv as [[_ Hc] | [Hb (cy0 & Hc)]]; [rewrite Hc in Hi; discriminate|].
    rewrite Hc in Hi. destruct i as [|i]; [|discriminate]. injection Hi as ->.
    unfold s', settle. rewrite Hc. simpl. rewrite Hlast.
    pose proof (sync_end_guard (clk ev) (cy_changes cy) (cy_results cy)
                  (set_cycles [] s)) as Hg.
    unfold guard in Hg. simpl in Hg. injection Hg as Hi' Hc'.
    split; [exact Hi'|]. split; [exact Hc'|].
    apply (sync_end_published (clk ev) (cy_changes cy) (cy_results cy) (set_cycles [] s)).
Qed.

Lemma C4_single_cycle_and_guard_release_witness :
  let s0 := one_change_start installed in
  isSyncing s0 = false /\ cycles s0 = [] /\
  exists s, run busy_run s0 = Some s /\
            (List.length (cycles s) <= 1)%nat /\
            (isSyncing s = true <-> cycles s <> []).
Proof.
  intros s0. split; [reflexivity|]. split; [reflexivity|].
  destruct (run busy_run s0) as [s|] eqn:Hrun.
  - exists s. split; [reflexivity|].
    destruct (C4_single_cycle_and_guard_release s0 busy_run s eq_refl eq_refl Hrun)
      as (H1 & H2 & _).
    split; [exact H1 | exact H2].
  - vm_compute in Hrun. discriminate Hrun.
Defined.

(** The scenario of the description: sync() is called twice before the
    first call resolves.  One event ends the pair, and the flag is clear
    afterwards. *)
Example overlapping_sync_calls :
  exists s,
    run overlapping_run (one_change_start installed) = Some s /\
    List.length (events_named "sync-complete" s ++ events_named "sync-error" s) = 1%nat /\
    isSyncing s = false /\ cycles s = [].
Proof. eexists. split; [reflexivity|]. repeat split. Qed.

(** *** The end of a completed cycle *)

(** When handleSyncResults returns, the cycle publishes sync-complete and
    its handler records the statistics; the handler then throws, so the
    sync queue and the state store are as they were. *)
Lemma sync_end_completed c changes res s f :
  handleSyncResults (members s) = Some f -> f res = Return tt ->
  let s' := snd (sync_end c changes res s) in
  published s' =
    published s ++
    [("sync-complete",
      SyncComplete (now c) (ChangesCount (Z.of_nat (List.length changes))) (conflicts res))] /\
  syncStats s' =
    Some {| lastSuccessfulSync := now c;
            changesProcessed := ChangesCount (Z.of_nat (List.length changes));
            conflictsResolved := Z.of_nat (List.length (conflicts res)) |} /\
  lastSyncTimestamp s' = Some (now c) /\
  isSyncing s' = false /\
  syncQueue s' = syncQueue s /\
  stateManager s' = stateManager s.
Proof.
  intros Hf Hret s'. unfold s', sync_end, finally, try_catch, call_handleSyncResults.
  unfold mbind, gets, modify, lift. cbv beta iota. rewrite Hf. cbv beta iota.
  rewrite Hret. cbv beta iota. rewrite publish_sync_complete_count. cbv beta iota zeta.
  destruct (syncQueue (set_lastSyncTimestamp (Some (now c)) s)) eqn:Hq;
    simpl in Hq; simpl; rewrite ?Hq; repeat split; reflexivity.
Qed.

(** As shipped the class defines no handleSyncResults: a cycle that had
    changes to send ends in sync-error. *)
Lemma sync_end_as_shipped c changes res s :
  handleSyncResults (members s) = None ->
  published (snd (sync_end c changes res s)) =
  published s ++
  [("sync-error",
    SyncError (TypeError "this.handleSyncResults is not a function") (now c))].
Proof.
  intros Hf. unfold sync_end, finally, try_catch, call_handleSyncResults.
  unfold mbind, gets, modify, lift. cbv beta iota. rewrite Hf. reflexivity.
Qed.

(** C5, on the code.  A store with the key 'x' written, a sync queue that
    holds the change to 'x', a host that supplies the transport and
    handleSyncResults; sync() is called and the cycle completes with one
    change processed.  The sync-complete event is published with the
    timestamp, the count and the conflicts, and the statistics are
    recorded; but the entry for 'x' is still in the queue and the state
    store has received nothing: handleSyncComplete reads the count as an
    array and throws, and SrvraStateManager has no setMetadata. *)
Theorem C5_completed_cycle_keeps_queue_and_stamps_nothing :
  exists s,
    run one_change_run (one_change_start installed) = Some s /\
    events_named "sync-complete" s = [SyncComplete 40 (ChangesCount 1) []] /\
    syncStats s =
      Some {| lastSuccessfulSync := 40; changesProcessed := ChangesCount 1;
              conflictsResolved := 0 |} /\
    isSyncing s = false /\
    syncQueue s = [queued_x] /\
    stateManager s =
      snd (StateManager.setState (Clock 10 "a") "x" (num 1) StateManager.no_options
             (StateManager.new StateManager.no_config)) /\
    events_named "sync-success" s = [].
Proof. eexists. split; [reflexivity|]. repeat split. Qed.

Example as_shipped_cycle_ends_in_error :
  exists s,
    run one_change_run (one_change_start as_shipped) = Some s /\
    events_named "sync-complete" s = [] /\
    events_named "sync-error" s =
      [SyncError (TypeError "this.handleSyncResults is not a function") 40] /\
    isSyncing s = false.
Proof. eexists. split; [reflexivity|]. repeat split. Qed.

End SyncProperties.

(** * Further properties *)

(** ** Insertion-ordered maps and the stable sort *)

Section MapProperties.
Import JS.
Context {K V : Type} `{EqDecision K}.
Implicit Types (k : K) (v : V) (m : list (K * V)).

Lemma map_get_set_eq k v m : map_get k (map_set k v m) = Some v.
Proof.
  induction m as [|[k' v'] m IH]; simpl.
  - rewrite decide_True; reflexivity.
  - destruct (decide (k = k')) as [->|Hne]; simpl.
    + rewrite decide_True; reflexivity.
    + rewrite decide_False by exact Hne. exact IH.
Qed.

Lemma map_get_set_ne k k' v m : k <> k' -> map_get k' (map_set k v m) = map_get k' m.
Proof.
  intros Hne. induction m as [|[k0 v0] m IH]; simpl.
  - rewrite decide_False by congruence. reflexivity.
  - destruct (decide (k = k0)) as [->|Hne0]; simpl.
    + rewrite !decide_False by congruence. reflexivity.
    + destruct (decide (k' = k0)); [reflexivity | exact IH].
Qed.

Lemma map_get_None_keys k m : map_get k m = None <-> k ∉ map fst m.
Proof.
  induction m as [|[k0 v0] m IH]; simpl.
  - split; [intros _; apply not_elem_of_nil | reflexivity].
  - rewrite not_elem_of_cons. destruct (decide (k = k0)) as [->|Hne].
    + split; [discriminate | intros [Hc _]; congruence].
    + rewrite IH. tauto.
Qed.

Lemma map_set_fresh k v m : map_get k m = None -> map_set k v m = m ++ [(k, v)].
Proof.
  induction m as [|[k0 v0] m IH]; simpl; [reflexivity|].
  destruct (decide (k = k0)); [discriminate|]. intros Hm. rewrite IH by exact Hm. reflexivity.
Qed.

Lemma map_set_keys_known k v m :
  map_get k m <> None -> map fst (map_set k v m) = map fst m.
Proof.
  induction m as [|[k0 v0] m IH]; simpl; [congruence|].
  destruct (decide (k = k0)) as [->|Hne]; simpl; [reflexivity|].
  intros Hm. rewrite IH by exact Hm. reflexivity.
Qed.

Lemma map_delete_set_fresh k v m : map_get k m = None -> map_delete k (map_set k v m) = m.
Proof.
  induction m as [|[k0 v0] m IH]; simpl.
  - rewrite decide_True; reflexivity.
  - destruct (decide (k = k0)) as [->|Hne]; [discriminate|]. simpl.
    rewrite decide_False by exact Hne. intros Hm. rewrite IH by exact Hm. reflexivity.
Qed.

End MapProperties.

Section SortProperties.
Import JS.
Context {A : Type} (rank : A -> Z).

Lemma insert_desc_Permutation x l : insert_desc rank x l ≡ₚ x :: l.
Proof.
  induction l as [|y l IH]; simpl; [reflexivity|].
  destruct (rank y <=? rank x); [reflexivity|].
  rewrite IH. apply Permutation_swap.
Qed.

Lemma sort_desc_Permutation l : sort_desc rank l ≡ₚ l.
Proof.
  induction l as [|x l IH]; simpl; [reflexivity|].
  rewrite insert_desc_Permutation. rewrite IH. reflexivity.
Qed.

Lemma insert_desc_sorted x l :
  StronglySorted (descending rank) l -> StronglySorted (descending rank) (insert_desc rank x l).
Proof.
  induction l as [|y l IH]; intros Hs; simpl.
  - constructor; [constructor | constructor].
  - apply StronglySorted_inv in Hs as [Hs Hall].
    destruct (Z.leb_spec (rank y) (rank x)) as [Hle|Hgt].
    + constructor; [constructor; assumption|].
      constructor; [exact Hle|].
      eapply Forall_impl; [exact Hall|]. unfold descending. intros z Hz. simpl in Hz. lia.
    + constructor; [apply IH, Hs|].
      rewrite insert_desc_Permutation. constructor; [unfold descending; lia | exact Hall].
Qed.

Lemma sort_desc_sorted l : StronglySorted (descending rank) (sort_desc rank l).
Proof.
  induction l as [|x l IH]; simpl; [constructor | apply insert_desc_sorted, IH].
Qed.

Lemma insert_desc_stable (p : Z) x l :
  filter (fun y => rank y = p) (insert_desc rank x l) =
  filter (fun y => rank y = p) (x :: l).
Proof.
  induction l as [|y l IH]; simpl; [reflexivity|].
  destruct (Z.leb_spec (rank y) (rank x)) as [Hle|Hgt]; [reflexivity|].
  rewrite (filter_cons _ y (insert_desc rank x l)), IH.
  rewrite (filter_cons _ x (y :: l)), (filter_cons _ y l), (filter_cons _ x l).
  destruct (decide (rank y = p)), (decide (rank x = p)); try reflexivity. lia.
Qed.

Lemma sort_desc_stable (p : Z) l :
  filter (fun y => rank y = p) (sort_desc rank l) = filter (fun y => rank y = p) l.
Proof.
  induction l as [|x l IH]; simpl; [reflexivity|].
  rewrite insert_desc_stable, !filter_cons, IH. reflexivity.
Qed.

End SortProperties.

(** ** State store: reads, history contents, batches, merges, teardown *)

Section MoreStoreProperties.
Import JS StateManager.

Lemma state_get_setState_eq clk key v o s :
  state_get key (snd (setState clk key v o s)) = v.
Proof. unfold state_get. simpl. rewrite map_get_set_eq. reflexivity. Qed.

Lemma state_get_setState_ne clk key key' v o s :
  key <> key' -> state_get key' (snd (setState clk key v o s)) = state_get key' s.
Proof. intros Hne. unfold state_get. simpl. rewrite map_get_set_ne by exact Hne. reflexivity. Qed.

(** X1.  A value written with setState is what getState returns for that
    key, every other key reads as before, and a key never written reads as
    undefined. *)
Theorem X1_getState_after_setState
    (clk : clock) (key key' : string) (v : value) (o : options) (s : t) (c : config_in) :
  let s' := snd (setState clk key v o s) in
  getState key false s' = Plain v /\
  (key' <> key -> getState key' false s' = getState key' false s) /\
  getState key false (new c) = Plain undefined.
Proof.
  intros s'. unfold getState. split; [|split].
  - unfold s'. rewrite state_get_setState_eq. reflexivity.
  - intros Hne. unfold s'. rewrite state_get_setState_ne by congruence. reflexivity.
  - reflexivity.
Qed.

Lemma trackHistory_last u pv cf h :
  (forall b, historySize cf = Some b -> 1 <= b) ->
  exists h0, trackHistory u pv cf h = h0 ++ [HistoryRecord u pv].
Proof.
  intros Hhs. unfold trackHistory.
  destruct (historySize cf) as [bound|]; simpl; [|eauto].
  specialize (Hhs bound eq_refl).
  destruct (Z.gtb_spec (Z.of_nat (List.length (h ++ [HistoryRecord u pv]))) bound)
    as [Hgt|Hle].
  - destruct h as [|x h]; simpl in *; [lia|]. rewrite drop_0. eauto.
  - eauto.
Qed.

(** X2.  With room for at least one record ([historySize] is at least 1,
    or undefined), the last update of a key just written is that write: it
    carries the new version, the value, and the value the key had before.
    getState with metadata reports it together with the store-wide
    version. *)
Theorem X2_last_update_is_the_write
    (clk : clock) (key : string) (v : value) (o : options) (s : t) :
  (forall b, historySize (cfg s) = Some b -> 1 <= b) ->
  let s' := snd (setState clk key v o s) in
  exists r,
    getLastUpdate key s' = Some r /\
    upd_key (hr_update r) = key /\
    upd_value (hr_update r) = v /\
    upd_version (hr_update r) = version s + 1 /\
    hr_previousValue r = state_get key s /\
    getState key true s' = WithMetadata v (version s + 1) (Some r).
Proof.
  intros Hhs s'. unfold getState, getLastUpdate, s'. rewrite state_get_setState_eq.
  simpl history.
  match goal with |- context [trackHistory ?u ?pv _ _] =>
    destruct (trackHistory_last u pv (cfg s) (history s) Hhs) as [h0 Hh0];
    exists (HistoryRecord u pv) end.
  rewrite Hh0, filter_app, filter_cons_True by reflexivity.
  rewrite filter_nil, last_snoc. repeat split; reflexivity.
Qed.

Lemma X2_last_update_is_the_write_witness :
  let s := new no_config in
  (forall b, historySize (cfg s) = Some b -> 1 <= b) /\
  exists r,
    getLastUpdate "x" (snd (setState (Clock 5 "a") "x" (num 7) no_options s)) = Some r /\
    upd_version (hr_update r) = 1 /\ hr_previousValue r = undefined.
Proof.
  intros s.
  assert (Hroom : forall b, historySize (cfg s) = Some b -> 1 <= b).
  { intros b Hb. simpl in Hb. injection Hb as <-. lia. }
  split; [exact Hroom|].
  destruct (X2_last_update_is_the_write (Clock 5 "a") "x" (num 7) no_options s Hroom)
    as (r & Hr & _ & _ & Hv & Hp & _).
  exists r. split; [exact Hr|]. split; [exact Hv | exact Hp].
Defined.

(** *** The history keeps the newest records *)

Lemma setState_history_full clk key v o s :
  (forall b, historySize (cfg s) = Some b -> 0 <= b) -> 0 <= version s ->
  history_full s -> history_full (snd (setState clk key v o s)).
Proof.
  unfold history_full. intros Hhs Hv Hf. simpl. unfold trackHistory.
  rewrite List.length_app. simpl.
  destruct (historySize (cfg s)) as [bound|]; simpl in *.
  - specialize (Hhs bound eq_refl).
    pose proof (Z.min_spec (version s) bound) as Hm1.
    pose proof (Z.min_spec (version s + 1) bound) as Hm2.
    destruct (Z.gtb_spec (Z.of_nat (List.length (history s) + 1)) bound) as [Hgt|Hle].
    + rewrite length_drop, List.length_app. simpl. lia.
    + rewrite List.length_app. simpl. lia.
  - rewrite List.length_app. simpl. lia.
Qed.

Lemma run_history_full ls c :
  (forall b, historySize (make_config c) = Some b -> 0 <= b) ->
  history_full (run ls (new c)).
Proof.
  intros Hhs. induction ls as [|l ls IH] using rev_ind.
  - unfold history_full. simpl cfg. simpl history. simpl version.
    destruct (historySize (make_config c)) as [bound|] eqn:Hb; simpl; [|reflexivity].
    specialize (Hhs bound eq_refl). pose proof (Z.min_spec 0 bound). lia.
  - rewrite run_snoc. destruct (is_setState l) eqn:E.
    + destruct l; try discriminate. simpl. apply setState_history_full; [| |exact IH].
      * rewrite run_cfg. exact Hhs.
      * rewrite run_version. simpl. lia.
    + unfold history_full in *.
      rewrite (step_history_other _ _ E), step_cfg, step_version, E, Z.add_0_r. exact IH.
Qed.

(** X3.  After [n] setState calls on a fresh store whose [historySize] is
    not a negative number, the history holds the newest updates, oldest
    first: min(n, historySize) of them (all [n] when [historySize] is
    undefined), and their versions are the consecutive integers ending at
    [n].  Once the bound is reached each new record evicts the oldest
    one. *)
Theorem X3_history_keeps_newest (c : config_in) (ls : list label) :
  (forall b, historySize (make_config c) = Some b -> 0 <= b) ->
  let n := Z.of_nat (setState_calls ls) in
  let kept := kept_of n (historySize (make_config c)) in
  history_versions (run ls (new c)) = seqZ (n - kept + 1) kept.
Proof.
  intros Hhs n kept.
  destruct (run_history_inv ls c Hhs) as [_ Hver].
  pose proof (run_history_full ls c Hhs) as Hfull. unfold history_full in Hfull.
  rewrite run_cfg in Hfull. simpl cfg in Hfull.
  rewrite run_version in Hfull, Hver. simpl version in Hfull, Hver.
  rewrite Z.add_0_l in Hfull, Hver. fold n in Hfull, Hver.
  rewrite Hver, Hfull. reflexivity.
Qed.

Lemma X3_history_keeps_newest_witness :
  let c := ConfigIn (Some (Some 2)) None None None in
  let ls := [SetState (Clock 1 "a") "x" (num 1) no_options;
             SetState (Clock 2 "b") "y" (num 2) no_options;
             SetState (Clock 3 "c") "x" (num 3) no_options] in
  (forall b, historySize (make_config c) = Some b -> 0 <= b) /\
  history_versions (run ls (new c)) = [2; 3].
Proof.
  intros c ls.
  assert (Hpos : forall b, historySize (make_config c) = Some b -> 0 <= b).
  { intros b Hb. simpl in Hb. injection Hb as <-. lia. }
  split; [exact Hpos|].
  exact (X3_history_keeps_newest c ls Hpos).
Defined.

End MoreStoreProperties.

(** ** State store: sequences of writes *)

Section WriteSequences.
Import JS StateManager.

(** A fold whose every step is one setState call: the version grows by
    the number of steps, and each key ends with the value of the last step
    that wrote it. *)
Lemma fold_of_writes {X Acc : Type} (key_of : X -> string) (val_of : X -> value)
    (f : Acc * t -> X -> Acc * t) :
  (forall acc x, exists clk o,
      snd (f acc x) = snd (setState clk (key_of x) (val_of x) o (snd acc))) ->
  forall l acc k,
    version (snd (foldl f acc l)) = version (snd acc) + Z.of_nat (List.length l) /\
    state_get k (snd (foldl f acc l)) =
      match last (filter (fun x => key_of x = k) l) with
      | Some x => val_of x
      | None => state_get k (snd acc)
      end.
Proof.
  intros Hf l acc k. induction l as [|x l [IHv IHs]] using rev_ind.
  - simpl. split; [lia | reflexivity].
  - rewrite foldl_app. simpl foldl.
    destruct (Hf (foldl f acc l) x) as (clk & o & ->).
    rewrite List.length_app, filter_app. simpl List.length. split.
    + rewrite setState_version, IHv. lia.
    + destruct (decide (key_of x = k)) as [Hk|Hk].
      * rewrite filter_cons_True by exact Hk. rewrite filter_nil, last_snoc.
        rewrite <- Hk. apply state_get_setState_eq.
      * rewrite filter_cons_False by exact Hk. rewrite filter_nil, app_nil_r.
        rewrite state_get_setState_ne by exact Hk. exact IHs.
Qed.

Lemma batch_step_is_write acc i :
  exists clk o,
    snd (batch_step acc i) = snd (setState clk (bi_key i) (bi_value i) o (snd acc)).
Proof. exists (bi_clock i), (bi_options i). reflexivity. Qed.

Lemma batch_results l s k :
  map_get k (fst (foldl batch_step ([], s) l)) =
  (fun i => generateId "upd" (bi_clock i)) <$> last (filter (fun i => bi_key i = k) l).
Proof.
  induction l as [|i l IH] using rev_ind; [reflexivity|].
  rewrite foldl_app, filter_app. simpl foldl. unfold batch_step at 1. simpl.
  destruct (decide (bi_key i = k)) as [Hk|Hk].
  - rewrite filter_cons_True by exact Hk. rewrite filter_nil, last_snoc. simpl.
    rewrite <- Hk. apply map_get_set_eq.
  - rewrite filter_cons_False by exact Hk. rewrite filter_nil, app_nil_r.
    rewrite map_get_set_ne by exact Hk. exact IH.
Qed.

(** X4.  batch applies its updates in order, one setState each: the
    version grows by the number of updates; a key that occurs several
    times ends with the value of its last occurrence, and the result map
    holds the update id of that last occurrence; a key that does not occur
    keeps its value and has no entry in the result map. *)
Theorem X4_batch_applies_updates_in_order
    (clk : clock) (updates : list batch_item) (s : t) (k : string) :
  let r := batch clk updates s in
  let final := last (filter (fun i => bi_key i = k) updates) in
  version (snd r) = version s + Z.of_nat (List.length updates) /\
  state_get k (snd r) = match final with
                        | Some i => bi_value i
                        | None => state_get k s
                        end /\
  map_get k (snd (fst r)) = (fun i => generateId "upd" (bi_clock i)) <$> final.
Proof.
  intros r final. unfold r, batch.
  pose proof (fold_of_writes bi_key bi_value batch_step batch_step_is_write
                updates ([], s) k) as [Hv Hs].
  pose proof (batch_results updates s k) as Hr.
  destruct (foldl batch_step ([], s) updates) as [results s']. simpl in *.
  split; [exact Hv|]. split; [exact Hs | exact Hr].
Qed.

(** *** merge *)

Section MergeProperties.
Variable same_object : value -> value -> bool.

Lemma write_is_write clk acc (w : string * value * string) :
  exists c o,
    snd (write clk acc w) = snd (setState c (fst (fst w)) (snd (fst w)) o (snd acc)).
Proof. exists (clk (fst acc)), (Options None (Some (snd w))). reflexivity. Qed.

Lemma classify_sorted_out s l :
  NoDup (map fst l) -> sorted_out same_object s l (classify same_object s l).
Proof.
  unfold classify. induction l as [|[k v] l IH] using rev_ind; intros Hnd.
  - split; [reflexivity|]. intros k v Hin. apply elem_of_nil in Hin. contradiction.
  - rewrite List.map_app in Hnd. apply NoDup_app in Hnd as (Hnd & Hfresh & _).
    specialize (IH Hnd). destruct IH as [Hperm Hin].
    assert (Hk : k ∉ map fst l).
    { intros Hc. apply (Hfresh k Hc). simpl. apply list_elem_of_here. }
    rewrite foldl_app. simpl foldl.
    destruct (foldl (classify_step same_object s) ([], []) l) as [cs us].
    simpl in Hperm, Hin.
    assert (Hkc : map_get k cs = None).
    { apply map_get_None_keys. intros Hc. apply Hk. rewrite <- Hperm.
      apply elem_of_app. left. exact Hc. }
    assert (Hku : map_get k us = None).
    { apply map_get_None_keys. intros Hc. apply Hk. rewrite <- Hperm.
      apply elem_of_app. right. exact Hc. }
    unfold classify_step. simpl fst. simpl snd.
    destruct (hasConflict same_object (state_get k s) v) eqn:Hconf.
    + rewrite (map_set_fresh _ _ _ Hkc). split; simpl.
      * rewrite !List.map_app. simpl. rewrite <- Hperm.
        rewrite <- !app_assoc. apply Permutation_app_head. apply Permutation_app_comm.
      * intros k' v' Hin'. apply elem_of_app in Hin' as [Hin'|Hin'].
        -- specialize (Hin k' v' Hin').
           destruct (hasConflict same_object (state_get k' s) v');
             [apply elem_of_app; left; exact Hin | exact Hin].
        -- apply list_elem_of_singleton in Hin'. injection Hin' as -> ->.
           rewrite Hconf. apply elem_of_app. right. apply list_elem_of_here.
    + rewrite (map_set_fresh _ _ _ Hku). split; simpl.
      * rewrite !List.map_app. simpl. rewrite <- Hperm.
        rewrite app_assoc. reflexivity.
      * intros k' v' Hin'. apply elem_of_app in Hin' as [Hin'|Hin'].
        -- specialize (Hin k' v' Hin').
           destruct (hasConflict same_object (state_get k' s) v');
             [exact Hin | apply elem_of_app; left; exact Hin].
        -- apply list_elem_of_singleton in Hin'. injection Hin' as -> ->.
           rewrite Hconf. apply elem_of_app. right. apply list_elem_of_here.
Qed.

Lemma last_filter_unique {X : Type} (key_of : X -> string) (l : list X) (x : X) :
  NoDup (map key_of l) -> x ∈ l ->
  last (filter (fun y => key_of y = key_of x) l) = Some x.
Proof.
  induction l as [|y l IH] using rev_ind; intros Hnd Hin.
  - apply elem_of_nil in Hin. contradiction.
  - rewrite List.map_app in Hnd. apply NoDup_app in Hnd as (Hnd & Hfresh & _).
    rewrite filter_app. apply elem_of_app in Hin as [Hin|Hin].
    + rewrite filter_cons_False, filter_nil, app_nil_r; [apply IH; assumption|].
      intros Heq. apply (Hfresh (key_of x)).
      * apply list_elem_of_fmap. exists x. split; [reflexivity | exact Hin].
      * simpl. rewrite Heq. apply list_elem_of_here.
    + apply list_elem_of_singleton in Hin. subst y.
      rewrite filter_cons_True by reflexivity. rewrite filter_nil. apply last_snoc.
Qed.

Lemma merge_writes_keys strategy cu :
  map (fun w : string * value * string => fst (fst w)) (merge_writes strategy cu) =
  map fst (fst cu) ++ map fst (snd cu).
Proof.
  unfold merge_writes. rewrite List.map_app, !List.map_map. reflexivity.
Qed.

(** X5.  merge of an incoming state with distinct keys writes every
    incoming key exactly once: the two counts it returns add up to the
    number of incoming keys, and the version grows by that number.  A key
    ends with its incoming value unless it is in conflict, and then with
    the value the strategy picks; all other keys keep their values.  Only
    values that both carry a truthy [version] can be in conflict: no
    primitive and no array ever is. *)
Theorem X5_merge_writes_each_key_once
    (clk : nat -> clock) (incoming : list (string * value))
    (mergeStrategy : option string) (s : t) :
  NoDup (map fst incoming) ->
  let r := merge same_object clk incoming mergeStrategy s in
  let strategy := default (StateManager.mergeStrategy (cfg s)) mergeStrategy in
  fst (fst r) + snd (fst r) = Z.of_nat (List.length incoming) /\
  version (snd r) = version s + Z.of_nat (List.length incoming) /\
  (forall k v, (k, v) ∈ incoming ->
     state_get k (snd r) =
       if hasConflict same_object (state_get k s) v
       then applyMergeStrategy (MergeConflict v (state_get k s)) strategy
       else v) /\
  (forall k, k ∉ map fst incoming -> state_get k (snd r) = state_get k s) /\
  (forall cur p, hasConflict same_object cur (VPrim p) = false) /\
  (forall cur l, hasConflict same_object cur (VArr l) = false).
Proof.
  intros Hnd r strategy.
  destruct (classify_sorted_out s incoming Hnd) as [Hperm Hin].
  assert (Hstrat : match mergeStrategy with
                   | Some x => x
                   | None => StateManager.mergeStrategy (cfg s)
                   end = strategy) by (destruct mergeStrategy; reflexivity).
  unfold r, merge. rewrite Hstrat. simpl fst. simpl snd.
  set (cu := classify same_object s incoming) in *.
  set (ws := merge_writes strategy cu).
  assert (Hkeys : map (fun w : string * value * string => fst (fst w)) ws ≡ₚ map fst incoming).
  { unfold ws. rewrite merge_writes_keys. exact Hperm. }
  assert (Hlen : List.length ws = List.length incoming).
  { rewrite <- (List.length_map (fun w : string * value * string => fst (fst w)) ws).
    rewrite <- (List.length_map fst incoming). apply Permutation_length, Hkeys. }
  assert (Hndw : NoDup (map (fun w : string * value * string => fst (fst w)) ws)).
  { rewrite Hkeys. exact Hnd. }
  split; [|split; [|split; [|split; [|split]]]].
  - rewrite <- Hlen. unfold ws, merge_writes.
    rewrite List.length_app, !List.length_map. lia.
  - destruct (fold_of_writes (fun w : string * value * string => fst (fst w))
                (fun w => snd (fst w)) (write clk) (write_is_write clk) ws (O, s) EmptyString)
      as [Hv _].
    rewrite Hv, Hlen. reflexivity.
  - intros k v Hkv. specialize (Hin k v Hkv).
    destruct (fold_of_writes (fun w : string * value * string => fst (fst w))
                (fun w => snd (fst w)) (write clk) (write_is_write clk) ws (O, s) k)
      as [_ Hs].
    rewrite Hs.
    destruct (hasConflict same_object (state_get k s) v).
    + assert (Hw : (k, applyMergeStrategy (MergeConflict v (state_get k s)) strategy,
                    "conflict-resolution") ∈ ws).
      { unfold ws, merge_writes. apply elem_of_app. left.
        apply list_elem_of_fmap. eexists. split; [|exact Hin]. reflexivity. }
      pose proof (last_filter_unique (fun w : string * value * string => fst (fst w)) ws _
                    Hndw Hw) as Hl.
      simpl in Hl. rewrite Hl. reflexivity.
    + assert (Hw : (k, v, "merge") ∈ ws).
      { unfold ws, merge_writes. apply elem_of_app. right.
        apply list_elem_of_fmap. eexists. split; [|exact Hin]. reflexivity. }
      pose proof (last_filter_unique (fun w : string * value * string => fst (fst w)) ws _
                    Hndw Hw) as Hl.
      simpl in Hl. rewrite Hl. reflexivity.
  - intros k Hk.
    destruct (fold_of_writes (fun w : string * value * string => fst (fst w))
                (fun w => snd (fst w)) (write clk) (write_is_write clk) ws (O, s) k)
      as [_ Hs].
    rewrite Hs.
    destruct (last (filter (fun x : string * value * string => fst (fst x) = k) ws))
      as [w|] eqn:Hlast; [|reflexivity].
    exfalso. apply Hk. rewrite <- Hkeys.
    apply last_Some_elem_of, list_elem_of_filter in Hlast as [Hwk Hw].
    apply list_elem_of_fmap. exists w. split; [symmetry; exact Hwk | exact Hw].
  - intros cur p. unfold hasConflict. simpl.
    destruct (negb (truthy cur) || negb (truthy_prim p)); [reflexivity|].
    rewrite andb_false_r. reflexivity.
  - intros cur l. unfold hasConflict. simpl.
    destruct (negb (truthy cur) || false); [reflexivity|].
    rewrite andb_false_r. reflexivity.
Qed.

End MergeProperties.

Lemma X5_merge_writes_each_key_once_witness :
  let same := fun _ _ : value => false in
  let s := snd (setState (Clock 1 "a") "a" (VObj [("version", num 1)]) no_options
                  (new no_config)) in
  let incoming := [("a", VObj [("version", num 2)]); ("b", num 5)] in
  let r := merge same (fun n => Clock 2 "m") incoming None s in
  NoDup (map fst incoming) /\
  fst (fst r) = 1 /\ snd (fst r) = 1 /\
  fst (fst r) + snd (fst r) = Z.of_nat (List.length incoming) /\
  version (snd r) = version s + Z.of_nat (List.length incoming).
Proof.
  intros same s incoming r.
  assert (Hnd : NoDup (map fst incoming)).
  { simpl. apply NoDup_cons_2; [|apply NoDup_singleton].
    intros Hin. apply list_elem_of_singleton in Hin. discriminate Hin. }
  split; [exact Hnd|]. split; [reflexivity|]. split; [reflexivity|].
  destruct (X5_merge_writes_each_key_once same (fun n => Clock 2 "m") incoming None s Hnd)
    as (H1 & H2 & _).
  split; [exact H1 | exact H2].
Defined.

End WriteSequences.

(** ** State store: teardown and notification order *)

Section StoreTeardownAndNotify.
Import JS StateManager.

(** X6.  destroy empties the state, the history and the subscriber
    registry and leaves the version counter where it is: every key reads
    as undefined, no key has a last update, a later setState calls no
    subscriber, and it gets the next version, so no version is handed out
    twice across a teardown. *)
Theorem X6_destroy_keeps_the_version_counter
    (clk : clock) (key k : string) (v : value) (o : options) (s : t) :
  let d := destroy s in
  let s' := snd (setState clk key v o d) in
  getState k false d = Plain undefined /\
  getState k true d = WithMetadata undefined (version s) None /\
  getStatistics d = {| stateSize := 0; historyLength := 0; subscriberCount := 0;
                       stat_version := version s |} /\
  notified s' = notified s /\
  version s' = version s + 1.
Proof.
  intros d s'. repeat split. unfold s'. simpl. rewrite app_nil_r. reflexivity.
Qed.

Lemma omap_accepting v u (l : list (ident * subscriber)) :
  omap (fun e : ident * subscriber =>
          match sub_filter (snd e) with
          | None => Some (fst e, v, u)
          | Some f => if f v u then Some (fst e, v, u) else None
          end) l =
  map (fun e => (fst e, v, u)) (List.filter (accepted_by v u) l).
Proof.
  induction l as [|e l IH]; [reflexivity|]. simpl. unfold accepted_by at 1.
  destruct (sub_filter (snd e)) as [f|]; simpl.
  - destruct (f v u); simpl; [f_equal|]; exact IH.
  - f_equal. exact IH.
Qed.

(** X7.  The subscribers of a key are notified in descending priority,
    subscribers of equal priority in the order they registered: the calls
    made are, in order, those entries of a stable priority-sorted
    rearrangement of the key's registry whose filter accepts the value and
    the update (no filter accepts everything).  Each call receives the new
    value and the update.  A key without registry entry notifies nobody. *)
Theorem X7_subscribers_notified_by_priority
    (key : string) (v : value) (u : update)
    (subs : list (string * list (ident * subscriber))) :
  let entries := default [] (map_get key subs) in
  let rank := fun e : ident * subscriber => priorityMap (sub_priority (snd e)) in
  exists sorted,
    sorted ≡ₚ entries /\
    StronglySorted (descending rank) sorted /\
    (forall p, filter (fun e => rank e = p) sorted = filter (fun e => rank e = p) entries) /\
    notifySubscribers key v u subs =
      map (fun e => (fst e, v, u)) (List.filter (accepted_by v u) sorted).
Proof.
  intros entries rank. exists (sort_desc rank entries).
  split; [apply sort_desc_Permutation|]. split; [apply sort_desc_sorted|].
  split; [intros p; apply sort_desc_stable|].
  unfold notifySubscribers, entries.
  destruct (map_get key subs) as [es|]; simpl; [apply omap_accepting | reflexivity].
Qed.

End StoreTeardownAndNotify.

(** ** Conflict resolver: registries, strategies, log *)

Section MoreResolverProperties.
Import JS ConflictResolver.

Lemma resolveConflict_registries fuel clk n c r :
  let r' := snd (fst (resolveConflict fuel clk n c r)) in
  cfg r' = cfg r /\ mergeRules r' = mergeRules r /\ customStrategies r' = customStrategies r /\
  (trackHistory (cfg r) = false -> conflictHistory r' = conflictHistory r).
Proof.
  destruct (resolveConflict_state fuel clk n c r) as [-> | (rs & res & ->)].
  - repeat split; reflexivity.
  - unfold trackResolution. destruct (trackHistory (cfg r)); simpl.
    + repeat split; try reflexivity. discriminate.
    + repeat split; reflexivity.
Qed.

(** X8.  resolveConflict never changes the configuration or the two
    registries, whatever the conflicts and however the calls end; and a
    resolver with trackHistory off never writes to its log. *)
Theorem X8_resolving_leaves_registries_alone
    (fuel : nat) (clk : nat -> attempt_clock) (cs : list conflict) (r : t) :
  let r' := resolve_all fuel clk cs r in
  cfg r' = cfg r /\ mergeRules r' = mergeRules r /\ customStrategies r' = customStrategies r /\
  (trackHistory (cfg r) = false -> conflictHistory r' = conflictHistory r).
Proof.
  induction cs as [|c cs IH] using rev_ind; [repeat split; reflexivity|].
  simpl. rewrite resolve_all_snoc.
  destruct IH as (Hc & Hm & Hs & Hh).
  destruct (resolveConflict_registries fuel clk 0 c (resolve_all fuel clk cs r))
    as (Hc' & Hm' & Hs' & Hh').
  simpl in Hc', Hm', Hs', Hh'.
  split; [congruence|]. split; [congruence|]. split; [congruence|].
  intros Hoff. rewrite Hh' by congruence. apply Hh, Hoff.
Qed.

(** X9.  A strategy registered under a name resolves every conflict that
    forces that name, in one attempt, with what the function returns; a
    registration under the name of a built-in strategy replaces the
    built-in.  The resolution is logged under that name. *)
Theorem X9_registered_strategy_resolves_forced_conflict
    (name : string) (f : conflict -> outcome result) (c : conflict) (res : result)
    (r : t) (fuel n : nat) (clk : nat -> attempt_clock) :
  truthy_string name = true ->
  forcedStrategy c = Some name ->
  f c = Return res ->
  let r1 := registerCustomStrategy name f r in
  let answer := resolveConflict (S fuel) clk n c r1 in
  fst (fst answer) = Done (Return res) /\
  snd answer = S n /\
  (trackHistory (cfg r) = true -> maxHistoryLength (cfg r) = None ->
   conflictHistory (snd (fst answer)) =
     conflictHistory r ++
     [ {| he_timestamp := at_resolve (clk n); he_strategy := name;
          he_result := res; he_conflict := c |} ]).
Proof.
  intros Hname Hforced Hf r1 answer. unfold answer. simpl.
  assert (Hstrat : determineStrategy c r1 = name).
  { unfold determineStrategy. rewrite Hforced, Hname. reflexivity. }
  unfold applyStrategy. simpl strategy_name. simpl originalConflict. rewrite Hstrat.
  unfold r1 at 1. simpl customStrategies. rewrite map_get_set_eq. simpl. rewrite Hf.
  simpl. split; [reflexivity|]. split; [reflexivity|].
  intros Htrack Hnone. unfold trackResolution. simpl.
  rewrite Htrack, Hnone. reflexivity.
Qed.

Lemma X9_registered_strategy_resolves_forced_conflict_witness :
  let f := fun c : conflict =>
             Return {| res_value := clientValue c; res_source := "manual";
                       res_metadata := undefined |} in
  let c := with_forcedStrategy "server-wins" (plain_conflict (num 1) (num 2)) in
  let answer := resolveConflict 1 (fun _ => AttemptClock 5 5) 0 c
                  (registerCustomStrategy "server-wins" f (new no_config)) in
  truthy_string "server-wins" = true /\ forcedStrategy c = Some "server-wins" /\
  fst (fst answer) =
    Done (Return {| res_value := num 2; res_source := "manual"; res_metadata := undefined |}).
Proof.
  intros f c answer. split; [reflexivity|]. split; [reflexivity|].
  exact (proj1 (X9_registered_strategy_resolves_forced_conflict "server-wins" f c _
                  (new no_config) 0 0 (fun _ => AttemptClock 5 5)
                  eq_refl eq_refl eq_refl)).
Defined.

(** X10.  A merge rule registered for a data type is what resolves the
    conflicts of that data type that force no strategy, whatever the
    default strategy is and whether or not the default rules are enabled:
    the strategy chosen is auto-merge and the answer is the rule's. *)
Theorem X10_registered_rule_resolves_its_data_type
    (dt : string) (f : value -> value -> conflict -> outcome result)
    (c : conflict) (res : result) (cin : config_in)
    (fuel n : nat) (clk : nat -> attempt_clock) :
  truthy_string dt = true ->
  dataType c = Some dt ->
  forcedStrategy c = None ->
  f (serverValue c) (clientValue c) c = Return res ->
  let r1 := registerMergeRule dt f (new cin) in
  determineStrategy c r1 = "auto-merge" /\
  fst (fst (resolveConflict (S fuel) clk n c r1)) = Done (Return res).
Proof.
  intros Hdt Htype Hforced Hf r1.
  assert (Hstrat : determineStrategy c r1 = "auto-merge").
  { unfold determineStrategy. rewrite Hforced, Htype, Hdt. unfold map_has, r1. simpl.
    rewrite map_get_set_eq. reflexivity. }
  split; [exact Hstrat|]. simpl. unfold applyStrategy. simpl strategy_name.
  rewrite Hstrat. unfold r1 at 1. simpl customStrategies.
  rewrite new_customStrategies. simpl. unfold autoMergeStrategy. rewrite Htype.
  unfold r1 at 1. simpl mergeRules. rewrite map_get_set_eq. simpl. rewrite Hf. reflexivity.
Qed.

Lemma X10_registered_rule_resolves_its_data_type_witness :
  let f := fun (sv cv : value) (c : conflict) =>
             Return {| res_value := sv; res_source := "merged"; res_metadata := undefined |} in
  let c := {| serverValue := num 1; clientValue := num 2; serverTimestamp := None;
              clientTimestamp := None; dataType := Some "number"; forcedStrategy := None;
              serverMetadata := undefined; clientMetadata := undefined;
              metadata := undefined |} in
  let off := ConfigIn (Some "client-wins") None (Some false) None None None None in
  truthy_string "number" = true /\ dataType c = Some "number" /\
  fst (fst (resolveConflict 1 (fun _ => AttemptClock 5 5) 0 c
              (registerMergeRule "number" f (new off)))) =
    Done (Return {| res_value := num 1; res_source := "merged"; res_metadata := undefined |}).
Proof.
  intros f c off. split; [reflexivity|]. split; [reflexivity|].
  exact (proj2 (X10_registered_rule_resolves_its_data_type "number" f c _ off 0 0
                  (fun _ => AttemptClock 5 5) eq_refl eq_refl eq_refl eq_refl)).
Defined.

(** X12.  After destroy no strategy is registered: no call of
    resolveConflict ever returns a resolution.  With a retry budget of one
    the call raises the resolution failure after one attempt; with a larger
    budget it retries without end.  The log stays empty. *)
Theorem X12_destroyed_resolver_resolves_nothing
    (r : t) (c : conflict) (fuel n : nat) (clk : nat -> attempt_clock) :
  resolveConflict (S fuel) clk n c (destroy r) =
    if 1 <? maxRetries (cfg r)
    then (OutOfFuel, destroy r, (n + S fuel)%nat)
    else (Done (Throw (ResolutionFailed 1)), destroy r, S n).
Proof.
  destruct (Z.ltb_spec 1 (maxRetries (cfg r))) as [Hlt|Hle].
  - apply resolveConflict_retry_forever; [exact Hlt|].
    intros now ts. eexists. reflexivity.
  - eapply resolveConflict_single_attempt; [exact Hle | reflexivity].
Qed.

(** *** Strategy counts *)

Section StrategyCountProperties.
Variable function_text : string -> string.

Lemma append_truthy s : truthy_string (String.append s "1") = true.
Proof. destruct s; reflexivity. Qed.

(** A name that Object.prototype does not know: its entry counts its
    records. *)
Lemma strategy_counts_fold (l : list history_entry) (name : string) :
  name <> "__proto__" -> name ∉ Object_prototype_methods ->
  map_get name (foldl (count_strategy function_text) [] l) =
    match filter (fun h => he_strategy h = name) l with
    | [] => None
    | records => Some (Times (Z.of_nat (List.length records)))
    end.
Proof.
  intros Hproto Hmethod. induction l as [|h l IH] using rev_ind; [reflexivity|].
  rewrite foldl_app, filter_app. simpl foldl. unfold count_strategy at 1.
  destruct (decide (he_strategy h = "__proto__")) as [Hp|Hp].
  { rewrite filter_cons_False by congruence. rewrite filter_nil, app_nil_r. exact IH. }
  destruct (decide (he_strategy h = name)) as [Hn|Hn].
  - rewrite filter_cons_True by exact Hn. rewrite filter_nil, Hn, map_get_set_eq, IH.
    destruct (filter (fun h0 => he_strategy h0 = name) l) as [|x records]; simpl.
    + rewrite decide_False by exact Hmethod. reflexivity.
    + rewrite List.length_app. simpl. unfold truthy_Z.
      destruct (Z.eqb_spec (Z.pos (Pos.of_succ_nat (List.length records))) 0); [lia|].
      simpl. do 2 f_equal. lia.
  - rewrite filter_cons_False by exact Hn. rewrite filter_nil, app_nil_r.
    rewrite map_get_set_ne by congruence. exact IH.
Qed.

(** The accessor [__proto__] never becomes an own key. *)
Lemma strategy_counts_proto (l : list history_entry) :
  map_get "__proto__" (foldl (count_strategy function_text) [] l) = None.
Proof.
  induction l as [|h l IH] using rev_ind; [reflexivity|].
  rewrite foldl_app. simpl foldl. unfold count_strategy at 1.
  destruct (decide (he_strategy h = "__proto__")) as [Hp|Hp]; [exact IH|].
  rewrite map_get_set_ne by congruence. exact IH.
Qed.

(** The entry of a method name is never a number. *)
Lemma strategy_counts_method (l : list history_entry) (name : string) :
  name ∈ Object_prototype_methods ->
  no_number (map_get name (foldl (count_strategy function_text) [] l)) /\
  (filter (fun h => he_strategy h = name) l <> [] ->
   map_get name (foldl (count_strategy function_text) [] l) <> None).
Proof.
  intros Hmethod.
  assert (Hproto : name <> "__proto__").
  { intros ->. vm_compute in Hmethod. 
    repeat (apply elem_of_cons in Hmethod as [Hmethod|Hmethod]; [discriminate|]).
    inversion Hmethod. }
  induction l as [|h l [IH1 IH2]] using rev_ind; [split; [exact I | intros H; destruct (H eq_refl)]|].
  rewrite foldl_app, filter_app. simpl foldl. unfold count_strategy at 1 3.
  destruct (decide (he_strategy h = "__proto__")) as [Hp|Hp].
  { rewrite filter_cons_False by congruence. rewrite filter_nil, app_nil_r.
    split; assumption. }
  destruct (decide (he_strategy h = name)) as [Hn|Hn].
  - rewrite Hn, map_get_set_eq. split; [|discriminate].
    destruct (map_get name (foldl (count_strategy function_text) [] l)) as [[n|s]|];
      simpl in *.
    + contradiction.
    + rewrite IH1. simpl. apply append_truthy.
    + rewrite decide_True by exact Hmethod. simpl. apply append_truthy.
  - rewrite filter_cons_False by exact Hn. rewrite filter_nil, app_nil_r.
    rewrite map_get_set_ne by congruence. split; assumption.
Qed.

(** X13.  The strategy counts of getStatistics, built on an object
    written [{}]: for every strategy name that is not a member of
    Object.prototype the entry is the number of log records resolved by
    that strategy, and the name has an entry exactly when there is such a
    record.  For the names Object.prototype knows the entry is never a
    number: [__proto__] never gets an entry, and a method name such as
    [constructor] or [toString] gets, from its first record on, a text.
    totalResolutions is the length of the log. *)
Theorem X13_strategy_counts_count_the_log (r : t) :
  let counts := strategyCounts (getStatistics function_text r) in
  let records := fun name => filter (fun h => he_strategy h = name) (conflictHistory r) in
  (forall name, name <> "__proto__" -> name ∉ Object_prototype_methods ->
     default (Times 0) (map_get name counts) = Times (Z.of_nat (List.length (records name))) /\
     (map_get name counts = None <-> records name = [])) /\
  map_get "__proto__" counts = None /\
  (forall name, name ∈ Object_prototype_methods ->
     no_number (map_get name counts) /\
     (records name <> [] -> map_get name counts <> None)) /\
  totalResolutions (getStatistics function_text r) =
    Z.of_nat (List.length (conflictHistory r)).
Proof.
  intros counts records. unfold counts, records. simpl. unfold getStrategyCounts.
  split; [|split; [apply strategy_counts_proto|split; [|reflexivity]]].
  - intros name Hproto Hmethod.
    rewrite (strategy_counts_fold (conflictHistory r) name Hproto Hmethod).
    destruct (filter (fun h => he_strategy h = name) (conflictHistory r)) as [|x l].
    + split; [reflexivity|]. split; reflexivity.
    + split; [reflexivity|]. split; discriminate.
  - intros name Hmethod. apply strategy_counts_method, Hmethod.
Qed.

(** A log with two server-wins records, one record of a strategy
    registered under the name [constructor] and one under [__proto__]. *)
Example strategy_counts_of_inherited_names :
  let entry := fun name =>
    {| he_timestamp := 0; he_strategy := name;
       he_result := serverWinsStrategy (plain_conflict (num 1) (num 2));
       he_conflict := plain_conflict (num 1) (num 2) |} in
  let r := {| cfg := make_config no_config;
              conflictHistory := [entry "server-wins"; entry "constructor";
                                  entry "__proto__"; entry "server-wins"];
              mergeRules := []; customStrategies := [] |} in
  strategyCounts (getStatistics function_text r) =
  [("server-wins", Times 2);
   ("constructor", Text (String.append (function_text "constructor") "1"))].
Proof. reflexivity. Qed.

End StrategyCountProperties.

End MoreResolverProperties.

(** ** Conflict resolver: object merge and log queries *)

Section ObjectMergeProperties.
Import JS ConflictResolver.

Lemma map_get_app {K V : Type} `{EqDecision K} (k : K) (l l' : list (K * V)) :
  map_get k (l ++ l') = match map_get k l with Some x => Some x | None => map_get k l' end.
Proof.
  induction l as [|[k0 v0] l IH]; simpl; [reflexivity|].
  destruct (decide (k = k0)); [reflexivity | exact IH].
Qed.

Lemma assign_fields_snoc target src k v :
  assign_fields target (src ++ [(k, v)]) = map_set k v (assign_fields target src).
Proof. unfold assign_fields. rewrite foldl_app. reflexivity. Qed.

(** Object spread: a key of the source overrides the same key of the
    target, every other key of the target stays. *)
Lemma assign_fields_get target src k :
  NoDup (map fst src) ->
  map_get k (assign_fields target src) =
    match map_get k src with Some x => Some x | None => map_get k target end.
Proof.
  induction src as [|[k0 v0] src IH] using rev_ind; intros Hnd; [reflexivity|].
  rewrite List.map_app in Hnd. apply NoDup_app in Hnd as (Hnd & Hfresh & _).
  rewrite assign_fields_snoc, map_get_app. simpl.
  destruct (decide (k0 = k)) as [->|Hne].
  - rewrite map_get_set_eq.
    assert (Hk : map_get k src = None).
    { apply map_get_None_keys. intros Hc. apply (Hfresh k Hc). simpl. apply list_elem_of_here. }
    rewrite Hk, decide_True by reflexivity. reflexivity.
  - rewrite map_get_set_ne by exact Hne. rewrite IH by exact Hnd.
    rewrite decide_False by congruence.
    destruct (map_get k src); reflexivity.
Qed.

(** X14.  The object merge rule, on two objects: a field of the client
    overrides the same field of the server, every other field of either
    side is kept, and the field [_metadata] of the result is always the
    merge stamp, whatever [_metadata] the two sides carried.  The source
    is 'merged' and the metadata lists the keys of the result. *)
Theorem X14_mergeObjects_client_fields_override
    (now : Z) (so co : list (string * value)) (c : conflict) (k : string) :
  NoDup (map fst so) -> NoDup (map fst co) ->
  exists merged,
    mergeObjects now (VObj so) (VObj co) c =
      Return {| res_value := VObj merged; res_source := "merged";
                res_metadata := VObj [("fields", VArr (map (fun kv => PStr (fst kv)) merged))] |} /\
    map_get "_metadata" merged =
      Some (VObj [("mergedAt", num now); ("sources", VArr [PStr "server"; PStr "client"])]) /\
    (k <> "_metadata" ->
     map_get k merged = match map_get k co with Some x => Some x | None => map_get k so end).
Proof.
  intros Hso Hco. eexists. split; [reflexivity|]. split.
  - apply map_get_set_eq.
  - intros Hk. rewrite map_get_set_ne by congruence. simpl spread_fields.
    rewrite assign_fields_get by exact Hco.
    rewrite assign_fields_get by exact Hso. simpl.
    destruct (map_get k co); [reflexivity|]. destruct (map_get k so); reflexivity.
Qed.

Lemma X14_mergeObjects_client_fields_override_witness :
  let so := [("a", num 1); ("b", num 2)] in
  let co := [("b", num 3); ("_metadata", num 0)] in
  NoDup (map fst so) /\ NoDup (map fst co) /\
  exists merged,
    res_value <$> (match mergeObjects 9 (VObj so) (VObj co) (plain_conflict (VObj so) (VObj co)) with
                   | Return x => Some x
                   | Throw _ => None
                   end) = Some (VObj merged) /\
    map_get "b" merged = Some (num 3) /\ map_get "a" merged = Some (num 1).
Proof.
  intros so co.
  assert (Hso : NoDup (map fst so)).
  { simpl. apply NoDup_cons_2; [|apply NoDup_singleton].
    intros Hin. apply list_elem_of_singleton in Hin. discriminate Hin. }
  assert (Hco : NoDup (map fst co)).
  { simpl. apply NoDup_cons_2; [|apply NoDup_singleton].
    intros Hin. apply list_elem_of_singleton in Hin. discriminate Hin. }
  split; [exact Hso|]. split; [exact Hco|].
  destruct (X14_mergeObjects_client_fields_override 9 so co
              (plain_conflict (VObj so) (VObj co)) "b" Hso Hco) as (merged & Hm & _ & Hb).
  destruct (X14_mergeObjects_client_fields_override 9 so co
              (plain_conflict (VObj so) (VObj co)) "a" Hso Hco) as (merged' & Hm' & _ & Ha).
  rewrite Hm in Hm'. injection Hm' as <-.
  exists merged. rewrite Hm. split; [reflexivity|].
  split; [apply Hb; discriminate | apply Ha; discriminate].
Defined.

Lemma filter_bool_sublist {X : Type} (g : X -> bool) (l : list X) :
  sublist (List.filter g l) l.
Proof.
  induction l as [|x l IH]; simpl; [constructor|].
  destruct (g x); [apply sublist_skip | apply sublist_cons]; exact IH.
Qed.

Lemma filter_bool_all {X : Type} (g : X -> bool) (l : list X) :
  (forall x, g x = true) -> List.filter g l = l.
Proof.
  intros Hg. induction l as [|x l IH]; simpl; [reflexivity|]. rewrite Hg, IH. reflexivity.
Qed.

(** X15.  getResolutionHistory returns the records of the log that pass
    the filter, in log order: a record passes when its strategy is the
    requested one and its timestamp is not before [since].  A requested
    strategy that is the empty string and a [since] of 0 are ignored, as
    absent ones are; with no filter the whole log is returned. *)
Theorem X15_history_query_filters (f : history_filter) (r : t) (h : history_entry) :
  sublist (getResolutionHistory f r) (conflictHistory r) /\
  (h ∈ getResolutionHistory f r <->
   h ∈ conflictHistory r /\
   (forall name, hf_strategy f = Some name -> name <> EmptyString -> he_strategy h = name) /\
   (forall since, hf_since f = Some since -> since <> 0 -> since <= he_timestamp h)) /\
  getResolutionHistory no_filter r = conflictHistory r /\
  getResolutionHistory (HistoryFilter (Some EmptyString) (Some 0)) r = conflictHistory r.
Proof.
  split; [|split; [|split]].
  - apply filter_bool_sublist.
  - unfold getResolutionHistory. rewrite list_elem_of_In, List.filter_In, <- list_elem_of_In.
    apply and_iff_compat_l. unfold passes.
    destruct (hf_strategy f) as [name|], (hf_since f) as [since|]; simpl.
    + destruct name as [|a name]; simpl.
      * unfold truthy_Z. destruct (Z.eqb_spec since 0) as [->|Hne]; simpl.
        -- split; [|reflexivity]. intros _. split; intros x [= <-] Hx; congruence.
        -- destruct (Z.ltb_spec (he_timestamp h) since).
           ++ split; [discriminate|]. intros [_ Hs]. specialize (Hs since eq_refl Hne). lia.
           ++ split; [|reflexivity]. intros _. split; [intros x [= <-] Hx; congruence|].
              intros x [= <-] _. assumption.
      * destruct (bool_decide_reflect (he_strategy h = String a name)) as [Heq|Hneq]; simpl.
        -- unfold truthy_Z. destruct (Z.eqb_spec since 0) as [->|Hne]; simpl.
           ++ split; [|reflexivity]. intros _.
              split; [intros x [= <-] _; exact Heq | intros x [= <-] Hx; congruence].
           ++ destruct (Z.ltb_spec (he_timestamp h) since).
              ** split; [discriminate|]. intros [_ Hs].
                 specialize (Hs since eq_refl Hne). lia.
              ** split; [|reflexivity]. intros _.
                 split; [intros x [= <-] _; exact Heq | intros x [= <-] _; assumption].
        -- split; [discriminate|]. intros [Hs _]. exfalso. apply Hneq.
           apply (Hs _ eq_refl). discriminate.
    + destruct name as [|a name]; simpl.
      * split; [|reflexivity]. intros _. split; [intros x [= <-] Hx; congruence|].
        intros x Hx. discriminate Hx.
      * destruct (bool_decide_reflect (he_strategy h = String a name)) as [Heq|Hneq]; simpl.
        -- split; [|reflexivity]. intros _.
           split; [intros x [= <-] _; exact Heq | intros x Hx; discriminate Hx].
        -- split; [discriminate|]. intros [Hs _]. exfalso. apply Hneq.
           apply (Hs _ eq_refl). discriminate.
    + unfold truthy_Z. destruct (Z.eqb_spec since 0) as [->|Hne]; simpl.
      * split; [|reflexivity]. intros _.
        split; [intros x Hx; discriminate Hx | intros x [= <-] Hx; congruence].
      * destruct (Z.ltb_spec (he_timestamp h) since).
        -- split; [discriminate|]. intros [_ Hs]. specialize (Hs since eq_refl Hne). lia.
        -- split; [|reflexivity]. intros _.
           split; [intros x Hx; discriminate Hx | intros x [= <-] _; assumption].
    + split; [|reflexivity]. intros _. split; intros x Hx; discriminate Hx.
  - apply filter_bool_all. reflexivity.
  - apply filter_bool_all. reflexivity.
Qed.

End ObjectMergeProperties.

(** ** Event bus: buffers and dispatch order *)

Section MoreBusProperties.
Import JS EventBus.

Lemma proceed_eventBuffer a e b : eventBuffer (proceed a e b) = eventBuffer b.
Proof.
  unfold proceed. destruct (objects b !! a) as [l|]; [|reflexivity].
  destruct (match l_filter l with Some f => negb (f (e_data e)) | None => false end);
    reflexivity.
Qed.

Lemma notifyListener_eventBuffer e b a :
  eventBuffer (notifyListener e b a) = eventBuffer b.
Proof.
  unfold notifyListener. destruct (objects b !! a) as [l|]; [|reflexivity].
  destruct (l_backpressure l); [|apply proceed_eventBuffer].
  destruct (_ >? _); [reflexivity | rewrite proceed_eventBuffer; reflexivity].
Qed.

Lemma deliverEvent_eventBuffer e b : eventBuffer (deliverEvent e b) = eventBuffer b.
Proof.
  unfold deliverEvent. generalize (sort_desc (priority_of b)
    match map_get (e_name e) (listeners b) with Some s => s | None => [] end).
  intros addrs. revert b. induction addrs as [|a addrs IH]; intros b; simpl; [reflexivity|].
  rewrite IH. apply notifyListener_eventBuffer.
Qed.

Lemma buffers_ok_same b b' :
  eventBuffer b' = eventBuffer b -> cfg b' = cfg b -> buffers_ok b -> buffers_ok b'.
Proof. unfold buffers_ok. intros -> ->. tauto. Qed.

Lemma bufferEvent_buffers_ok e b :
  0 <= bufferSize (cfg b) -> buffers_ok b -> buffers_ok (bufferEvent e b).
Proof.
  intros Hsize Hok name buffer. unfold bufferEvent. simpl.
  destruct (decide (e_name e = name)) as [<-|Hne].
  - rewrite map_get_set_eq. intros [= <-].
    assert (Hold : Forall (fun x => e_name x = e_name e)
                     (match map_get (e_name e) (eventBuffer b) with
                      | Some l => l | None => [] end) /\
                   Z.of_nat (List.length (match map_get (e_name e) (eventBuffer b) with
                                          | Some l => l | None => [] end))
                   <= bufferSize (cfg b)).
    { destruct (map_get (e_name e) (eventBuffer b)) as [old|] eqn:Hold.
      - apply (Hok _ _ Hold).
      - split; [constructor | simpl; lia]. }
    destruct Hold as [Hnames Hlen].
    set (old := match map_get (e_name e) (eventBuffer b) with
                | Some l => l | None => [] end) in *.
    assert (Hall : Forall (fun x => e_name x = e_name e) (old ++ [e])).
    { apply Forall_app. split; [exact Hnames | apply Forall_singleton; reflexivity]. }
    destruct (Z.gtb_spec (Z.of_nat (List.length (old ++ [e]))) (bufferSize (cfg b)))
      as [Hgt|Hle].
    + split; [apply Forall_drop, Hall|].
      rewrite length_drop, List.length_app. simpl. lia.
    + split; [exact Hall | exact Hle].
  - rewrite map_get_set_ne by exact Hne. apply Hok.
Qed.

Lemma step_buffers_ok b l :
  0 <= bufferSize (cfg b) -> buffers_ok b -> buffers_ok (EventBus.step b l).
Proof.
  intros Hsize Hok. destruct l as [clk pattern callback o | name lid | clk name data o | i];
    simpl.
  - apply (buffers_ok_same b); [|apply subscribe_cfg|exact Hok].
    unfold subscribe. simpl. generalize (resolveEventPattern pattern b). intros names.
    revert b Hsize Hok. induction names as [|n names IH]; intros b Hsize Hok; simpl;
      [reflexivity|].
    rewrite IH; [reflexivity | exact Hsize | exact Hok].
  - apply (buffers_ok_same b); [|apply unsubscribe_cfg|exact Hok].
    unfold unsubscribe. destruct (map_get name (listeners b)) as [set|]; [|reflexivity].
    destruct (List.find _ set); reflexivity.
  - unfold publish. destruct (persistence (cfg b)).
    + apply (buffers_ok_same b); [reflexivity | reflexivity | exact Hok].
    + apply (buffers_ok_same (bufferEvent (make_event clk name data o) b)).
      * apply deliverEvent_eventBuffer.
      * apply deliverEvent_cfg.
      * apply bufferEvent_buffers_ok; assumption.
  - unfold resume. destruct (tasks b !! i) as [[e|a e|a e|]|]; try exact Hok.
    + apply (buffers_ok_same (bufferEvent e (set_tasks (<[i := Finished]> (tasks b)) b))).
      * apply deliverEvent_eventBuffer.
      * apply deliverEvent_cfg.
      * apply bufferEvent_buffers_ok; [exact Hsize | exact Hok].
    + destruct (objects b !! a) as [l|]; [|exact Hok].
      destruct (_ <=? _); [|exact Hok].
      apply (buffers_ok_same b);
        [rewrite proceed_eventBuffer; reflexivity | rewrite proceed_cfg; reflexivity | exact Hok].
    + destruct (objects b !! a) as [l|]; [|exact Hok].
      destruct (l_backpressure l); exact Hok.
Qed.

Lemma run_buffers_ok ls c :
  0 <= bufferSize (make_config c) -> buffers_ok (EventBus.run ls (new c)).
Proof.
  intros Hsize. induction ls as [|l ls IH] using rev_ind.
  - intros name buffer Hget. discriminate Hget.
  - rewrite run_snoc_bus. apply step_buffers_ok; [|exact IH].
    rewrite run_cfg_bus. exact Hsize.
Qed.

Lemma getEventHistory_bufferEvent e b name :
  getEventHistory name (bufferEvent e b) =
    if decide (e_name e = name)
    then (let grown := getEventHistory name b ++ [e] in
          if Z.of_nat (List.length grown) >? bufferSize (cfg b) then drop 1 grown else grown)
    else getEventHistory name b.
Proof.
  unfold getEventHistory, bufferEvent. simpl.
  destruct (decide (e_name e = name)) as [<-|Hne].
  - rewrite map_get_set_eq. reflexivity.
  - rewrite map_get_set_ne by exact Hne. reflexivity.
Qed.

Lemma getEventHistory_publish clk name data o b name' :
  persistence (cfg b) = false ->
  getEventHistory name' (publish clk name data o b) =
  getEventHistory name' (bufferEvent (make_event clk name data o) b).
Proof.
  intros Hp. unfold publish. rewrite Hp. unfold getEventHistory.
  rewrite deliverEvent_eventBuffer. reflexivity.
Qed.

(** X16.  In every run of a bus with a non-negative [bufferSize], the
    history of an event name holds only events of that name and at most
    [bufferSize] of them.  When nothing is persisted and the buffer has
    room for one event, a publish puts its event last in the history of
    its name and leaves the histories of the other names as they were. *)
Theorem X16_event_history_bounded_per_name
    (c : config_in) (ls : list label) (name other : string)
    (clk : clock) (data : value) (o : pub_options) :
  0 <= bufferSize (make_config c) ->
  let b := EventBus.run ls (new c) in
  Forall (fun e => e_name e = name) (getEventHistory name b) /\
  Z.of_nat (List.length (getEventHistory name b)) <= bufferSize (cfg b) /\
  (persistence (cfg b) = false -> 1 <= bufferSize (cfg b) ->
   last (getEventHistory name (publish clk name data o b)) =
     Some (make_event clk name data o) /\
   (other <> name ->
    getEventHistory other (publish clk name data o b) = getEventHistory other b)).
Proof.
  intros Hsize b.
  pose proof (run_buffers_ok ls c Hsize) as Hok. fold b in Hok.
  assert (Hcfg : bufferSize (cfg b) = bufferSize (make_config c)).
  { unfold b. rewrite run_cfg_bus. reflexivity. }
  assert (Hhist : Forall (fun e => e_name e = name) (getEventHistory name b) /\
                  Z.of_nat (List.length (getEventHistory name b)) <= bufferSize (cfg b)).
  { unfold getEventHistory. destruct (map_get name (eventBuffer b)) as [l|] eqn:Hl.
    - apply (Hok _ _ Hl).
    - split; [constructor | simpl; lia]. }
  destruct Hhist as [Hnames Hlen]. split; [exact Hnames|]. split; [exact Hlen|].
  intros Hp Hone. split.
  - rewrite (getEventHistory_publish _ _ _ _ _ _ Hp), getEventHistory_bufferEvent.
    simpl e_name. rewrite decide_True by reflexivity. cbv zeta.
    destruct (Z.gtb_spec (Z.of_nat (List.length (getEventHistory name b ++
                                                   [make_event clk name data o])))
                (bufferSize (cfg b))) as [Hgt|Hle].
    + destruct (getEventHistory name b) as [|x l]; simpl in *; [lia|].
      rewrite drop_0. apply last_snoc.
    + apply last_snoc.
  - intros Hne. rewrite (getEventHistory_publish _ _ _ _ _ _ Hp), getEventHistory_bufferEvent.
    simpl e_name. rewrite decide_False by congruence. reflexivity.
Qed.

Lemma X16_event_history_bounded_per_name_witness :
  let c := ConfigIn None (Some 1) None None None in
  let ls := [Publish (Clock 1 "a") "tick" (num 1) no_pub_options;
             Publish (Clock 2 "b") "tick" (num 2) no_pub_options] in
  let b := EventBus.run ls (new c) in
  0 <= bufferSize (make_config c) /\
  getEventHistory "tick" b = [make_event (Clock 2 "b") "tick" (num 2) no_pub_options] /\
  Z.of_nat (List.length (getEventHistory "tick" b)) <= bufferSize (cfg b).
Proof.
  intros c ls b. split; [simpl; lia|]. split; [reflexivity|].
  destruct (X16_event_history_bounded_per_name c ls "tick" "tock" (Clock 3 "c") (num 3)
              no_pub_options ltac:(simpl; lia)) as (_ & Hlen & _).
  exact Hlen.
Defined.

(** *** Dispatch order *)

Lemma proceed_priority_of a e b a' : priority_of (proceed a e b) a' = priority_of b a'.
Proof. unfold priority_of. rewrite proceed_objects. reflexivity. Qed.

Lemma notifyListener_priority_of e b a a' :
  priority_of (notifyListener e b a) a' = priority_of b a'.
Proof.
  unfold notifyListener. destruct (objects b !! a) as [l|] eqn:Hl; [|reflexivity].
  destruct (l_backpressure l); [|apply proceed_priority_of].
  assert (Hins : forall x, priority_of
            (set_objects (<[a := with_pending (l_pending l + 1) l]> (objects b)) x) a' =
            priority_of b a').
  { intros x. unfold priority_of. simpl. destruct (decide (a = a')) as [<-|Hne].
    - rewrite list_lookup_insert_eq by (eapply lookup_lt_Some; exact Hl).
      rewrite Hl. reflexivity.
    - rewrite list_lookup_insert_ne by exact Hne. reflexivity. }
  destruct (_ >? _).
  - unfold priority_of in *. simpl. apply (Hins b).
  - rewrite proceed_priority_of. apply Hins.
Qed.

Lemma proceed_invocations a e b :
  invocations (proceed a e b) = invocations b \/
  exists l, invocations (proceed a e b) = invocations b ++ [(a, l, e)] /\
            priorityMap (l_priority l) = priority_of b a.
Proof.
  unfold proceed, priority_of. destruct (objects b !! a) as [l|]; [|left; reflexivity].
  destruct (match l_filter l with Some f => negb (f (e_data e)) | None => false end);
    [left; reflexivity|].
  right. exists l. split; reflexivity.
Qed.

Lemma notifyListener_invocations e b a :
  invocations (notifyListener e b a) = invocations b \/
  exists l, invocations (notifyListener e b a) = invocations b ++ [(a, l, e)] /\
            priorityMap (l_priority l) = priority_of b a.
Proof.
  unfold notifyListener. destruct (objects b !! a) as [l|] eqn:Hl; [|left; reflexivity].
  destruct (l_backpressure l); [|apply proceed_invocations].
  destruct (_ >? _); [left; reflexivity|].
  set (b' := set_objects (<[a := with_pending (l_pending l + 1) l]> (objects b)) b).
  destruct (proceed_invocations a e b') as [H | (l' & H & Hp)]; [left; exact H|].
  right. exists l'. split; [exact H|]. rewrite Hp. unfold priority_of, b'. simpl.
  rewrite list_lookup_insert_eq by (eapply lookup_lt_Some; exact Hl). rewrite Hl. reflexivity.
Qed.

Lemma foldl_notifyListener_sorted e (rank0 : nat -> Z) addrs b :
  (forall a, priority_of b a = rank0 a) ->
  StronglySorted (descending rank0) addrs ->
  exists new,
    invocations (foldl (notifyListener e) b addrs) = invocations b ++ new /\
    StronglySorted (descending listener_rank) new /\
    Forall (fun i => snd i = e /\ exists a, a ∈ addrs /\ listener_rank i = rank0 a) new.
Proof.
  revert b. induction addrs as [|a addrs IH]; intros b Hrank Hsorted; simpl.
  - exists []. rewrite app_nil_r. split; [reflexivity|]. split; constructor.
  - apply StronglySorted_inv in Hsorted as [Hsorted Hall].
    destruct (IH (notifyListener e b a)) as (new & Hnew & Hs & Hf).
    { intros a'. rewrite notifyListener_priority_of. apply Hrank. }
    { exact Hsorted. }
    assert (Hf' : Forall (fun i => snd i = e /\
                    exists a0, a0 ∈ a :: addrs /\ listener_rank i = rank0 a0) new).
    { eapply Forall_impl; [exact Hf|]. intros i (Hi & a0 & Ha0 & Hr).
      split; [exact Hi|]. exists a0. split; [apply list_elem_of_further, Ha0 | exact Hr]. }
    destruct (notifyListener_invocations e b a) as [Hsame | (l & Hone & Hp)].
    + exists new. rewrite Hnew, Hsame. split; [reflexivity|]. split; assumption.
    + exists ((a, l, e) :: new). rewrite Hnew, Hone, <- app_assoc.
      split; [reflexivity|]. split.
      * constructor; [exact Hs|].
        rewrite Forall_forall in Hf. rewrite Forall_forall in Hall.
        apply Forall_forall. intros i Hi.
        destruct (Hf i Hi) as (_ & a0 & Ha0 & Hr).
        unfold descending. rewrite Hr. unfold listener_rank at 1. simpl.
        rewrite Hp, Hrank. apply (Hall a0 Ha0).
      * constructor; [|exact Hf'].
        split; [reflexivity|]. exists a. split; [apply list_elem_of_here|].
        unfold listener_rank. simpl. rewrite Hp. apply Hrank.
Qed.

(** X17.  The callbacks that a delivery invokes before it returns are
    invoked in descending priority of their listeners, and each receives
    the event delivered. *)
Theorem X17_listeners_invoked_by_priority (e : event) (b : t) :
  exists new,
    invocations (deliverEvent e b) = invocations b ++ new /\
    StronglySorted (descending listener_rank) new /\
    Forall (fun i => snd i = e) new.
Proof.
  unfold deliverEvent.
  destruct (foldl_notifyListener_sorted e (priority_of b)
              (sort_desc (priority_of b)
                 match map_get (e_name e) (listeners b) with Some s => s | None => [] end) b)
    as (new & Hnew & Hs & Hf).
  - reflexivity.
  - apply sort_desc_sorted.
  - exists new. split; [exact Hnew|]. split; [exact Hs|].
    eapply Forall_impl; [exact Hf|]. intros i [Hi _]. exact Hi.
Qed.

End MoreBusProperties.

(** ** Event bus: replay, unsubscribe, teardown *)

Section ReplayAndTeardown.
Import JS EventBus.

Lemma proceed_published a e b : published (proceed a e b) = published b.
Proof.
  unfold proceed. destruct (objects b !! a) as [l|]; [|reflexivity].
  destruct (match l_filter l with Some f => negb (f (e_data e)) | None => false end);
    reflexivity.
Qed.

Lemma deliverEvent_published e b : published (deliverEvent e b) = published b.
Proof.
  unfold deliverEvent. generalize (sort_desc (priority_of b)
    match map_get (e_name e) (listeners b) with Some s => s | None => [] end).
  intros addrs. revert b. induction addrs as [|a addrs IH]; intros b; simpl; [reflexivity|].
  rewrite IH. unfold notifyListener. destruct (objects b !! a) as [l|]; [|reflexivity].
  destruct (l_backpressure l); [|apply proceed_published].
  destruct (_ >? _); [reflexivity | rewrite proceed_published; reflexivity].
Qed.

Lemma filter_bool_Forall {X : Type} (P : X -> Prop) (g : X -> bool) (l : list X) :
  Forall P l -> Forall P (List.filter g l).
Proof.
  induction 1 as [|x l Hx Hl IH]; simpl; [constructor|].
  destruct (g x); [constructor; assumption | exact IH].
Qed.

Lemma batch_publish_history clks batchId name reqs :
  forall i b,
    persistence (cfg b) = false ->
    Forall (fun q => pr_name q = name) reqs ->
    Z.of_nat (List.length (getEventHistory name b)) + Z.of_nat (List.length reqs)
      <= bufferSize (cfg b) ->
    let b' := snd (foldl (batch_publish_step clks batchId) (i, b) reqs) in
    exists copies,
      getEventHistory name b' = getEventHistory name b ++ copies /\
      Forall2 (fun q e' => exists c,
                 e' = make_event c (pr_name q) (pr_data q)
                        {| po_priority := po_priority (pr_options q);
                           po_metadata := po_metadata (pr_options q);
                           po_batchId := batchId |}) reqs copies /\
      published b' = published b + Z.of_nat (List.length reqs).
Proof.
  induction reqs as [|q reqs IH]; intros i b Hp Hnames Hroom.
  - simpl. exists []. rewrite app_nil_r. split; [reflexivity|]. split; [constructor | lia].
  - apply Forall_cons in Hnames as [Hq Hnames]. simpl in Hroom.
    pose (o := {| po_priority := po_priority (pr_options q);
                  po_metadata := po_metadata (pr_options q); po_batchId := batchId |}).
    pose (e := make_event (clks i) (pr_name q) (pr_data q) o).
    pose (b1 := publish (clks i) (pr_name q) (pr_data q) o b).
    change (snd (foldl (batch_publish_step clks batchId) (i, b) (q :: reqs)))
      with (snd (foldl (batch_publish_step clks batchId) (S i, b1) reqs)).
    cbv zeta. simpl List.length.
    assert (Hcfg : cfg b1 = cfg b) by apply publish_cfg.
    assert (Hhist : getEventHistory name b1 = getEventHistory name b ++ [e]).
    { unfold b1. rewrite (getEventHistory_publish _ _ _ _ _ _ Hp), getEventHistory_bufferEvent.
      simpl e_name. rewrite decide_True by exact Hq. cbv zeta.
      destruct (Z.gtb_spec
                  (Z.of_nat (List.length (getEventHistory name b ++
                                            [make_event (clks i) (pr_name q) (pr_data q) o])))
                  (bufferSize (cfg b))) as [Hgt|_]; [|reflexivity].
      rewrite List.length_app in Hgt. simpl in Hgt. lia. }
    assert (Hpub : published b1 = published b + 1).
    { unfold b1, publish. rewrite Hp, deliverEvent_published. reflexivity. }
    destruct (IH (S i) b1) as (copies & Hc & Hf & Hn).
    { rewrite Hcfg. exact Hp. }
    { exact Hnames. }
    { rewrite Hcfg, Hhist, List.length_app. simpl. lia. }
    exists (e :: copies). split; [|split].
    + rewrite Hc, Hhist, <- app_assoc. reflexivity.
    + constructor; [exists (clks i); reflexivity | exact Hf].
    + rewrite Hn, Hpub. lia.
Qed.

Lemma replay_request_replay_of c batchId e :
  replay_of e
    (make_event c (pr_name (replay_request e)) (pr_data (replay_request e))
       {| po_priority := po_priority (pr_options (replay_request e));
          po_metadata := po_metadata (pr_options (replay_request e));
          po_batchId := batchId |}).
Proof.
  unfold replay_of, make_event, replay_request. simpl.
  split; [reflexivity|]. split; [reflexivity|]. split; [reflexivity|].
  rewrite map_get_set_ne by discriminate. rewrite map_get_set_eq. reflexivity.
Qed.

(** X18.  On a bus that persists nothing, replayEvents publishes, for
    every buffered event of the name whose timestamp is not before
    [fromTimestamp], in buffer order, a new event with the same name, data
    and priority whose metadata has [replayed: true].  The originals stay
    in the history; given room in the buffer the copies are appended to
    it, and the published counter grows by their number. *)
Theorem X18_replay_republishes_buffered_events
    (c : config_in) (ls : list label) (name : string) (fromTimestamp : Z)
    (clk : clock) (clks : nat -> clock) :
  let b := EventBus.run ls (new c) in
  let selected := List.filter (fun e => e_timestamp e >=? fromTimestamp)
                    (getEventHistory name b) in
  persistence (cfg b) = false ->
  Z.of_nat (List.length (getEventHistory name b)) + Z.of_nat (List.length selected)
    <= bufferSize (cfg b) ->
  let b' := replayEvents clk clks name fromTimestamp b in
  exists copies,
    getEventHistory name b' = getEventHistory name b ++ copies /\
    Forall2 replay_of selected copies /\
    published b' = published b + Z.of_nat (List.length selected).
Proof.
  intros b selected Hp Hroom b'.
  assert (Hsize : 0 <= bufferSize (make_config c)).
  { replace (make_config c) with (cfg b) by (unfold b; apply run_cfg_bus). lia. }
  pose proof (run_buffers_ok ls c Hsize) as Hok. fold b in Hok.
  assert (Hnames : Forall (fun e => e_name e = name) (getEventHistory name b)).
  { unfold getEventHistory. destruct (map_get name (eventBuffer b)) as [l|] eqn:Hl;
      [apply (Hok _ _ Hl) | constructor]. }
  assert (Hsel : Forall (fun e => e_name e = name) selected).
  { unfold selected. apply filter_bool_Forall, Hnames. }
  unfold b', replayEvents, batchPublish. fold selected.
  destruct (batch_publish_history clks (str ("batch_" +:+ pretty (now clk))) name
              (map replay_request selected) O b Hp) as (copies & Hc & Hf & Hn).
  - apply Forall_fmap. eapply Forall_impl; [exact Hsel|]. intros e He. exact He.
  - rewrite List.length_map. exact Hroom.
  - exists copies. split; [exact Hc|]. split.
    + apply Forall2_fmap_l in Hf. eapply Forall2_impl; [exact Hf|].
      intros e e' [c0 ->]. apply replay_request_replay_of.
    + rewrite Hn, List.length_map. reflexivity.
Qed.

Lemma X18_replay_republishes_buffered_events_witness :
  let ls := [Publish (Clock 5 "a") "tick" (num 1) no_pub_options] in
  let b := EventBus.run ls (new no_config) in
  let b' := replayEvents (Clock 9 "r") (fun _ => Clock 9 "s") "tick" 0 b in
  persistence (cfg b) = false /\
  List.length (getEventHistory "tick" b) = 1%nat /\
  published b' = 2 /\
  exists copies, getEventHistory "tick" b' = getEventHistory "tick" b ++ copies.
Proof.
  intros ls b b'. split; [reflexivity|]. split; [reflexivity|]. split; [reflexivity|].
  destruct (X18_replay_republishes_buffered_events no_config ls "tick" 0 (Clock 9 "r")
              (fun _ => Clock 9 "s") eq_refl ltac:(vm_compute; discriminate))
    as (copies & Hc & _).
  exists copies. exact Hc.
Defined.



(** X20.  destroy empties every event history and the listener registry:
    a later publish invokes no callback.  It does not reach the deliveries
    that are suspended: they stay, and one that waits for capacity or for
    its callback resumes exactly as it would have without the teardown. *)
Theorem X20_destroy_cancels_no_suspended_delivery
    (b : t) (name : string) (clk : clock) (data : value) (o : pub_options)
    (i a : nat) (e : event) :
  let d := destroy b in
  getEventHistory name d = [] /\
  tasks d = tasks b /\
  (persistence (cfg b) = false ->
   invocations (publish clk name data o d) = invocations b /\
   tasks (publish clk name data o d) = tasks b) /\
  (tasks b !! i = Some (Waiting a e) \/ tasks b !! i = Some (Running a e) ->
   invocations (resume i d) = invocations (resume i b) /\
   objects (resume i d) = objects (resume i b) /\
   tasks (resume i d) = tasks (resume i b)).
Proof.
  intros d. split; [reflexivity|]. split; [reflexivity|]. split.
  - intros Hp. unfold publish. simpl. rewrite Hp. split; reflexivity.
  - intros [Hi|Hi]; unfold resume; simpl; rewrite Hi.
    + destruct (objects b !! a) as [l|] eqn:Hl; [|repeat split; reflexivity].
      destruct (_ <=? _); [|repeat split; reflexivity].
      unfold proceed. simpl. rewrite Hl.
      destruct (match l_filter l with Some f => negb (f (e_data e)) | None => false end);
        repeat split; reflexivity.
    + destruct (objects b !! a) as [l|]; [|repeat split; reflexivity].
      destruct (l_backpressure l); repeat split; reflexivity.
Qed.

End ReplayAndTeardown.

(** ** Sync orchestrator: batching and collecting *)

Section BatchingAndCollecting.
Import JS DataSync.

Lemma slices_concat {A : Type} (size fuel : nat) (l : list A) :
  (0 < size)%nat -> (List.length l <= fuel)%nat -> concat (slices fuel size l) = l.
Proof.
  intros Hsize. revert l. induction fuel as [|fuel IH]; intros l Hlen.
  - destruct l; [reflexivity | simpl in Hlen; lia].
  - destruct l as [|x l]; [reflexivity|].
    change (slices (S fuel) size (x :: l))
      with (take size (x :: l) :: slices fuel size (drop size (x :: l))).
    rewrite concat_cons, IH, take_drop; [reflexivity|].
    rewrite length_drop. simpl in *. lia.
Qed.

Lemma slices_bounds {A : Type} (size fuel : nat) (l : list A) :
  (0 < size)%nat ->
  Forall (fun b => b <> [] /\ (List.length b <= size)%nat) (slices fuel size l).
Proof.
  intros Hsize. revert l. induction fuel as [|fuel IH]; intros l; [constructor|].
  destruct l as [|x l]; [constructor|].
  change (slices (S fuel) size (x :: l))
    with (take size (x :: l) :: slices fuel size (drop size (x :: l))).
  constructor; [|apply IH]. split.
  - destruct size; [lia | discriminate].
  - rewrite length_take. lia.
Qed.

Lemma slices_full {A : Type} (size fuel : nat) (l : list A) i b :
  slices fuel size l !! i = Some b ->
  (S i < List.length (slices fuel size l))%nat ->
  List.length b = size.
Proof.
  revert l i. induction fuel as [|fuel IH]; intros l i; [discriminate|].
  destruct l as [|x l]; [discriminate|].
  change (slices (S fuel) size (x :: l))
    with (take size (x :: l) :: slices fuel size (drop size (x :: l))).
  destruct i as [|i]; simpl.
  - intros [= <-] Hmore. rewrite length_take.
    destruct (drop size (x :: l)) as [|y rest] eqn:Hd.
    + destruct fuel; simpl in Hmore; lia.
    + assert (Hl : List.length (drop size (x :: l)) = S (List.length rest))
        by (rewrite Hd; reflexivity).
      rewrite length_drop in Hl. simpl in *. lia.
  - intros Hb Hmore. apply (IH (drop size (x :: l)) i); [exact Hb | lia].
Qed.

(** X21.  With a batch size of at least one, createBatches returns, and
    what it returns cuts the list of changes into consecutive pieces:
    joined in order the batches give back the changes, no batch is empty,
    none holds more than batchSize changes, and every batch but the last
    holds exactly batchSize. *)
Theorem X21_createBatches_partitions (cf : config) (changes : list change) :
  0 < batchSize cf ->
  exists batches,
    createBatches cf changes = Some batches /\
    concat batches = changes /\
    Forall (fun b => b <> [] /\ Z.of_nat (List.length b) <= batchSize cf) batches /\
    full_but_last (batchSize cf) batches.
Proof.
  intros Hsize. unfold createBatches.
  destruct changes as [|ch changes].
  - exists []. repeat split; [constructor | intros i b; discriminate].
  - destruct (Z.ltb_spec 0 (batchSize cf)) as [_|Hle]; [|lia].
    eexists. split; [reflexivity|].
    assert (Hpos : (0 < Z.to_nat (batchSize cf))%nat) by lia.
    split; [apply slices_concat; [exact Hpos | lia]|]. split.
    + eapply Forall_impl; [apply slices_bounds; exact Hpos|].
      intros b [Hne Hlen]. split; [exact Hne | lia].
    + intros i b Hb Hmore.
      rewrite (slices_full _ _ _ i b Hb Hmore). lia.
Qed.

Lemma X21_createBatches_partitions_witness :
  let cf := make_config no_config in
  let changes := replicate 250 queued_x in
  0 < batchSize cf /\
  exists batches,
    createBatches cf changes = Some batches /\
    concat batches = changes /\
    map List.length batches = [100; 100; 50]%nat.
Proof.
  intros cf changes. split; [reflexivity|].
  destruct (X21_createBatches_partitions cf changes) as (batches & Hb & Hc & _);
    [reflexivity|].
  exists batches. split; [exact Hb|]. split; [exact Hc|].
  vm_compute in Hb. injection Hb as <-. reflexivity.
Defined.

(** *** collectChanges *)

Lemma hasChanged_unversioned key v sm :
  unversioned v = true -> hasChanged key v sm = Return true.
Proof.
  intros Hv. unfold hasChanged.
  destruct (StateManager.getLastUpdate key sm) as [r|]; [|reflexivity].
  destruct v as [[| |b|n|x]|l|o]; try discriminate; try reflexivity.
  simpl in *. destruct (map_get "version" o) as [[[| |b|n|x]|l|o']|];
    try discriminate; reflexivity.
Qed.

Lemma hasChanged_outcomes key v sm :
  hasChanged key v sm = Throw (TypeError "cannot read properties") \/
  exists b, hasChanged key v sm = Return b.
Proof.
  unfold hasChanged.
  destruct (StateManager.getLastUpdate key sm) as [r|]; [|right; eauto].
  destruct v as [[| |b|n|x]|l|o]; simpl; eauto.
Qed.

Lemma collect_unversioned c sm entries :
  Forall (fun kv => unversioned (snd kv) = true) entries ->
  collect c sm entries = Return (map (change_of c sm) entries).
Proof.
  induction 1 as [|[key v] entries Hv _ IH]; [reflexivity|].
  simpl. rewrite (hasChanged_unversioned key v sm Hv). simpl. rewrite IH. reflexivity.
Qed.

Lemma collect_throws c sm entries key v :
  (key, v) ∈ entries ->
  v = VPrim PNull \/ v = undefined ->
  StateManager.getLastUpdate key sm <> None ->
  collect c sm entries = Throw (TypeError "cannot read properties").
Proof.
  intros Hin Hv Hlast. induction entries as [|[k0 v0] entries IH];
    [inversion Hin|].
  simpl. apply elem_of_cons in Hin as [Heq | Hin].
  - injection Heq as <- <-. unfold hasChanged.
    destruct (StateManager.getLastUpdate key sm) as [r|]; [|congruence].
    destruct Hv as [-> | ->]; reflexivity.
  - destruct (hasChanged_outcomes k0 v0 sm) as [-> | [b ->]]; [reflexivity|].
    simpl. rewrite (IH Hin). reflexivity.
Qed.

(** X22.  When no stored value is null or undefined and none is an object
    with a numeric [version] field, collectChanges returns one change for
    every entry of the store, in the order of the store, whatever the
    history holds: each carries the key, the value, the store's version
    counter and the time of the call.  The orchestrator is left as it
    was. *)
Theorem X22_unversioned_values_always_collected (c : clock) (s : t) :
  Forall (fun kv => unversioned (snd kv) = true) (StateManager.state (stateManager s)) ->
  collectChanges c s =
  (Return (map (change_of c (stateManager s)) (StateManager.state (stateManager s))), s).
Proof.
  intros Hall. unfold collectChanges, mbind, gets, lift. cbv beta iota.
  rewrite (collect_unversioned c _ _ Hall). reflexivity.
Qed.

Lemma X22_unversioned_values_always_collected_witness :
  exists s,
    run [HostSetState (Clock 10 "a") "x" (num 1);
         HostSetState (Clock 11 "b") "y" (VArr [PNum 2])]
        (new no_config as_shipped) = Some s /\
    Forall (fun kv => unversioned (snd kv) = true) (StateManager.state (stateManager s)) /\
    fst (collectChanges (Clock 20 "c") s) =
      Return [Change "x" (num 1) 2 20; Change "y" (VArr [PNum 2]) 2 20].
Proof.
  eexists. split; [reflexivity|]. split; [repeat constructor|].
  match goal with
  | |- fst (collectChanges ?c ?s) = _ =>
      rewrite (X22_unversioned_values_always_collected c s)
  end; [reflexivity | repeat constructor].
Defined.

(** X23.  A stored null or undefined whose key has a record in the
    history makes a call of sync() fail before anything is sent: reading
    [value.version] throws, the TypeError is published as sync-error, the
    busy flag is clear when the call returns, and no cycle is started, no
    batch registered, no state changed. *)
Theorem X23_stored_null_fails_sync (c : clock) (s : t) (key : string) (v : value) :
  isSyncing s = false ->
  (key, v) ∈ StateManager.state (stateManager s) ->
  v = VPrim PNull \/ v = undefined ->
  StateManager.getLastUpdate key (stateManager s) <> None ->
  exists s',
    sync c s = Some s' /\
    published s' =
      published s ++ [("sync-error", SyncError (TypeError "cannot read properties") (now c))] /\
    isSyncing s' = false /\
    cycles s' = cycles s /\
    pendingSync s' = pendingSync s /\
    stateManager s' = stateManager s.
Proof.
  intros Hidle Hin Hv Hlast. unfold sync. rewrite Hidle.
  unfold collectChanges, mbind, gets, lift. cbv beta iota.
  change (stateManager (set_isSyncing true s)) with (stateManager s).
  rewrite (collect_throws c _ _ key v Hin Hv Hlast).
  eexists. split; [reflexivity|]. repeat split.
Qed.

Lemma X23_stored_null_fails_sync_witness :
  exists s s',
    run [HostSetState (Clock 10 "a") "x" (VPrim PNull)] (new no_config installed) = Some s /\
    isSyncing s = false /\
    sync (Clock 20 "b") s = Some s' /\
    events_named "sync-error" s' = [SyncError (TypeError "cannot read properties") 20] /\
    cycles s' = [].
Proof.
  eexists. 
  destruct (X23_stored_null_fails_sync (Clock 20 "b")
              (set_stateManager
                 (snd (StateManager.setState (Clock 10 "a") "x" (VPrim PNull)
                         StateManager.no_options
                         (stateManager (new no_config installed))))
                 (new no_config installed))
              "x" (VPrim PNull))
    as (s' & Hs & Hp & Hi & Hc & _).
  - reflexivity.
  - simpl. apply list_elem_of_here.
  - left. reflexivity.
  - vm_compute. discriminate.
  - exists s'. split; [reflexivity|]. split; [reflexivity|]. split; [exact Hs|].
    split; [|exact Hc]. unfold events_named. rewrite Hp. reflexivity.
Defined.

End BatchingAndCollecting.

(** ** Sync orchestrator: conflicts of a batch, bookkeeping *)

Section ConflictsAndBookkeeping.
Import JS DataSync.

(** *** What handleConflict does with the resolver's answer *)

Lemma resolver_falls_back_to_server_wins fuel clk n (c : ConflictResolver.conflict)
    (r : ConflictResolver.t) dt :
  ConflictResolver.dataType c = Some dt ->
  ConflictResolver.forcedStrategy c = None ->
  map_has dt (ConflictResolver.mergeRules r) = false ->
  map_get (ConflictResolver.defaultStrategy (ConflictResolver.cfg r))
    (ConflictResolver.customStrategies r) = Some ConflictResolver.ServerWins ->
  exists r',
    ConflictResolver.resolveConflict (S fuel) clk n c r =
    (ConflictResolver.Done (Return (ConflictResolver.serverWinsStrategy c)), r', S n).
Proof.
  intros Hdt Hforced Hrule Hdefault. simpl.
  unfold ConflictResolver.applyStrategy, ConflictResolver.determineStrategy. simpl.
  rewrite Hdt, Hforced, Hrule, andb_false_r, Hdefault. simpl. eauto.
Qed.

Lemma resolveConflict_touches_resolver_only ev c s :
  exists r', snd (DataSync.resolveConflict ev c s) = set_conflictResolver r' s.
Proof.
  unfold DataSync.resolveConflict.
  destruct (ConflictResolver.resolveConflict _ _ _ _ _) as [[[o|] r'] n]; eauto.
Qed.

(** X24.  A conflict whose server value is a primitive of a type without
    a merge rule, handled by a resolver whose default strategy is the
    built-in server-wins: handleConflict returns the server value with
    source 'server' and no metadata, writes that value to the state store
    under the conflict's key with one setState (the version counter
    advances by one), and publishes one conflict-resolved event that
    carries the resolution.  The sync queue is not touched. *)
Theorem X24_scalar_conflict_takes_server_value
    (ev : env) (c : remote_conflict) (s : t) (p : prim) :
  (0 < stack ev)%nat ->
  rc_serverValue c = VPrim p ->
  map_has (typeof_prim p) (ConflictResolver.mergeRules (conflictResolver s)) = false ->
  map_get (ConflictResolver.defaultStrategy (ConflictResolver.cfg (conflictResolver s)))
    (ConflictResolver.customStrategies (conflictResolver s)) =
    Some ConflictResolver.ServerWins ->
  let res := ConflictResolver.Result (VPrim p) "server" undefined in
  let out := handleConflict ev c s in
  fst out = Return res /\
  StateManager.state_get (rc_key c) (stateManager (snd out)) = VPrim p /\
  StateManager.version (stateManager (snd out)) =
    StateManager.version (stateManager s) + 1 /\
  published (snd out) =
    published s ++ [("conflict-resolved", ConflictResolved (rc_key c) res (now (clk ev)))] /\
  syncQueue (snd out) = syncQueue s.
Proof.
  intros Hstack Hsv Hrule Hdefault res out.
  destruct (stack ev) as [|fuel] eqn:Hfuel; [lia|].
  assert (Hdt : ConflictResolver.dataType (resolver_conflict c) = Some (typeof_prim p)).
  { unfold resolver_conflict. simpl. rewrite Hsv. reflexivity. }
  destruct (resolver_falls_back_to_server_wins fuel (resolver_clk ev) 0
              (resolver_conflict c) (conflictResolver s) (typeof_prim p)
              Hdt eq_refl Hrule Hdefault) as [r' Hres].
  assert (Hr : DataSync.resolveConflict ev (resolver_conflict c) s =
               (Return res, set_conflictResolver r' s)).
  { unfold DataSync.resolveConflict. rewrite Hfuel, Hres.
    unfold ConflictResolver.serverWinsStrategy, resolver_conflict. simpl.
    rewrite Hsv. reflexivity. }
  assert (Hout : out =
                 (Return res,
                  set_published
                    (published s ++
                     [("conflict-resolved", ConflictResolved (rc_key c) res (now (clk ev)))])
                    (set_stateManager
                       (snd (StateManager.setState (clk ev) (rc_key c) (VPrim p)
                               StateManager.no_options (stateManager s)))
                       (set_conflictResolver r' s)))).
  { unfold out, handleConflict. fold (resolver_conflict c).
    unfold mbind at 1. rewrite Hr. cbv beta iota.
    unfold applyResolution, stateManager_setState, mbind, modify, emit, ret. reflexivity. }
  rewrite Hout. simpl. repeat split.
  unfold StateManager.state_get. simpl. rewrite map_get_set_eq. reflexivity.
Qed.

Lemma X24_scalar_conflict_takes_server_value_witness :
  let s := new no_config as_shipped in
  let c := RemoteConflict "k" (num 5) (num 6) None None undefined in
  let out := handleConflict (quiet_env 30) c s in
  fst out = Return (ConflictResolver.Result (num 5) "server" undefined) /\
  StateManager.state_get "k" (stateManager (snd out)) = num 5 /\
  events_named "conflict-resolved" (snd out) =
    [ConflictResolved "k" (ConflictResolver.Result (num 5) "server" undefined) 30].
Proof.
  intros s c out.
  destruct (X24_scalar_conflict_takes_server_value (quiet_env 30) c s (PNum 5))
    as (H1 & H2 & _ & H4 & _).
  - simpl. lia.
  - reflexivity.
  - reflexivity.
  - reflexivity.
  - split; [exact H1|]. split; [exact H2|].
    unfold events_named, out. rewrite H4. reflexivity.
Defined.

(** X25.  When the resolver answers with a resolution that carries
    metadata (every built-in merge rule does), handleConflict writes the
    resolved value to the state store and then throws, the store having
    no setMetadata: no conflict-resolved event is published.  In
    processBatches a reply that starts with such a conflict is therefore
    recorded as one caught error, and neither its successes nor its
    conflicts reach the results. *)
Theorem X25_resolution_with_metadata_fails_the_batch
    (ev : env) (c : remote_conflict) (s s1 : t) (r : ConflictResolver.result) :
  DataSync.resolveConflict ev (resolver_conflict c) s = (Return r, s1) ->
  truthy (ConflictResolver.res_metadata r) = true ->
  let failure := TypeError "this.stateManager.setMetadata is not a function" in
  let out := handleConflict ev c s in
  fst out = Throw failure /\
  StateManager.state_get (rc_key c) (stateManager (snd out)) = ConflictResolver.res_value r /\
  published (snd out) = published s /\
  forall br res, head (br_conflicts br) = Some c ->
    fst (absorb ev (Replied br) res s) =
    {| success := success res; conflicts := conflicts res;
       errors := errors res ++ [Caught failure] |}.
Proof.
  intros Hr Hmeta failure out.
  assert (Hout : out =
                 (Throw failure,
                  set_stateManager
                    (snd (StateManager.setState (clk ev) (rc_key c)
                            (ConflictResolver.res_value r) StateManager.no_options
                            (stateManager s1))) s1)).
  { unfold out, handleConflict. fold (resolver_conflict c).
    unfold mbind at 1. rewrite Hr. cbv beta iota.
    unfold applyResolution, stateManager_setState, stateManager_setMetadata.
    unfold mbind, modify, throw. cbv beta iota. rewrite Hmeta. reflexivity. }
  destruct (resolveConflict_touches_resolver_only ev (resolver_conflict c) s) as [r' Hs1].
  rewrite Hr in Hs1. simpl in Hs1.
  split; [rewrite Hout; reflexivity|]. split.
  { rewrite Hout. unfold StateManager.state_get. simpl. rewrite map_get_set_eq. reflexivity. }
  split; [rewrite Hout, Hs1; reflexivity|].
  intros br res Hhead. unfold absorb, handleBatchConflicts.
  destruct (br_conflicts br) as [|c0 cs]; [discriminate|].
  injection Hhead as ->. simpl mapM. unfold mbind at 1. unfold mbind at 1.
  fold out. rewrite Hout. reflexivity.
Qed.

Lemma X25_resolution_with_metadata_fails_the_batch_witness :
  let s := new no_config as_shipped in
  let c := RemoteConflict "k" (VArr [PNum 1]) (VArr [PNum 1; PNum 2]) None None undefined in
  let out := handleConflict (quiet_env 30) c s in
  fst out = Throw (TypeError "this.stateManager.setMetadata is not a function") /\
  StateManager.state_get "k" (stateManager (snd out)) = VArr [PNum 1; PNum 2] /\
  published (snd out) = [].
Proof.
  intros s c out.
  destruct (DataSync.resolveConflict (quiet_env 30) (resolver_conflict c) s)
    as [[r|e] s1] eqn:Hr.
  - assert (Hv : ConflictResolver.res_value r = VArr [PNum 1; PNum 2] /\
                 truthy (ConflictResolver.res_metadata r) = true).
    { vm_compute in Hr. injection Hr as <- _. split; reflexivity. }
    destruct Hv as [Hv Hmeta].
    destruct (X25_resolution_with_metadata_fails_the_batch (quiet_env 30) c s s1 r Hr Hmeta)
      as (H1 & H2 & H3 & _).
    split; [exact H1|]. split; [rewrite <- Hv; exact H2 | exact H3].
  - vm_compute in Hr. discriminate Hr.
Defined.

(** *** pendingSync *)

(** X26.  sendBatch registers the batch in pendingSync under its fresh id
    for the time the transport is awaited, and removes it whichever way
    the send ends: with a transport the batch is pending after the first
    half, without one it has already been removed, and after the second
    half pendingSync is what it was before the call. *)
Theorem X26_batch_pending_only_while_sent
    (c : clock) (batch : list change) (rp : reply) (s : t) :
  map_get (generateId "batch" c) (pendingSync s) = None ->
  let begun := sendBatch_begin c batch s in
  fst begun = generateId "batch" c /\
  (transport_defined (members s) = true ->
   map_get (fst begun) (pendingSync (snd begun)) = Some batch) /\
  (transport_defined (members s) = false -> pendingSync (snd begun) = pendingSync s) /\
  pendingSync (snd (sendBatch_end (fst begun) rp (snd begun))) = pendingSync s.
Proof.
  intros Hfresh begun. unfold begun, sendBatch_begin, sendBatch_end.
  destruct (transport_defined (members s)) eqn:Ht; simpl; rewrite ?Ht; simpl.
  - split; [reflexivity|]. split; [intros _; apply map_get_set_eq|].
    split; [discriminate|]. apply map_delete_set_fresh, Hfresh.
  - split; [reflexivity|]. split; [discriminate|].
    split; [intros _|]; apply map_delete_set_fresh, Hfresh.
Qed.

Lemma X26_batch_pending_only_while_sent_witness :
  let s := new no_config installed in
  let begun := sendBatch_begin (Clock 20 "b") [queued_x] s in
  map_get (generateId "batch" (Clock 20 "b")) (pendingSync s) = None /\
  pendingSync (snd begun) = [(Ident "batch" 20 "b", [queued_x])] /\
  pendingSync (snd (sendBatch_end (fst begun) (Rejected (HostError "offline")) (snd begun))) = [].
Proof.
  intros s begun. split; [reflexivity|]. split; [reflexivity|].
  destruct (X26_batch_pending_only_while_sent (Clock 20 "b") [queued_x]
              (Rejected (HostError "offline")) s eq_refl) as (_ & _ & _ & H).
  exact H.
Defined.

(** *** What a run never assigns *)

Lemma ret_fixed {A : Type} (a : A) : keeps_fixed (ret a).
Proof. intros s. reflexivity. Qed.

Lemma throw_fixed {A : Type} (e : error) : keeps_fixed (@throw A e).
Proof. intros s. reflexivity. Qed.

Lemma lift_fixed {A : Type} (o : outcome A) : keeps_fixed (lift o).
Proof. intros s. reflexivity. Qed.

Lemma gets_fixed {A : Type} (f : t -> A) : keeps_fixed (gets f).
Proof. intros s. reflexivity. Qed.

Lemma modify_fixed (f : t -> t) :
  (forall s, fixed_part (f s) = fixed_part s) -> keeps_fixed (modify f).
Proof. intros Hf s. apply Hf. Qed.

Lemma mbind_fixed {A B : Type} (m : M A) (k : A -> M B) :
  keeps_fixed m -> (forall a, keeps_fixed (k a)) -> keeps_fixed (mbind m k).
Proof.
  intros Hm Hk s. unfold mbind. specialize (Hm s).
  destruct (m s) as [[a|e] s']; simpl in *.
  - rewrite Hk. exact Hm.
  - exact Hm.
Qed.

Lemma try_catch_fixed {A : Type} (m : M A) (h : error -> M A) :
  keeps_fixed m -> (forall e, keeps_fixed (h e)) -> keeps_fixed (try_catch m h).
Proof.
  intros Hm Hh s. unfold try_catch. specialize (Hm s).
  destruct (m s) as [[a|e] s']; simpl in *.
  - exact Hm.
  - rewrite Hh. exact Hm.
Qed.

Lemma mapM_fixed {A B : Type} (f : A -> M B) (l : list A) :
  (forall a, keeps_fixed (f a)) -> keeps_fixed (mapM f l).
Proof.
  intros Hf. induction l as [|x l IH]; simpl; [apply ret_fixed|].
  apply mbind_fixed; [apply Hf|]. intros y.
  apply mbind_fixed; [exact IH|]. intros ys. apply ret_fixed.
Qed.

Lemma trackResolution_registries rs res r :
  ConflictResolver.mergeRules (ConflictResolver.trackResolution rs res r) =
    ConflictResolver.mergeRules r /\
  ConflictResolver.customStrategies (ConflictResolver.trackResolution rs res r) =
    ConflictResolver.customStrategies r.
Proof.
  unfold ConflictResolver.trackResolution.
  destruct (negb (ConflictResolver.trackHistory (ConflictResolver.cfg r)));
    split; reflexivity.
Qed.

Lemma resolveConflict_fixed ev c : keeps_fixed (DataSync.resolveConflict ev c).
Proof.
  intros s. unfold DataSync.resolveConflict.
  pose proof (resolveConflict_state (stack ev) (resolver_clk ev) 0 c (conflictResolver s))
    as Hst.
  destruct (ConflictResolver.resolveConflict _ _ _ _ _) as [[o r'] n]. simpl in Hst.
  assert (Hr : fixed_part (set_conflictResolver r' s) = fixed_part s).
  { destruct Hst as [-> | (rs & res & ->)]; [reflexivity|].
    unfold fixed_part. simpl. rewrite trackResolution_cfg.
    destruct (trackResolution_registries rs res (conflictResolver s)) as [-> ->].
    reflexivity. }
  destruct o as [o|]; exact Hr.
Qed.

Lemma handleBatchConflicts_fixed ev cs : keeps_fixed (handleBatchConflicts ev cs).
Proof.
  unfold handleBatchConflicts. apply mapM_fixed. intros c.
  apply mbind_fixed; [|intros r; apply ret_fixed].
  unfold handleConflict. apply mbind_fixed; [apply resolveConflict_fixed|]. intros r.
  apply mbind_fixed.
  - unfold applyResolution. apply mbind_fixed.
    + apply modify_fixed. reflexivity.
    + intros _. destruct (truthy _); [apply throw_fixed | apply ret_fixed].
  - intros _. apply mbind_fixed; [apply modify_fixed; reflexivity|].
    intros _. apply ret_fixed.
Qed.

Lemma next_batch_fixed c changes batches res s :
  fixed_part (snd (next_batch c changes batches res s)) = fixed_part s.
Proof.
  unfold next_batch. destruct batches as [|b rest]; [reflexivity|].
  unfold sendBatch_begin. destruct (transport_defined (members s)); reflexivity.
Qed.

Lemma sync_end_fixed c changes res s :
  fixed_part (snd (sync_end c changes res s)) = fixed_part s.
Proof.
  unfold sync_end, finally.
  set (body := try_catch _ _).
  assert (Hk : keeps_fixed body).
  { unfold body. apply try_catch_fixed.
    - apply mbind_fixed.
      + unfold call_handleSyncResults. apply mbind_fixed; [apply gets_fixed|].
        intros h. destruct (handleSyncResults h); [apply lift_fixed | apply throw_fixed].
      + intros _. apply mbind_fixed; [apply modify_fixed; reflexivity|].
        intros _ s1. rewrite publish_sync_complete_count. simpl.
        destruct (syncQueue s1); reflexivity.
    - intros e. apply modify_fixed. reflexivity. }
  specialize (Hk s). destruct (body s) as [o s']. exact Hk.
Qed.

Lemma step_fixed l s s' : step l s = Some s' -> fixed_part s' = fixed_part s.
Proof.
  destruct l as [c | i ev rp | c key v]; simpl.
  - unfold sync. destruct (isSyncing s); [intros [= <-]; reflexivity|].
    pose proof (collectChanges_state c (set_isSyncing true s)) as Hst.
    destruct (collectChanges c (set_isSyncing true s)) as [[changes|e] s2];
      simpl in Hst; subst s2.
    + destruct changes as [|ch changes]; [intros [= <-]; reflexivity|].
      destruct (createBatches _ _) as [batches|]; [|discriminate].
      pose proof (next_batch_fixed c (ch :: changes) batches empty_results
                    (set_isSyncing true s)) as Hn.
      destruct (next_batch _ _ _ _ _) as [cy s3]. simpl in Hn.
      intros [= <-]. exact Hn.
    + intros [= <-]. reflexivity.
  - intros [= <-]. unfold settle.
    destruct (cycles s !! i) as [cy|]; [|reflexivity].
    set (s0 := set_cycles (delete i (cycles s)) s).
    destruct (cy_inflight cy) as [[batchId batch]|].
    + assert (H1 : fixed_part (snd (sendBatch_end batchId rp s0)) = fixed_part s).
      { unfold sendBatch_end. destruct (transport_defined (members s0)); reflexivity. }
      destruct (sendBatch_end batchId rp s0) as [rp' s1]. simpl in H1.
      assert (H2 : fixed_part (snd (absorb ev rp' (cy_results cy) s1)) = fixed_part s1).
      { unfold absorb. destruct rp' as [br|e]; [|reflexivity].
        pose proof (handleBatchConflicts_fixed ev (br_conflicts br) s1) as H.
        destruct (handleBatchConflicts ev (br_conflicts br) s1) as [[rs|e] s2]; exact H. }
      destruct (absorb ev rp' (cy_results cy) s1) as [res s2]. simpl in H2.
      pose proof (next_batch_fixed (clk ev) (cy_changes cy) (cy_remaining cy) res s2) as H3.
      destruct (next_batch _ _ _ _ s2) as [cy' s3]. simpl in H3.
      change (fixed_part s3 = fixed_part s). congruence.
    + apply (sync_end_fixed (clk ev) (cy_changes cy) (cy_results cy) s0).
  - intros [= <-]. reflexivity.
Qed.

Lemma run_fixed ls s s' : run ls s = Some s' -> fixed_part s' = fixed_part s.
Proof.
  revert s. induction ls as [|l ls IH]; intros s; simpl.
  - intros [= <-]. reflexivity.
  - destruct (step l s) as [s1|] eqn:Hs; [|discriminate].
    intros Hrun. rewrite (IH s1 Hrun). exact (step_fixed l s s1 Hs).
Qed.

(** X27.  Whatever calls of sync(), resumptions and host writes follow
    the constructor, the orchestrator's configuration and the host's
    members stay what the constructor was given, and its resolver keeps
    the registries the constructor built: the four built-in strategies,
    the three built-in merge rules, history tracking switched on, and the
    orchestrator's retryAttempts as the resolver's maxRetries. *)
Theorem X27_run_keeps_configuration_and_registries
    (c : config_in) (h : host) (ls : list label) (s : t) :
  run ls (new c h) = Some s ->
  cfg s = make_config c /\
  members s = h /\
  ConflictResolver.customStrategies (conflictResolver s) =
    [("server-wins", ConflictResolver.ServerWins);
     ("client-wins", ConflictResolver.ClientWins);
     ("last-write-wins", ConflictResolver.LastWriteWins);
     ("auto-merge", ConflictResolver.AutoMerge)] /\
  ConflictResolver.mergeRules (conflictResolver s) =
    [("array", ConflictResolver.MergeArrays);
     ("object", ConflictResolver.MergeObjects);
     ("string", ConflictResolver.MergeStrings)] /\
  ConflictResolver.trackHistory (ConflictResolver.cfg (conflictResolver s)) = true /\
  ConflictResolver.maxRetries (ConflictResolver.cfg (conflictResolver s)) =
    retryAttempts (make_config c) /\
  ConflictResolver.defaultStrategy (ConflictResolver.cfg (conflictResolver s)) =
    "server-wins".
Proof.
  intros Hrun. apply run_fixed in Hrun. unfold fixed_part in Hrun.
  injection Hrun as Hcfg Hmem Hrcfg Hrules Hstrat.
  rewrite Hcfg, Hmem, Hrcfg, Hrules, Hstrat. repeat split.
Qed.

Lemma X27_run_keeps_configuration_and_registries_witness :
  exists s,
    run [HostSetState (Clock 10 "a") "x" (num 1);
         CallSync (Clock 20 "b");
         Settle 0 (quiet_env 30)
           (Replied (BatchResult []
                       [RemoteConflict "x" (num 2) (num 1) None None undefined] []))]
        (new no_config installed) = Some s /\
    List.length (ConflictResolver.conflictHistory (conflictResolver s)) = 1%nat /\
    List.length (ConflictResolver.customStrategies (conflictResolver s)) = 4%nat /\
    members s = installed.
Proof.
  eexists. split; [reflexivity|]. split; [reflexivity|].
  match goal with
  | |- _ /\ members ?s = _ =>
      destruct (X27_run_keeps_configuration_and_registries no_config installed
                  [HostSetState (Clock 10 "a") "x" (num 1);
                   CallSync (Clock 20 "b");
                   Settle 0 (quiet_env 30)
                     (Replied (BatchResult []
                                 [RemoteConflict "x" (num 2) (num 1) None None undefined] []))]
                  s eq_refl) as (_ & Hm & Hs & _)
  end.
  split; [rewrite Hs; reflexivity | exact Hm].
Defined.

End ConflictsAndBookkeeping.

(** ** Boolean options of the constructors *)

Section BooleanOptions.
Import JS.

(** The resolver logs nothing when its configuration holds
    [trackHistory: false]. *)
Lemma resolve_all_untracked fuel clk cs (r : ConflictResolver.t) :
  ConflictResolver.trackHistory (ConflictResolver.cfg r) = false ->
  ConflictResolver.conflictHistory (ConflictResolver.resolve_all fuel clk cs r) =
  ConflictResolver.conflictHistory r.
Proof.
  intros Hoff. induction cs as [|c cs IH] using rev_ind; [reflexivity|].
  rewrite resolve_all_snoc.
  destruct (resolveConflict_registries fuel clk 0 c (ConflictResolver.resolve_all fuel clk cs r))
    as (_ & _ & _ & Hh).
  simpl in Hh. rewrite Hh; [exact IH|].
  clear Hh IH. induction cs as [|c0 cs IH] using rev_ind; [exact Hoff|].
  rewrite resolve_all_snoc, resolveConflict_cfg. exact IH.
Qed.

(** No call on the state store reads [enableVersioning] or [autoSync]:
    a call on a store that holds other values for them does what it does
    on the store itself. *)
Lemma step_with_flags a b s l :
  StateManager.step (StateManager.with_flags a b s) l =
  StateManager.with_flags a b (StateManager.step s l).
Proof.
  destruct l as [clk key v o | clk key f p | key sid]; simpl; try reflexivity.
  unfold StateManager.unsubscribe. simpl.
  destruct (map_get key (StateManager.subscribers s)); reflexivity.
Qed.

Lemma run_with_flags a b ls s :
  StateManager.run ls (StateManager.with_flags a b s) =
  StateManager.with_flags a b (StateManager.run ls s).
Proof.
  revert s. induction ls as [|l ls IH]; intros s; [reflexivity|].
  unfold StateManager.run in *. simpl. rewrite step_with_flags. apply IH.
Qed.

Lemma batch_with_flags a b clk updates s :
  StateManager.batch clk updates (StateManager.with_flags a b s) =
  (fst (StateManager.batch clk updates s),
   StateManager.with_flags a b (snd (StateManager.batch clk updates s))).
Proof.
  unfold StateManager.batch.
  assert (H : forall acc s0,
            foldl StateManager.batch_step (acc, StateManager.with_flags a b s0) updates =
            (fst (foldl StateManager.batch_step (acc, s0) updates),
             StateManager.with_flags a b
               (snd (foldl StateManager.batch_step (acc, s0) updates)))).
  { induction updates as [|i updates IH]; intros acc s0; [reflexivity|].
    simpl foldl.
    change (StateManager.batch_step (acc, StateManager.with_flags a b s0) i)
      with (fst (StateManager.batch_step (acc, s0) i),
            StateManager.with_flags a b (snd (StateManager.batch_step (acc, s0) i))).
    rewrite IH. destruct (StateManager.batch_step (acc, s0) i). reflexivity. }
  rewrite H. destruct (foldl StateManager.batch_step ([], s) updates). reflexivity.
Qed.

Lemma merge_with_flags same_object a b clk incoming strategy s :
  StateManager.merge same_object clk incoming strategy (StateManager.with_flags a b s) =
  (fst (StateManager.merge same_object clk incoming strategy s),
   StateManager.with_flags a b
     (snd (StateManager.merge same_object clk incoming strategy s))).
Proof.
  unfold StateManager.merge.
  change (StateManager.classify same_object (StateManager.with_flags a b s) incoming)
    with (StateManager.classify same_object s incoming).
  change (StateManager.mergeStrategy (StateManager.cfg (StateManager.with_flags a b s)))
    with (StateManager.mergeStrategy (StateManager.cfg s)).
  set (ws := StateManager.merge_writes _ _).
  assert (H : forall n s0,
            snd (foldl (StateManager.write clk) (n, StateManager.with_flags a b s0) ws) =
            StateManager.with_flags a b (snd (foldl (StateManager.write clk) (n, s0) ws))).
  { induction ws as [|w ws IH]; intros n s0; [reflexivity|]. simpl foldl.
    change (StateManager.write clk (n, StateManager.with_flags a b s0) w)
      with (S n, StateManager.with_flags a b (snd (StateManager.write clk (n, s0) w))).
    rewrite IH. reflexivity. }
  simpl. rewrite H. reflexivity.
Qed.

(** C10, as stated, fails: the spread that ends each configuration
    literal copies the caller's own keys over the computed defaults, so an
    explicit [false] is what the object keeps.  A resolver built with
    [enableMergeRules: false] registers no merge rule. *)
Lemma C10_explicit_false_is_kept :
  let rc := {| ConflictResolver.in_defaultStrategy := None;
               ConflictResolver.in_maxRetries := None;
               ConflictResolver.in_enableMergeRules := Some false;
               ConflictResolver.in_trackHistory := Some false;
               ConflictResolver.in_maxHistoryLength := None;
               ConflictResolver.in_stringMergeDelimiter := None;
               ConflictResolver.in_historySize := None |} in
  let sc := {| StateManager.in_historySize := None;
               StateManager.in_mergeStrategy := None;
               StateManager.in_enableVersioning := Some false;
               StateManager.in_autoSync := Some false |} in
  let dc := {| DataSync.in_syncInterval := None;
               DataSync.in_retryAttempts := None;
               DataSync.in_batchSize := None;
               DataSync.in_enableDeltaUpdates := Some false |} in
  ConflictResolver.enableMergeRules (ConflictResolver.cfg (ConflictResolver.new rc)) = false /\
  ConflictResolver.mergeRules (ConflictResolver.new rc) = [] /\
  ConflictResolver.trackHistory (ConflictResolver.cfg (ConflictResolver.new rc)) = false /\
  StateManager.enableVersioning (StateManager.cfg (StateManager.new sc)) = false /\
  StateManager.autoSync (StateManager.cfg (StateManager.new sc)) = false /\
  DataSync.enableDeltaUpdates (DataSync.cfg (DataSync.new dc DataSync.as_shipped)) = false.
Proof. repeat split. Qed.

(** C10, amended.  In each of the five options the logical-or with the
    default [true] is true for every input, an explicit [false] included;
    the value the configuration object then holds is the caller's own
    value whenever the caller passed the key, and [true] only when the key
    is absent.  What passing [false] does depends on the option:
    - enableMergeRules: no merge rule is registered, and a conflict that
      forces no strategy gets the default strategy whatever its data type
      (with the key absent or true the three built-in rules are
      registered);
    - trackHistory: no resolution is ever logged;
    - enableVersioning, autoSync: nothing changes; every setState still
      advances the version counter, and setState, subscribe, unsubscribe,
      getState, batch and merge do on a store that holds other values for
      the two options what they do on the store itself;
    - enableDeltaUpdates: handleDataChange queues the change and does not
      call processDeltaUpdate (with the key absent or true it calls
      it). *)
Theorem C10_boolean_options_follow_the_caller
    (rc : ConflictResolver.config_in) (sc : StateManager.config_in)
    (dc : DataSync.config_in) :
  (ConflictResolver.computed_enableMergeRules rc = true /\
   ConflictResolver.computed_trackHistory rc = true /\
   StateManager.computed_enableVersioning sc = true /\
   StateManager.computed_autoSync sc = true /\
   DataSync.computed_enableDeltaUpdates dc = true) /\
  (ConflictResolver.enableMergeRules (ConflictResolver.make_config rc) =
     default true (ConflictResolver.in_enableMergeRules rc) /\
   ConflictResolver.trackHistory (ConflictResolver.make_config rc) =
     default true (ConflictResolver.in_trackHistory rc) /\
   StateManager.enableVersioning (StateManager.make_config sc) =
     default true (StateManager.in_enableVersioning sc) /\
   StateManager.autoSync (StateManager.make_config sc) =
     default true (StateManager.in_autoSync sc) /\
   DataSync.enableDeltaUpdates (DataSync.make_config dc) =
     default true (DataSync.in_enableDeltaUpdates dc)) /\
  (* enableMergeRules *)
  (ConflictResolver.mergeRules (ConflictResolver.new rc) =
     (if default true (ConflictResolver.in_enableMergeRules rc)
      then [("array", ConflictResolver.MergeArrays);
            ("object", ConflictResolver.MergeObjects);
            ("string", ConflictResolver.MergeStrings)]
      else []) /\
   (ConflictResolver.in_enableMergeRules rc = Some false ->
    forall c, ConflictResolver.forcedStrategy c = None ->
      ConflictResolver.determineStrategy c (ConflictResolver.new rc) =
      ConflictResolver.defaultStrategy (ConflictResolver.make_config rc))) /\
  (* trackHistory *)
  (ConflictResolver.in_trackHistory rc = Some false ->
   forall fuel clk cs,
     ConflictResolver.conflictHistory
       (ConflictResolver.resolve_all fuel clk cs (ConflictResolver.new rc)) = []) /\
  (* enableVersioning, autoSync *)
  ((forall ls,
      StateManager.version (StateManager.run ls (StateManager.new sc)) =
      Z.of_nat (StateManager.setState_calls ls)) /\
   (forall a b ls,
      StateManager.run ls (StateManager.with_flags a b (StateManager.new sc)) =
      StateManager.with_flags a b (StateManager.run ls (StateManager.new sc))) /\
   (forall a b s key withMetadata,
      StateManager.getState key withMetadata (StateManager.with_flags a b s) =
      StateManager.getState key withMetadata s) /\
   (forall a b s clk updates,
      StateManager.batch clk updates (StateManager.with_flags a b s) =
      (fst (StateManager.batch clk updates s),
       StateManager.with_flags a b (snd (StateManager.batch clk updates s)))) /\
   (forall same_object a b s clk incoming strategy,
      StateManager.merge same_object clk incoming strategy (StateManager.with_flags a b s) =
      (fst (StateManager.merge same_object clk incoming strategy s),
       StateManager.with_flags a b
         (snd (StateManager.merge same_object clk incoming strategy s))))) /\
  (* enableDeltaUpdates *)
  (forall h processDeltaUpdate ch,
     DataSync.handleDataChange processDeltaUpdate ch (DataSync.new dc h) =
     if default true (DataSync.in_enableDeltaUpdates dc)
     then processDeltaUpdate ch (DataSync.set_syncQueue [ch] (DataSync.new dc h))
     else (Return tt, DataSync.set_syncQueue [ch] (DataSync.new dc h))).
Proof.
  split; [|split; [|split; [|split; [|split]]]].
  - destruct rc as [? ? [[|]|] [[|]|] ? ? ?], sc as [? ? [[|]|] [[|]|]], dc as [? ? ? [[|]|]];
      repeat split.
  - destruct rc as [? ? [[|]|] [[|]|] ? ? ?], sc as [? ? [[|]|] [[|]|]], dc as [? ? ? [[|]|]];
      repeat split.
  - split.
    + rewrite new_mergeRules. destruct rc as [? ? [[|]|] ? ? ? ?]; reflexivity.
    + intros Hoff c Hforced. unfold ConflictResolver.determineStrategy.
      rewrite Hforced, new_mergeRules, new_cfg.
      destruct rc as [? ? e ? ? ? ?]. simpl in Hoff. subst e. simpl.
      destruct (ConflictResolver.dataType c) as [dt|]; [|reflexivity].
      rewrite andb_false_r. reflexivity.
  - intros Hoff fuel clk cs. rewrite resolve_all_untracked; [apply new_conflictHistory|].
    rewrite new_cfg. destruct rc as [? ? ? t ? ? ?]. simpl in Hoff. subst t. reflexivity.
  - split.
    + intros ls. rewrite run_version. simpl. lia.
    + split; [intros a b ls; apply run_with_flags|].
      split; [reflexivity|].
      split; [intros; apply batch_with_flags | intros; apply merge_with_flags].
  - intros h pdu ch. unfold DataSync.handleDataChange, DataSync.mbind, DataSync.modify,
      DataSync.gets, DataSync.ret. cbv beta iota.
    destruct dc as [? ? ? [[|]|]]; reflexivity.
Qed.

End BooleanOptions.
